(** * pairwise_runner: node pairing and per-pair job scripts

    A shallow embedding of [pairwise_runner.py].  Python lists are
    [list]s, and the effects of the program (the random generator,
    standard output, the file system and the child processes it spawns)
    are threaded through a [world] by a small monad.

    A Python [str] is the [string] of the bytes of its UTF-8 encoding,
    so that a character is one to four bytes and [len] in bytes is
    [String.length]; the functions of [str] are written on this
    encoding.  A [str] with a lone surrogate has no encoding and is left
    out: every text can be written and printed.  The bytes of a file are
    a [string] as well, which need not be the encoding of any text. *)

From Stdlib Require Import String Ascii List Arith Bool Lia Permutation.
From Stdlib Require Import DecimalString DecimalNat.
Import ListNotations.

Local Open Scope list_scope.
Local Open Scope string_scope.

(** [s[n:]], by bytes. *)
Fixpoint skip (n : nat) (s : string) : string :=
  match n, s with
  | S n', String _ s' => skip n' s'
  | _, _ => s
  end.

(** ** Python string primitives *)

Module Py.

Definition nul : ascii := "000"%char.

Definition nl : ascii := "010"%char.
Definition cr : ascii := "013"%char.
Definition dquote : ascii := "034"%char.
Definition comma : ascii := ","%char.
Definition slash : ascii := "/"%char.
Definition hyphen : ascii := "-"%char.
Definition underscore : ascii := "_"%char.

(** A string from the codes of its bytes. *)
Definition bytes (l : list nat) : string :=
  fold_right (fun n s => String (ascii_of_nat n) s) EmptyString l.

(** The characters of [str.isspace], each by its encoding: the ASCII
    ones (tab, line feed, vertical tab, form feed, carriage return, the
    separators 0x1c..0x1f and the blank), then U+0085, U+00A0, U+1680,
    U+2000..U+200A, U+2028, U+2029, U+202F, U+205F and U+3000. *)
Definition spaces : list string :=
  map bytes
    ([[9]; [10]; [11]; [12]; [13]; [28]; [29]; [30]; [31]; [32];
      [194; 133]; [194; 160]; [225; 154; 128]]
       ++ map (fun n => [226; 128; n]) (seq 128 11)
       ++ [[226; 128; 168]; [226; 128; 169]; [226; 128; 175];
           [226; 129; 159]; [227; 128; 128]]).

(** [s.endswith(sp)] *)
Definition ends_with (sp s : string) : bool :=
  (String.length sp <=? String.length s)%nat
  && String.eqb (skip (String.length s - String.length sp) s) sp.

(** The white-space character [s] starts with, and the one it ends
    with. *)
Definition leading_space (s : string) : option string :=
  find (fun sp => String.prefix sp s) spaces.

Definition trailing_space (s : string) : option string :=
  find (fun sp => ends_with sp s) spaces.

(** [s.lstrip()]: white-space characters are dropped from the start as
    long as there is one; [s] has no more of them than it has bytes. *)
Fixpoint lstrip_fuel (fuel : nat) (s : string) : string :=
  match fuel with
  | O => s
  | S fuel' =>
      match leading_space s with
      | Some sp => lstrip_fuel fuel' (skip (String.length sp) s)
      | None => s
      end
  end.

Definition lstrip (s : string) : string := lstrip_fuel (String.length s) s.

(** [s.rstrip()] *)
Fixpoint rstrip_fuel (fuel : nat) (s : string) : string :=
  match fuel with
  | O => s
  | S fuel' =>
      match trailing_space s with
      | Some sp =>
          rstrip_fuel fuel' (substring 0 (String.length s - String.length sp) s)
      | None => s
      end
  end.

Definition rstrip (s : string) : string := rstrip_fuel (String.length s) s.

(** [s.strip()] *)
Definition strip (s : string) : string := rstrip (lstrip s).

(** [bytes.decode('utf-8')] succeeds on the well-formed byte sequences of
    the Unicode standard: one byte below 0x80; a lead byte 0xC2..0xDF
    and one continuation byte 0x80..0xBF; a lead byte 0xE0..0xEF and two,
    without the overlong forms and the surrogates; a lead byte
    0xF0..0xF4 and three, up to U+10FFFF. *)
Definition between (lo hi : nat) (c : ascii) : bool :=
  (lo <=? nat_of_ascii c)%nat && (nat_of_ascii c <=? hi)%nat.

Definition continuation : ascii -> bool := between 128 191.

Definition three (a b : ascii) : bool :=
  (between 224 224 a && between 160 191 b)
  || (between 225 236 a && continuation b)
  || (between 237 237 a && between 128 159 b)
  || (between 238 239 a && continuation b).

Definition four (a b : ascii) : bool :=
  (between 240 240 a && between 144 191 b)
  || (between 241 243 a && continuation b)
  || (between 244 244 a && between 128 143 b).

Fixpoint utf8 (s : string) : bool :=
  match s with
  | EmptyString => true
  | String a s1 =>
      if between 0 127 a then utf8 s1
      else
        match s1 with
        | EmptyString => false
        | String b s2 =>
            if between 194 223 a then continuation b && utf8 s2
            else
              match s2 with
              | EmptyString => false
              | String c s3 =>
                  if three a b then continuation c && utf8 s3
                  else
                    match s3 with
                    | EmptyString => false
                    | String d s4 =>
                        four a b && continuation c && continuation d
                        && utf8 s4
                    end
              end
        end
  end.

(** [s.split(sep)] for a one-character separator: the result is never
    empty, and [k] separators give [k + 1] fields. *)
Fixpoint split (sep : ascii) (s : string) : list string :=
  match s with
  | EmptyString => [EmptyString]
  | String c s' =>
      if Ascii.eqb c sep then EmptyString :: split sep s'
      else match split sep s' with
           | [] => [String c EmptyString]
           | f :: fs => String c f :: fs
           end
  end.

(** [s.replace(old, new)] for one-character [old] and [new]. *)
Fixpoint replace (old new : ascii) (s : string) : string :=
  match s with
  | EmptyString => EmptyString
  | String c s' => String (if Ascii.eqb c old then new else c) (replace old new s')
  end.

(** [c in s] for a character. *)
Fixpoint mem (c : ascii) (s : string) : bool :=
  match s with
  | EmptyString => false
  | String d s' => Ascii.eqb d c || mem c s'
  end.

(** [sub in s]: [sub] occurs in [s] as a contiguous substring. *)
Fixpoint contains (sub s : string) : bool :=
  String.prefix sub s ||
  match s with
  | EmptyString => false
  | String _ s' => contains sub s'
  end.

(** [str(i)] for a non-negative integer. *)
Definition str (i : nat) : string := NilEmpty.string_of_uint (Nat.to_uint i).

(** The text layer of [open(path, 'r')] reads with universal newlines:
    a carriage return, alone or followed by a line feed, is read as one
    line feed. *)
Fixpoint universal_newlines (s : string) : string :=
  match s with
  | EmptyString => EmptyString
  | String c s' =>
      if Ascii.eqb c cr then
        match s' with
        | String d s'' =>
            if Ascii.eqb d nl then String nl (universal_newlines s'')
            else String nl (universal_newlines s')
        | EmptyString => String nl EmptyString
        end
      else String c (universal_newlines s')
  end.

(** Iterating over a text file yields its lines, each with the line feed
    that ends it; a last line without one is yielded as it is, and an
    empty remainder yields nothing. *)
Fixpoint readlines (s : string) : list string :=
  match s with
  | EmptyString => []
  | String c s' =>
      if Ascii.eqb c nl then String nl EmptyString :: readlines s'
      else match readlines s' with
           | [] => [String c EmptyString]
           | l :: ls => String c l :: ls
           end
  end.

(** The names between the slashes of a path, the empty ones dropped.
    This is the path the system follows from the working directory for
    a relative path of plain names; [.] and [..] are names like others
    here, and are not followed, and a leading slash is dropped, as if
    the working directory were the root. *)
Definition components (path : string) : list string :=
  filter (fun c => negb (String.eqb c EmptyString)) (split slash path).

(** [l.remove(x)]: drops the first element equal to [x]; [None] stands
    for the [ValueError] raised when there is none. *)
Fixpoint list_remove (x : string) (l : list string) : option (list string) :=
  match l with
  | [] => None
  | y :: l' =>
      if String.eqb y x then Some l'
      else option_map (cons y) (list_remove x l')
  end.

(** [l.pop(i)] for [0 <= i]: the element and the list without it; [None]
    stands for the [IndexError] raised when [i] is out of range. *)
Fixpoint list_pop {A : Type} (i : nat) (l : list A) : option (A * list A) :=
  match l, i with
  | [], _ => None
  | x :: l', O => Some (x, l')
  | x :: l', S i' =>
      match list_pop i' l' with
      | Some (y, r) => Some (y, x :: r)
      | None => None
      end
  end.

(** [l[i] = v] for [0 <= i]; [None] when out of range. *)
Fixpoint list_set {A : Type} (i : nat) (v : A) (l : list A) : option (list A) :=
  match l, i with
  | [], _ => None
  | _ :: l', O => Some (v :: l')
  | x :: l', S i' => option_map (cons x) (list_set i' v l')
  end.

End Py.

(** ** The world the program runs in *)

Inductive exn : Type :=
| IndexError
| ValueError
| OSError.

(** A regular file: its bytes and its permission bits.  The bits are
    kept, as [os.chmod] sets them, and not checked: the files and
    directories of a world are those the program may read, write and
    search, and there are no symbolic links. *)
Record file : Type := mkFile { content : string; mode : nat }.

Definition path : Type := list string.

Record world : Type := mkWorld {
  draws : list nat;            (** what the random generator will yield next *)
  stdout : list string;        (** the lines printed so far, oldest first *)
  files : list (path * file);  (** regular files, the binding in front wins *)
  dirs : list path;            (** directories, besides the working directory *)
  spawned : list (list string) (** argument vectors of the child processes run so far *)
}.

Definition set_draws (d : list nat) (w : world) : world :=
  mkWorld d (stdout w) (files w) (dirs w) (spawned w).
Definition set_stdout (o : list string) (w : world) : world :=
  mkWorld (draws w) o (files w) (dirs w) (spawned w).
Definition set_files (f : list (path * file)) (w : world) : world :=
  mkWorld (draws w) (stdout w) f (dirs w) (spawned w).
Definition set_dirs (d : list path) (w : world) : world :=
  mkWorld (draws w) (stdout w) (files w) d (spawned w).
Definition set_spawned (p : list (list string)) (w : world) : world :=
  mkWorld (draws w) (stdout w) (files w) (dirs w) p.

(** How a call ends: it returns, it raises, or it is still running when
    the draws of the world are used up ([OutOfDraws]) or when the bound on
    loop iterations is reached ([OutOfFuel]). *)
Inductive outcome (A : Type) : Type :=
| Ret (a : A) (w : world)
| Raise (e : exn) (w : world)
| OutOfDraws
| OutOfFuel.

Arguments Ret {A} a w.
Arguments Raise {A} e w.
Arguments OutOfDraws {A}.
Arguments OutOfFuel {A}.

Definition M (A : Type) : Type := world -> outcome A.

Definition ret {A : Type} (a : A) : M A := fun w => Ret a w.

Definition bind {A B : Type} (m : M A) (k : A -> M B) : M B :=
  fun w =>
    match m w with
    | Ret a w' => k a w'
    | Raise e w' => Raise e w'
    | OutOfDraws => OutOfDraws
    | OutOfFuel => OutOfFuel
    end.

Definition raise {A : Type} (e : exn) : M A := fun w => Raise e w.

Declare Scope py_scope.
Delimit Scope py_scope with py.
Notation "x <- m ;; k" := (bind m (fun x => k))
  (at level 61, m at next level, right associativity) : py_scope.
Notation "m ;; k" := (bind m (fun _ => k))
  (at level 61, right associativity) : py_scope.
Local Open Scope py_scope.

(** An operation that fails with [e] where Python raises. *)
Definition or_raise {A : Type} (e : exn) (o : option A) : M A :=
  match o with
  | Some a => ret a
  | None => raise e
  end.

Definition path_eqb (p q : path) : bool :=
  if list_eq_dec string_dec p q then true else false.

Fixpoint lookup_file (p : path) (fs : list (path * file)) : option file :=
  match fs with
  | [] => None
  | (q, f) :: fs' => if path_eqb q p then Some f else lookup_file p fs'
  end.

Definition is_dir (p : path) (w : world) : bool :=
  match p with
  | [] => true
  | _ => existsb (path_eqb p) (dirs w)
  end.

Definition is_file (p : path) (w : world) : bool :=
  match lookup_file p (files w) with
  | Some _ => true
  | None => false
  end.

(** The longest name of a directory entry and the length a path name
    must stay below, in bytes ([NAME_MAX] and [PATH_MAX] of Linux). *)
Definition name_max : nat := 255.
Definition path_max : nat := 4096.

(** What is wrong with a path name before any file is looked at: Python
    refuses a name that holds a NUL with [ValueError], and the system
    refuses with [OSError] a name of [path_max] bytes or more, or with a
    component of more than [name_max] bytes. *)
Definition path_error (p : string) : option exn :=
  if Py.mem Py.nul p then Some ValueError
  else if (String.length p <? path_max)%nat
          && forallb (fun c => (String.length c <=? name_max)%nat)
               (Py.components p)
  then None
  else Some OSError.

(** What is wrong with a path name that is to be opened as a regular
    file: what is wrong with it as a path name, or that it ends with a
    slash, as only the name of a directory may. *)
Definition file_error (p : string) : option exn :=
  match path_error p with
  | Some e => Some e
  | None => if Py.ends_with "/" p then Some OSError else None
  end.

(** The path a call follows for a path name, and the path to the file it
    opens. *)
Definition path_of (p : string) : M path :=
  fun w =>
    match path_error p with
    | Some e => Raise e w
    | None => Ret (Py.components p) w
    end.

Definition file_path_of (p : string) : M path :=
  fun w =>
    match file_error p with
    | Some e => Raise e w
    | None => Ret (Py.components p) w
    end.

(** ** The library calls the program makes *)

(** [print(line)] *)
Definition print (line : string) : M unit :=
  fun w => Ret tt (set_stdout (stdout w ++ [line])%list w).

(** The generator's [_randbelow(n)]: the next draw, brought into
    [range(n)].  Every draw list is a possible future of the generator,
    and every index below [n] is the value of some draw. *)
Definition randbelow (n : nat) : M nat :=
  fun w =>
    match draws w with
    | [] => OutOfDraws
    | r :: rest => Ret (r mod n) (set_draws rest w)
    end.

(** [seq[i]] *)
Definition getitem {A : Type} (seq : list A) (i : nat) : M A :=
  or_raise IndexError (nth_error seq i).

(** [random.choice(seq)] is [seq[self._randbelow(len(seq))]], and raises
    [IndexError] on an empty sequence. *)
Definition random_choice {A : Type} (seq : list A) : M A :=
  match seq with
  | [] => raise IndexError
  | _ => i <- randbelow (length seq) ;; getitem seq i
  end.

(** [random.randint(a, b)] is [a + self._randbelow(b - a + 1)]. *)
Definition random_randint (a b : nat) : M nat :=
  if (b <? a)%nat then raise ValueError
  else k <- randbelow (b - a + 1) ;; ret (a + k).

(** [x[i], x[j] = x[j], x[i]] *)
Definition swap {A : Type} (x : list A) (i j : nat) : M (list A) :=
  xj <- getitem x j ;;
  xi <- getitem x i ;;
  x <- or_raise IndexError (Py.list_set i xj x) ;;
  or_raise IndexError (Py.list_set j xi x).

(** The loop of [random.shuffle(x)]:
    [for i in reversed(range(1, len(x))): j = randbelow(i + 1); swap];
    [shuffle_from i x] runs it from index [i] down to 1. *)
Fixpoint shuffle_from {A : Type} (i : nat) (x : list A) : M (list A) :=
  match i with
  | O => ret x
  | S i' =>
      j <- randbelow (i + 1) ;;
      x <- swap x i j ;;
      shuffle_from i' x
  end.

Definition random_shuffle {A : Type} (x : list A) : M (list A) :=
  shuffle_from (length x - 1) x.

(** [os.path.exists(p)] *)
Definition os_path_exists (p : string) : M bool :=
  fun w => Ret (is_dir (Py.components p) w || is_file (Py.components p) w) w.

(** The non-empty leading parts of a path: its ancestors and itself. *)
Fixpoint ancestors (p : path) : list path :=
  match p with
  | [] => []
  | c :: p' => [c] :: map (cons c) (ancestors p')
  end.

(** [os.makedirs(p)]: creates the directory and the ancestors it lacks;
    raises when the path exists already or an ancestor is a regular file. *)
Definition os_makedirs (p : string) : M unit :=
  fun w =>
    let c := Py.components p in
    if is_dir c w || existsb (fun a => is_file a w) (ancestors c)
    then Raise OSError w
    else Ret tt (set_dirs (filter (fun a => negb (is_dir a w)) (ancestors c) ++ dirs w)%list w).

(** The permission bits of a file that [open] creates. *)
Definition default_mode : nat := 420.

(** [with open(p, 'w') as f: f.write(text)]: the directory of [p] has to
    exist and [p] must not be a directory; an existing file is truncated
    and keeps its permission bits. *)
Definition write_file (p text : string) : M unit :=
  c <- file_path_of p ;;
  fun w =>
    if is_dir c w || negb (is_dir (removelast c) w) then Raise OSError w
    else
      let m := match lookup_file c (files w) with
               | Some f => mode f
               | None => default_mode
               end in
      Ret tt (set_files ((c, mkFile text m) :: files w) w).

(** [os.chmod(p, m)]: sets the permission bits of a regular file; the
    bits of a directory are not kept in the world. *)
Definition os_chmod (p : string) (m : nat) : M unit :=
  c <- path_of p ;;
  fun w =>
    match lookup_file c (files w) with
    | Some f =>
        if Py.ends_with "/" p then Raise OSError w
        else Ret tt (set_files ((c, mkFile (content f) m) :: files w) w)
    | None => if is_dir c w then Ret tt w else Raise OSError w
    end.

(** [with open(p, 'r') as f: ...] and reading [f] to its end: the text
    of the file, decoded as UTF-8, the encoding Python takes unless the
    locale names another, and read with universal newlines.  Bytes that
    are no UTF-8 raise [UnicodeDecodeError], a [ValueError]. *)
Definition read_text (p : string) : M string :=
  c <- file_path_of p ;;
  fun w =>
    match lookup_file c (files w) with
    | Some f =>
        if Py.utf8 (content f) then Ret (Py.universal_newlines (content f)) w
        else Raise ValueError w
    | None => Raise OSError w
    end.

(** [while cond(s): s = body(s)], for at most [fuel] iterations. *)
Fixpoint while {S : Type} (fuel : nat) (cond : S -> bool) (body : S -> M S)
    (s : S) : M S :=
  if cond s then
    match fuel with
    | O => fun _ => OutOfFuel
    | Datatypes.S fuel' => s' <- body s ;; while fuel' cond body s'
    end
  else ret s.

(** [for i, x in enumerate(l, start): body(i, x)] *)
Fixpoint for_enumerate {A : Type} (start : nat) (l : list A)
    (body : nat -> A -> M unit) : M unit :=
  match l with
  | [] => ret tt
  | x :: l' => body start x ;; for_enumerate (S start) l' body
  end.

(** ** pairwise_runner.py *)

(** [[line.strip() for line in file]] *)
Definition strip_lines (text : string) : list string :=
  map Py.strip (Py.readlines text).

Definition read_file (file_path : string) : M (list string) :=
  text <- read_text file_path ;;
  ret (strip_lines text).

Definition exclusion_message (node : string) : string :=
  "Odd number of nodes detected, randomly excluding node: " ++ node.

Definition shuffle_and_filter_nodes (nodes : list string) : M (list string) :=
  nodes <- random_shuffle nodes ;;
  if negb (length nodes mod 2 =? 0)%nat then
    random_index <- random_randint 0 (length nodes - 1) ;;
    excluded <- getitem nodes random_index ;;
    print (exclusion_message excluded) ;;
    popped <- or_raise IndexError (Py.list_pop random_index nodes) ;;
    ret (snd popped)
  else ret nodes.

(** [f"{node1},{node2}"] *)
Definition encode_pair (node1 node2 : string) : string :=
  node1 ++ "," ++ node2.

(** [while node1 == node2: node2 = random.choice(nodes)].  Every
    iteration takes a draw, so the loop cannot make more iterations than
    the world has draws. *)
Definition redraw (nodes : list string) (node1 node2 : string) : M string :=
  fun w =>
    while (S (length (draws w)))
      (fun node2 => String.eqb node1 node2)
      (fun _ => random_choice nodes)
      node2 w.

(** One iteration of the loop of [create_pairs], on the remaining nodes
    and the pairs made so far. *)
Definition create_pairs_body (s : list string * list string)
  : M (list string * list string) :=
  let (nodes, pairs) := s in
  node1 <- random_choice nodes ;;
  node2 <- random_choice nodes ;;
  node2 <- redraw nodes node1 node2 ;;
  let pair := encode_pair node1 node2 in
  let pairs := (pairs ++ [pair])%list in
  nodes <- or_raise ValueError (Py.list_remove node1 nodes) ;;
  nodes <- or_raise ValueError (Py.list_remove node2 nodes) ;;
  ret (nodes, pairs).

(** [while len(nodes) > 1: ...].  Every iteration removes two nodes, so
    [len(nodes)] bounds the number of iterations. *)
Definition create_pairs (nodes : list string) : M (list string) :=
  s <- while (length nodes) (fun s => (1 <? length (fst s))%nat)
         create_pairs_body (nodes, []) ;;
  ret (snd s).

(** [unlines] ends every line with a line feed. *)
Definition unlines (ls : list string) : string :=
  fold_right (fun l rest => l ++ String Py.nl rest) EmptyString ls.

Definition quoted (s : string) : string :=
  String Py.dquote (s ++ String Py.dquote EmptyString).

(** [bibw_{omb_name}_{node1}_{node2}], the value of [--job-name]. *)
Definition job_name (omb_name node1 node2 : string) : string :=
  "bibw_" ++ omb_name ++ "_" ++ node1 ++ "_" ++ node2.

(** [log/{i}_{sanitized_omb_name}_{node1}_{node2}_%j.out], the value of
    [--output]. *)
Definition output_log (i : nat) (sanitized_omb_name node1 node2 : string)
  : string :=
  "log/" ++ Py.str i ++ "_" ++ sanitized_omb_name ++ "_" ++ node1 ++ "_"
    ++ node2 ++ "_%j.out".

(** The lines of the f-string of [generate_job_script]. *)
Definition job_script_lines (i : nat) (node1 node2 omb_name mpi_cmd
    sanitized_omb_name : string) : list string :=
  [ "#!/bin/bash";
    "#SBATCH --job-name=" ++ job_name omb_name node1 node2;
    "#SBATCH --reservation=maint";
    "#SBATCH -p htc";
    "#SBATCH -q public";
    "#SBATCH -t 1";
    "#SBATCH --ntasks-per-node=1";
    "#SBATCH --gpus-per-node=1";
    "#SBATCH -N 2";
    "#SBATCH -n 2";
    "#SBATCH -c 1";
    "#SBATCH --nodelist=" ++ node1 ++ "," ++ node2;
    "#SBATCH --output=" ++ output_log i sanitized_omb_name node1 node2;
    "#SBATCH --export=NONE";
    EmptyString;
    "echo " ++ quoted ("Running on nodes " ++ node1 ++ " and " ++ node2
                       ++ " with OMB " ++ omb_name);
    "module load " ++ omb_name;
    mpi_cmd ++ " " ++ quoted "osu_bibw" ].

(** The text of the f-string. *)
Definition job_script (i : nat) (node1 node2 omb_name mpi_cmd
    sanitized_omb_name : string) : string :=
  unlines (job_script_lines i node1 node2 omb_name mpi_cmd sanitized_omb_name).

(** [node1, node2 = pair.split(',')] raises [ValueError] unless the split
    has exactly two fields. *)
Definition unpack_pair (pair : string) : M (string * string) :=
  match Py.split Py.comma pair with
  | [node1; node2] => ret (node1, node2)
  | _ => raise ValueError
  end.

Definition generate_job_script (i : nat) (pair omb_name mpi_cmd
    sanitized_omb_name : string) : M string :=
  nodes <- unpack_pair pair ;;
  let (node1, node2) := nodes in
  ret (job_script i node1 node2 omb_name mpi_cmd sanitized_omb_name).

(** [omb_name.replace('/', '-')] *)
Definition sanitize (omb_name : string) : string :=
  Py.replace Py.slash Py.hyphen omb_name.

(** [f"log/bibw_{i}_{sanitized_omb_name}_{pair.replace(',', '_')}.sh"] *)
Definition script_name (i : nat) (sanitized_omb_name pair : string) : string :=
  "log/bibw_" ++ Py.str i ++ "_" ++ sanitized_omb_name ++ "_"
    ++ Py.replace Py.comma Py.underscore pair ++ ".sh".

Section Main.

(** What running a command as a child process gives in a world: its exit
    status, or nothing when the command cannot be started. *)
Variable child : list string -> world -> option nat.

(** [subprocess.run(argv)]: waits for the child and returns its exit
    status (in a [CompletedProcess]); it raises only when the command
    cannot be started. *)
Definition subprocess_run (argv : list string) : M nat :=
  fun w =>
    match child argv w with
    | Some status => Ret status (set_spawned (spawned w ++ [argv])%list w)
    | None => Raise OSError w
    end.

(** The body of the loop of [main]. *)
Definition main_body (omb_name mpi_cmd sanitized_omb_name : string)
    (i : nat) (pair : string) : M unit :=
  job_script <- generate_job_script i pair omb_name mpi_cmd sanitized_omb_name ;;
  let log_dir := "log" in
  present <- os_path_exists log_dir ;;
  (if negb present then os_makedirs log_dir else ret tt) ;;
  let script_name := script_name i sanitized_omb_name pair in
  write_file script_name job_script ;;
  os_chmod script_name 493 ;;
  subprocess_run ["sbatch"; script_name] ;;
  ret tt.

Definition main (nodelist_file omb_name mpi_cmd : string) : M unit :=
  nodes <- read_file nodelist_file ;;
  shuffled_nodes <- shuffle_and_filter_nodes nodes ;;
  pairs <- create_pairs shuffled_nodes ;;
  let sanitized_omb_name := sanitize omb_name in
  for_enumerate 0 pairs (main_body omb_name mpi_cmd sanitized_omb_name).

End Main.

(** The pairing stage of [main]: [shuffle_and_filter_nodes] followed by
    [create_pairs]. *)
Definition pairing_stage (nodes : list string) : M (list string) :=
  shuffled_nodes <- shuffle_and_filter_nodes nodes ;;
  create_pairs shuffled_nodes.

(** ** Reading a job script the way the scheduler does *)

(** The white space of the ASCII range. *)
Definition is_space (c : ascii) : bool :=
  let n := nat_of_ascii c in
  ((9 <=? n)%nat && (n <=? 13)%nat) || ((28 <=? n)%nat && (n <=? 32)%nat).

(** A line of such white space only, the empty one included. *)
Fixpoint all_space (s : string) : bool :=
  match s with
  | EmptyString => true
  | String c s' => is_space c && all_space s'
  end.

(** The longest prefix of [l] whose elements satisfy [f]. *)
Fixpoint take_while {A : Type} (f : A -> bool) (l : list A) : list A :=
  match l with
  | [] => []
  | x :: l' => if f x then x :: take_while f l' else []
  end.

Definition comment_or_blank (line : string) : bool :=
  String.prefix "#" line || all_space line.

(** The scheduler reads its directives from the comment block that opens
    the script: the [#SBATCH] lines before the first command. *)
Definition sbatch_directives (script : string) : list string :=
  filter (String.prefix "#SBATCH ")
    (take_while comment_or_blank (Py.split Py.nl script)).

(** The value the script gives to an option, for instance
    [directive_value "--nodelist=" script]. *)
Definition directive_value (key script : string) : option string :=
  match filter (String.prefix ("#SBATCH " ++ key)) (sbatch_directives script) with
  | line :: _ => Some (skip (String.length ("#SBATCH " ++ key)) line)
  | [] => None
  end.

(** ** Observations on worlds and outcomes *)

(** The world with more draws to come after those it has. *)
Definition more_draws (w : world) (more : list nat) : world :=
  set_draws (draws w ++ more)%list w.

(** A call that returns or raises the same way in every world, and leaves
    the world as it is. *)
Definition lift_result {A : Type} (r : A + exn) : M A :=
  match r with
  | inl a => ret a
  | inr e => raise e
  end.

(** A text that starts, or ends, with a white-space character. *)
Definition starts_with_space (s : string) : bool :=
  existsb (fun sp => String.prefix sp s) Py.spaces.

Definition ends_with_space (s : string) : bool :=
  existsb (fun sp => Py.ends_with sp s) Py.spaces.

(** A run of white-space characters, the empty one included. *)
Inductive white : string -> Prop :=
| white_nil : white EmptyString
| white_cons sp s : In sp Py.spaces -> white s -> white (sp ++ s).

(** The two members of every pair of a pairing, in order. *)
Definition members (ps : list (string * string)) : list string :=
  flat_map (fun p => [fst p; snd p]) ps.

Definition encode (p : string * string) : string := encode_pair (fst p) (snd p).

(** ** Notions used in the statements *)

(** [s.count(c)] for a character. *)
Fixpoint occurrences (c : ascii) (s : string) : nat :=
  match s with
  | EmptyString => 0
  | String d s' => (if Ascii.eqb d c then 1 else 0) + occurrences c s'
  end.

(** The pieces of a text, put together again. *)
Definition join (ls : list string) : string := fold_right append EmptyString ls.

(** A node list with a blank line between two nodes. *)
Definition blank_line_world : world :=
  mkWorld [] [] [(["nodes.txt"], mkFile (unlines ["n1"; EmptyString; "n2"]) 420)] [] [].

(** A node list with a no-break space after the first node and a line
    of one em space between the two nodes. *)
Definition wide_space_text : string :=
  " n1" ++ Py.bytes [194; 160; 10; 226; 128; 131; 10] ++ "n2".

Definition wide_space_world : world :=
  mkWorld [] [] [(["nodes.txt"], mkFile wide_space_text 420)] [] [].

(** The decimal digits, which are all that [str(i)] is made of. *)
Definition is_digit (c : ascii) : bool :=
  (48 <=? nat_of_ascii c)%nat && (nat_of_ascii c <=? 57)%nat.

Fixpoint all_digits (s : string) : bool :=
  match s with
  | EmptyString => true
  | String c s' => is_digit c && all_digits s'
  end.

(** A string that stays on one line of the script. *)
Definition no_newline (s : string) : Prop := Py.mem Py.nl s = false.

(** The submissions [main] makes for the pairs, from a first index on. *)
Fixpoint submissions (start : nat) (tag : string) (pairs : list string)
  : list (list string) :=
  match pairs with
  | [] => []
  | p :: rest =>
      ["sbatch"; script_name start tag p] :: submissions (S start) tag rest
  end.

(** Two worlds that differ in what the generator will draw, in what was
    printed and in what exists on disk. *)
Definition world_a : world := mkWorld [4; 2] [] [] [] [].
Definition world_b : world :=
  mkWorld [] ["earlier output"] [(["nodes.txt"], mkFile "n1" 420)] [["log"]]
    [["hostname"]].

(** A node list of four nodes, and draws that pair them. *)
Definition world_c : world :=
  mkWorld [0; 1; 2; 5; 3; 1; 0; 1]
    [] [(["nodes.txt"], mkFile (unlines ["n1"; "n2"; "n3"; "n4"]) 420)] [] [].

(** [spec m Q]: in every world [m] neither raises nor exceeds its loop
    bound; when it returns, the value satisfies [Q] and the world has
    changed in its draws only. *)
Definition spec {A : Type} (m : M A) (Q : A -> Prop) : Prop :=
  forall w,
    match m w with
    | Ret a w' => Q a /\ w' = set_draws (draws w') w
    | OutOfDraws => True
    | Raise _ _ | OutOfFuel => False
    end.

(** [stable m]: a run of [m] that returns is not changed by draws that
    come after those it used. *)
Definition stable {A : Type} (m : M A) : Prop :=
  forall w more a w',
    m w = Ret a w' -> m (more_draws w more) = Ret a (more_draws w' more).

(** [can_return m]: whatever the draws so far, there are further draws
    with which [m] returns. *)
Definition can_return {A : Type} (m : M A) : Prop :=
  forall w, exists more a w', m (more_draws w more) = Ret a w'.

(** A pair that is not a node with itself. *)
Definition distinct_members (p : string * string) : Prop := fst p <> snd p.

(** What holds of the remaining nodes and the pairs made so far, for the
    list [nodes0] the loop started from. *)
Definition pairing_of (nodes0 : list string) (s : list string * list string)
  : Prop :=
  exists ps, snd s = map encode ps /\
             Permutation nodes0 (fst s ++ members ps)%list /\
             Forall distinct_members ps.

(** [runs o Q]: the call neither raised nor exceeded its loop bound, and
    if it returned, its value and final world satisfy [Q]. *)
Definition runs {A : Type} (o : outcome A) (Q : A -> world -> Prop) : Prop :=
  match o with
  | Ret a w' => Q a w'
  | OutOfDraws => True
  | Raise _ _ | OutOfFuel => False
  end.

(** ** More notions used in the statements *)

(** A text of lines that end in a carriage return and a line feed. *)
Definition crlf_lines (ls : list string) : string :=
  fold_right (fun l rest => l ++ String Py.cr (String Py.nl rest)) EmptyString ls.

(** A path of plain names from the working directory: it does not start
    at the root and has no [.] or [..] on its way. *)
Definition plain_path (p : string) : Prop :=
  String.prefix "/" p = false /\
  ~ In "." (Py.components p) /\ ~ In ".." (Py.components p).

(** An identifier as a line of a node list holds it: it has no line
    break in it and no white space at its ends. *)
Definition plain (node : string) : Prop :=
  Py.mem Py.nl node = false /\ Py.mem Py.cr node = false /\
  Py.strip node = node.

(** The world a call has left, when it returned or raised. *)
Definition final_world {A : Type} (o : outcome A) : option world :=
  match o with
  | Ret _ w | Raise _ w => Some w
  | OutOfDraws | OutOfFuel => None
  end.

(** A world in which no directory lies in [log]. *)
Definition flat_log (w : world) : Prop :=
  forall d, In d (dirs w) -> hd_error d = Some "log" -> d = ["log"].

(** What a run may do to the files and directories: it keeps every file
    and directory there is, leaves every file that is no entry of [log]
    as it is, and makes no directory but [log]. *)
Definition only_under_log (w w' : world) : Prop :=
  (forall p, (forall name, p <> ["log"; name]) ->
             lookup_file p (files w') = lookup_file p (files w)) /\
  (forall p, is_file p w = true -> is_file p w' = true) /\
  (forall d, In d (dirs w) -> In d (dirs w')) /\
  (forall d, In d (dirs w') -> d = ["log"] \/ In d (dirs w)).

(** A world in which the scripts can be written: [log] is no regular
    file, and there is no directory but, possibly, [log]. *)
Definition fit (w : world) : Prop :=
  is_file ["log"] w = false /\ forall d, In d (dirs w) -> d = ["log"].

(** The system accepts the names of the scripts of the pairs that can
    be made of the nodes. *)
Definition names_accepted (tag : string) (nodes : list string) : Prop :=
  forall k node1 node2,
    k < length nodes -> In node1 nodes -> In node2 nodes ->
    path_error (script_name k tag (encode_pair node1 node2)) = None.

(** A pair that names a script file in [log]. *)
Definition good (pair : string) : Prop :=
  occurrences Py.comma pair = 1 /\ Py.mem Py.slash pair = false.

(** * plot.py: the module a log file belongs to *)

(** ** Regular expressions, as far as the patterns of plot.py go *)

Module Re.

(** One character of a set ([\d], [[a-z]], [.]), literal text, a greedy
    [+] on a set of characters, a greedy optional group [(?:r)?] and
    concatenation.  The matcher goes byte by byte: it is the matcher of
    [re] on ASCII text, where every character is one byte.  On other
    text [re] takes the bytes of a character together, for [.] and for
    the digits [\d] has outside ASCII. *)
Inductive regex : Type :=
| One (p : ascii -> bool)
| Lit (s : string)
| Many (p : ascii -> bool)
| Opt (r : regex)
| Cat (r1 r2 : regex).

(** What a greedy [+] on the set [p] can leave of [s], the longest match
    first: this is the order in which backtracking tries them. *)
Fixpoint many (p : ascii -> bool) (s : string) : list string :=
  match s with
  | EmptyString => []
  | String c s' => if p c then (many p s' ++ [s'])%list else []
  end.

(** What a match of [r] at the start of [s] can leave of [s], in the
    order in which the backtracking matcher finds the matches. *)
Fixpoint matches (r : regex) (s : string) : list string :=
  match r with
  | One p =>
      match s with
      | String c s' => if p c then [s'] else []
      | EmptyString => []
      end
  | Lit l =>
      if String.prefix l s then [skip (String.length l) s] else []
  | Many p => many p s
  | Opt r' => (matches r' s ++ [s])%list
  | Cat r1 r2 => flat_map (matches r2) (matches r1 s)
  end.

(** [re.match(before + '(' + group + ')', s)] and then [.group(1)]: the
    text of the group in the first match found, [None] without a match. *)
Definition group1 (before group : regex) (s : string) : option string :=
  match
    flat_map
      (fun s1 =>
         map (fun s2 => substring 0 (String.length s1 - String.length s2) s1)
           (matches group s1))
      (matches before s)
  with
  | text :: _ => Some text
  | [] => None
  end.

End Re.

(** [[a-zA-Z\-]] *)
Definition letter_or_hyphen (c : ascii) : bool :=
  let n := nat_of_ascii c in
  ((97 <=? n)%nat && (n <=? 122)%nat) || ((65 <=? n)%nat && (n <=? 90)%nat)
  || Ascii.eqb c "-".

(** [[\d\.]] *)
Definition digit_or_dot (c : ascii) : bool := is_digit c || Ascii.eqb c ".".

(** [.], which matches any character but a line feed. *)
Definition not_line_feed (c : ascii) : bool := negb (Ascii.eqb c Py.nl).

(** [\d+_microOSU-], with which both patterns start. *)
Definition log_name_start : Re.regex :=
  Re.Cat (Re.Many is_digit) (Re.Lit "_microOSU-").

(** [-7.4-cuda] *)
Definition cuda_tail : Re.regex :=
  Re.Cat (Re.Lit "-7") (Re.Cat (Re.One not_line_feed) (Re.Lit "4-cuda")).

(** The group of the first pattern, [[a-zA-Z\-]+-[\d\.]+-7.4-cuda]. *)
Definition cuda_module : Re.regex :=
  Re.Cat (Re.Many letter_or_hyphen)
    (Re.Cat (Re.Lit "-") (Re.Cat (Re.Many digit_or_dot) cuda_tail)).

(** The group of the second pattern, [[a-zA-Z\-]+-[\d\.]+(?:-cuda)?]. *)
Definition plain_module : Re.regex :=
  Re.Cat (Re.Many letter_or_hyphen)
    (Re.Cat (Re.Lit "-")
       (Re.Cat (Re.Many digit_or_dot) (Re.Opt (Re.Lit "-cuda")))).

Definition extract_module_info (file_name : string) : option string :=
  match Re.group1 log_name_start cuda_module file_name with
  | Some module => Some module
  | None => Re.group1 log_name_start plain_module file_name
  end.

(** A string made of characters of a set. *)
Fixpoint all_in (p : ascii -> bool) (s : string) : bool :=
  match s with
  | EmptyString => true
  | String c s' => p c && all_in p s'
  end.

(** The characters of ASCII: those of one byte below 128. *)
Definition is_ascii (c : ascii) : bool := (nat_of_ascii c <? 128)%nat.


(** Whether [s] starts with a character of the set [p]. *)
Definition starts_in (p : ascii -> bool) (s : string) : bool :=
  match s with
  | String c _ => p c
  | EmptyString => false
  end.

(** Whether [s] starts with [-7], any character but a line feed, and
    [4-cuda]. *)
Definition starts_cuda_tail (s : string) : bool :=
  String.prefix "-7" s
  && match skip 2 s with
     | String x rest => not_line_feed x && String.prefix "4-cuda" rest
     | EmptyString => false
     end.

(** What a module name takes of the text [s] that follows its version. *)
Definition module_suffix (s : string) : string :=
  if starts_cuda_tail s then substring 0 9 s
  else if String.prefix "-cuda" s then "-cuda"
  else "".

(** * Facts about the string primitives *)

Section StringFacts.

Lemma append_assoc (a b c : string) : (a ++ b) ++ c = a ++ b ++ c.
Proof. induction a as [|d a IH]; simpl; [reflexivity | now rewrite IH]. Qed.

Lemma append_empty s : s ++ "" = s.
Proof. induction s as [|c s IH]; simpl; [reflexivity | now rewrite IH]. Qed.

Lemma string_length_app a b :
  String.length (a ++ b) = String.length a + String.length b.
Proof. induction a as [|c a IH]; simpl; [reflexivity | now rewrite IH]. Qed.

Lemma prefix_empty s : String.prefix EmptyString s = true.
Proof. now destruct s. Qed.

Lemma skip_prefix p s : skip (String.length p) (p ++ s) = s.
Proof. induction p as [|c p IH]; simpl; [now destruct s | exact IH]. Qed.

Lemma prefix_skip l s :
  String.prefix l s = true -> s = l ++ skip (String.length l) s.
Proof.
  revert s. induction l as [|c l IH]; intros s; [now destruct s|].
  destruct s as [|d s]; [discriminate|]. cbn [String.prefix].
  destruct (ascii_dec c d) as [<-|_]; [|discriminate].
  intros H. cbn [append String.length skip]. f_equal. now apply IH.
Qed.

Lemma substring_app a b : substring 0 (String.length a) (a ++ b) = a.
Proof.
  induction a as [|c a IH]; simpl; [now destruct b | now rewrite IH].
Qed.

Lemma substring_skip n s : s = substring 0 n s ++ skip n s.
Proof.
  revert s. induction n as [|n IH]; intros [|c s]; try reflexivity.
  cbn [substring skip append]. f_equal. apply IH.
Qed.

Lemma skip_length n s : String.length (skip n s) = String.length s - n.
Proof.
  revert s. induction n as [|n IH]; intros [|c s]; simpl; try lia. apply IH.
Qed.

Lemma substring_length n s :
  n <= String.length s -> String.length (substring 0 n s) = n.
Proof.
  revert s. induction n as [|n IH]; intros [|c s]; simpl; try lia.
  intros H. rewrite IH; lia.
Qed.

(** A prefix of [u ++ v] is a prefix of [u], or goes on into [v]. *)
Lemma prefix_split sp u v :
  String.prefix sp (u ++ v) = true ->
  String.prefix sp u = true \/
  exists sp2, sp = u ++ sp2 /\ sp2 <> "" /\ String.prefix sp2 v = true.
Proof.
  revert sp. induction u as [|c u IH]; intros sp H.
  - destruct sp as [|a sp]; [left; reflexivity|].
    right. exists (String a sp). repeat split; [discriminate | exact H].
  - destruct sp as [|a sp]; [left; reflexivity|].
    cbn [append String.prefix] in H |- *.
    destruct (ascii_dec a c) as [->|_]; [|discriminate].
    destruct (IH sp H) as [Hp | (sp2 & -> & Hn & Hp)]; [now left|].
    right. now exists sp2.
Qed.

Lemma prefix_app_l sp r b :
  String.prefix sp r = true -> String.prefix sp (r ++ b) = true.
Proof.
  revert r. induction sp as [|a sp IH]; intros r H; [apply prefix_empty|].
  destruct r as [|c r]; [discriminate|].
  cbn [append String.prefix] in H |- *.
  destruct (ascii_dec a c); [now apply IH | discriminate].
Qed.

Lemma mem_app c a b : Py.mem c (a ++ b) = Py.mem c a || Py.mem c b.
Proof.
  induction a as [|d a IH]; simpl; [reflexivity|].
  rewrite IH. now rewrite orb_assoc.
Qed.

(** A field without the separator is split off whole. *)
Lemma split_field sep a b :
  Py.mem sep a = false ->
  Py.split sep (a ++ String sep b) = a :: Py.split sep b.
Proof.
  induction a as [|c a IH]; simpl; intros H.
  - now rewrite Ascii.eqb_refl.
  - apply orb_false_iff in H as [Hc Ha].
    rewrite Hc, (IH Ha). reflexivity.
Qed.

Lemma split_last sep a : Py.mem sep a = false -> Py.split sep a = [a].
Proof.
  induction a as [|c a IH]; simpl; intros H; [reflexivity|].
  apply orb_false_iff in H as [Hc Ha].
  rewrite Hc, (IH Ha). reflexivity.
Qed.

Lemma split_nonempty sep s : Py.split sep s <> [].
Proof.
  destruct s as [|c s]; simpl; [discriminate|].
  destruct (Ascii.eqb c sep); [discriminate|].
  destruct (Py.split sep s); discriminate.
Qed.

Lemma prefix_app s b : String.prefix s (s ++ b) = true.
Proof.
  induction s as [|c s IH]; simpl.
  - now destruct b.
  - destruct (ascii_dec c c) as [_|N]; [exact IH | now elim N].
Qed.

Lemma contains_prefix sub s : String.prefix sub s = true -> Py.contains sub s = true.
Proof. intros H. destruct s; simpl in *; now rewrite H. Qed.

Lemma contains_app sub a b : Py.contains sub (a ++ sub ++ b) = true.
Proof.
  induction a as [|c a IH]; simpl.
  - apply contains_prefix, prefix_app.
  - rewrite IH. apply orb_true_r.
Qed.

Lemma replace_removes old new s :
  old <> new -> Py.mem old (Py.replace old new s) = false.
Proof.
  intros Hne. induction s as [|c s IH]; simpl; [reflexivity|].
  rewrite IH, orb_false_r.
  destruct (Ascii.eqb_spec c old) as [->|Hc].
  - apply Ascii.eqb_neq. congruence.
  - now apply Ascii.eqb_neq.
Qed.

Lemma replace_absent old new s :
  Py.mem old s = false -> Py.replace old new s = s.
Proof.
  induction s as [|c s IH]; simpl; intros H; [reflexivity|].
  apply orb_false_iff in H as [Hc Hs]. now rewrite Hc, IH.
Qed.

Lemma skip_app a n b : skip (String.length a + n) (a ++ b) = skip n b.
Proof. induction a as [|c a IH]; simpl; [reflexivity | exact IH]. Qed.

(** Whether a text ends with [sp] shows in any part of it that ends it
    and is as long as [sp]. *)
Lemma ends_with_app sp a b :
  String.length sp <= String.length b ->
  Py.ends_with sp (a ++ b) = Py.ends_with sp b.
Proof.
  intros H. unfold Py.ends_with. rewrite string_length_app.
  replace (String.length a + String.length b - String.length sp)
    with (String.length a + (String.length b - String.length sp)) by lia.
  rewrite skip_app. f_equal.
  rewrite (proj2 (Nat.leb_le _ _) H). apply Nat.leb_le. lia.
Qed.

(** The name of a script ends with [.sh], so it is the name of a
    file. *)
Lemma script_name_file i tag pair :
  file_error (script_name i tag pair) = path_error (script_name i tag pair).
Proof.
  unfold file_error. destruct (path_error _); [reflexivity|].
  unfold script_name. rewrite <- !append_assoc.
  now rewrite ends_with_app by (simpl; lia).
Qed.

End StringFacts.

(** * The pair encoding *)

Section PairEncoding.

Lemma occurrences_app c a b :
  occurrences c (a ++ b) = occurrences c a + occurrences c b.
Proof. induction a as [|d a IH]; simpl; [reflexivity|]. rewrite IH. lia. Qed.

Lemma occurrences_mem c s : Py.mem c s = true -> 0 < occurrences c s.
Proof.
  induction s as [|d s IH]; simpl; [discriminate|].
  destruct (Ascii.eqb d c); simpl; [lia | exact IH].
Qed.

(** [k] separators give [k + 1] fields. *)
Lemma split_length sep s : length (Py.split sep s) = S (occurrences sep s).
Proof.
  induction s as [|c s IH]; simpl; [reflexivity|].
  destruct (Ascii.eqb c sep); simpl; [now rewrite IH|].
  destruct (Py.split sep s); simpl in *; [discriminate | exact IH].
Qed.

Lemma split_encode_pair node1 node2 :
  Py.mem Py.comma node1 = false -> Py.mem Py.comma node2 = false ->
  Py.split Py.comma (encode_pair node1 node2) = [node1; node2].
Proof.
  intros H1 H2. unfold encode_pair.
  change ("," ++ node2) with (String Py.comma node2).
  now rewrite (split_field _ _ _ H1), (split_last _ _ H2).
Qed.

Lemma unpack_encode_pair node1 node2 w :
  Py.mem Py.comma node1 = false -> Py.mem Py.comma node2 = false ->
  unpack_pair (encode_pair node1 node2) w = Ret (node1, node2) w.
Proof.
  intros H1 H2. unfold unpack_pair. now rewrite split_encode_pair.
Qed.

Lemma unpack_comma node1 node2 w :
  Py.mem Py.comma node1 = true \/ Py.mem Py.comma node2 = true ->
  unpack_pair (encode_pair node1 node2) w = Raise ValueError w.
Proof.
  intros H. unfold unpack_pair.
  assert (L : 3 <= length (Py.split Py.comma (encode_pair node1 node2))).
  { rewrite split_length. unfold encode_pair.
    rewrite occurrences_app. simpl.
    destruct H as [H|H]; apply occurrences_mem in H; lia. }
  destruct (Py.split Py.comma (encode_pair node1 node2)) as [|a [|b [|c l]]];
    simpl in L; try lia; reflexivity.
Qed.

Lemma generate_job_script_encoded i node1 node2 omb_name mpi_cmd tag w :
  Py.mem Py.comma node1 = false -> Py.mem Py.comma node2 = false ->
  generate_job_script i (encode_pair node1 node2) omb_name mpi_cmd tag w
  = Ret (job_script i node1 node2 omb_name mpi_cmd tag) w.
Proof.
  intros H1 H2. unfold generate_job_script, bind.
  now rewrite unpack_encode_pair.
Qed.

End PairEncoding.

(** C10.  Encoding two identifiers without a comma as [node1,node2] and
    splitting on commas gives back exactly the two identifiers, so
    [generate_job_script] renders the script of these two nodes; when an
    identifier contains a comma the split has more than two fields and the
    unpacking raises [ValueError], for instance for [a,b] paired with [c]. *)
Theorem pair_roundtrip :
  (forall node1 node2,
      Py.mem Py.comma node1 = false -> Py.mem Py.comma node2 = false ->
      Py.split Py.comma (encode_pair node1 node2) = [node1; node2] /\
      forall i omb_name mpi_cmd tag w,
        generate_job_script i (encode_pair node1 node2) omb_name mpi_cmd tag w
        = Ret (job_script i node1 node2 omb_name mpi_cmd tag) w) /\
  (forall node1 node2,
      Py.mem Py.comma node1 = true \/ Py.mem Py.comma node2 = true ->
      forall i omb_name mpi_cmd tag w,
        generate_job_script i (encode_pair node1 node2) omb_name mpi_cmd tag w
        = Raise ValueError w) /\
  (forall i omb_name mpi_cmd tag w,
      generate_job_script i (encode_pair "a,b" "c") omb_name mpi_cmd tag w
      = Raise ValueError w).
Proof.
  split; [|split].
  - intros node1 node2 H1 H2. split.
    + now apply split_encode_pair.
    + intros. now apply generate_job_script_encoded.
  - intros node1 node2 H i omb_name mpi_cmd tag w.
    unfold generate_job_script, bind. now rewrite unpack_comma.
  - reflexivity.
Qed.

Lemma pair_roundtrip_witness :
  Py.split Py.comma (encode_pair "n1" "n2") = ["n1"; "n2"].
Proof.
  apply (proj1 pair_roundtrip "n1" "n2"); reflexivity.
Defined.

(** * Reading the node list *)

Section ReadFile.

Lemma spaces_nonempty sp : In sp Py.spaces -> sp <> "".
Proof.
  intros H ->. vm_compute in H.
  repeat (destruct H as [H|H]; [discriminate H|]). exact H.
Qed.

(** No white-space character is the start of another one. *)
Lemma leading_space_app sp x :
  In sp Py.spaces -> Py.leading_space (sp ++ x) = Some sp.
Proof.
  intros H. vm_compute in H.
  repeat (destruct H as [<-|H]; [destruct x; reflexivity|]). destruct H.
Qed.

(** The bytes of a white-space character after its first one are
    continuation bytes, and its first one is none. *)
Lemma space_bytes sp :
  In sp Py.spaces ->
  exists a rest, sp = String a rest /\ Py.continuation a = false
                 /\ all_in Py.continuation rest = true.
Proof.
  intros H. vm_compute in H.
  repeat (destruct H as [<-|H]; [eexists _, _; repeat split|]). destruct H.
Qed.

Lemma leading_space_some s sp :
  Py.leading_space s = Some sp ->
  In sp Py.spaces /\ s = sp ++ skip (String.length sp) s.
Proof.
  intros H. apply find_some in H as [Hin Hp]. split; [exact Hin|].
  now apply prefix_skip.
Qed.

Lemma leading_space_none s :
  Py.leading_space s = None <-> starts_with_space s = false.
Proof.
  unfold Py.leading_space, starts_with_space. generalize Py.spaces.
  induction l as [|sp l IH]; simpl; [tauto|].
  destruct (String.prefix sp s); simpl; [split; discriminate | exact IH].
Qed.

Lemma white_one sp : In sp Py.spaces -> white sp.
Proof. intros H. rewrite <- (append_empty sp). now constructor; [|constructor]. Qed.

Lemma white_app a b : white a -> white b -> white (a ++ b).
Proof.
  induction 1 as [|sp s Hsp Hs IH]; intros Hb; [exact Hb|].
  rewrite append_assoc. constructor; auto.
Qed.

Lemma lstrip_fuel_spec fuel s :
  String.length s <= fuel ->
  exists a, white a /\ s = a ++ Py.lstrip_fuel fuel s /\
            starts_with_space (Py.lstrip_fuel fuel s) = false.
Proof.
  revert s. induction fuel as [|fuel IH]; intros s Hs.
  - destruct s; [|simpl in Hs; lia]. exists "". repeat split. constructor.
  - cbn [Py.lstrip_fuel]. destruct (Py.leading_space s) as [sp|] eqn:E.
    + apply leading_space_some in E as [Hin E].
      pose proof (spaces_nonempty sp Hin) as Hn.
      destruct (IH (skip (String.length sp) s)) as (a & Ha & Hs' & Hst).
      { rewrite skip_length. destruct sp; [now elim Hn|]. simpl. lia. }
      exists (sp ++ a). split; [now apply white_app; [apply white_one|]|].
      split; [|exact Hst]. rewrite append_assoc, <- Hs'. exact E.
    + exists "". split; [constructor|]. split; [reflexivity|].
      now apply leading_space_none.
Qed.

Lemma lstrip_spec s :
  exists a, white a /\ s = a ++ Py.lstrip s /\
            starts_with_space (Py.lstrip s) = false.
Proof. now apply lstrip_fuel_spec. Qed.

Lemma ends_with_split sp s :
  Py.ends_with sp s = true ->
  s = substring 0 (String.length s - String.length sp) s ++ sp.
Proof.
  unfold Py.ends_with. intros [Hl He]%andb_true_iff.
  apply String.eqb_eq in He.
  pose proof (substring_skip (String.length s - String.length sp) s) as E.
  now rewrite He in E.
Qed.

Lemma trailing_space_some s sp :
  Py.trailing_space s = Some sp ->
  In sp Py.spaces /\
  s = substring 0 (String.length s - String.length sp) s ++ sp.
Proof.
  intros H. apply find_some in H as [Hin Hp]. split; [exact Hin|].
  now apply ends_with_split.
Qed.

Lemma trailing_space_none s :
  Py.trailing_space s = None <-> ends_with_space s = false.
Proof.
  unfold Py.trailing_space, ends_with_space. generalize Py.spaces.
  induction l as [|sp l IH]; simpl; [tauto|].
  destruct (Py.ends_with sp s); simpl; [split; discriminate | exact IH].
Qed.

Lemma rstrip_fuel_spec fuel s :
  String.length s <= fuel ->
  exists b, white b /\ s = Py.rstrip_fuel fuel s ++ b /\
            ends_with_space (Py.rstrip_fuel fuel s) = false.
Proof.
  revert s. induction fuel as [|fuel IH]; intros s Hs.
  - destruct s; [|simpl in Hs; lia]. exists "". repeat split. constructor.
  - cbn [Py.rstrip_fuel]. destruct (Py.trailing_space s) as [sp|] eqn:E.
    + apply trailing_space_some in E as [Hin E].
      pose proof (spaces_nonempty sp Hin) as Hn.
      set (pre := substring 0 (String.length s - String.length sp) s) in *.
      assert (Hl : String.length s = String.length pre + String.length sp)
        by (rewrite E at 1; apply string_length_app).
      destruct (IH pre) as (b & Hb & Hpre & Hen).
      { destruct sp; [now elim Hn|]. simpl in Hl. lia. }
      exists (b ++ sp). split; [now apply white_app; [|apply white_one]|].
      split; [|exact Hen]. rewrite <- append_assoc, <- Hpre. exact E.
    + exists "". split; [constructor|]. split; [now rewrite append_empty|].
      now apply trailing_space_none.
Qed.

Lemma rstrip_spec s :
  exists b, white b /\ s = Py.rstrip s ++ b /\
            ends_with_space (Py.rstrip s) = false.
Proof. now apply rstrip_fuel_spec. Qed.

Lemma starts_with_space_prefix r b :
  starts_with_space (r ++ b) = false -> starts_with_space r = false.
Proof.
  unfold starts_with_space. intros H.
  destruct (existsb _ _) eqn:E in |- *; [|reflexivity].
  apply existsb_exists in E as (sp & Hin & Hp).
  rewrite <- H. symmetry. apply existsb_exists. exists sp.
  split; [exact Hin | now apply prefix_app_l].
Qed.

Lemma strip_spec s :
  exists a b, white a /\ white b /\
              s = a ++ Py.strip s ++ b /\
              starts_with_space (Py.strip s) = false /\
              ends_with_space (Py.strip s) = false.
Proof.
  destruct (lstrip_spec s) as (a & Ha & Hs & Hn).
  destruct (rstrip_spec (Py.lstrip s)) as (b & Hb & Hl & He).
  exists a, b. unfold Py.strip. repeat split; try assumption.
  - now rewrite <- Hl.
  - rewrite Hl in Hn. now apply starts_with_space_prefix in Hn.
Qed.

Lemma lstrip_fuel_white s :
  white s -> forall fuel, String.length s <= fuel -> Py.lstrip_fuel fuel s = "".
Proof.
  induction 1 as [|sp s Hsp Hs IH]; intros fuel Hf.
  - now destruct fuel.
  - pose proof (spaces_nonempty sp Hsp) as Hn.
    rewrite string_length_app in Hf.
    destruct fuel as [|fuel]; [destruct sp; [now elim Hn | simpl in Hf; lia]|].
    cbn [Py.lstrip_fuel]. rewrite leading_space_app, skip_prefix by assumption.
    apply IH. destruct sp; [now elim Hn | simpl in Hf; lia].
Qed.

Lemma strip_empty s : Py.strip s = "" <-> white s.
Proof.
  split.
  - intros E. destruct (strip_spec s) as (a & b & Ha & Hb & Hs & _).
    rewrite Hs, E. now apply white_app.
  - intros H. unfold Py.strip, Py.lstrip.
    now rewrite (lstrip_fuel_white s H).
Qed.

Lemma all_in_app p a b : all_in p (a ++ b) = all_in p a && all_in p b.
Proof.
  induction a as [|c a IH]; simpl; [reflexivity | now rewrite IH, andb_assoc].
Qed.

Lemma lstrip_fuel_any f1 f2 s :
  String.length s <= f1 -> String.length s <= f2 ->
  Py.lstrip_fuel f1 s = Py.lstrip_fuel f2 s.
Proof.
  revert f2 s. induction f1 as [|f1 IH]; intros f2 s H1 H2.
  - destruct s; [now destruct f2 | simpl in H1; lia].
  - destruct f2 as [|f2]; [destruct s; [reflexivity | simpl in H2; lia]|].
    cbn [Py.lstrip_fuel]. destruct (Py.leading_space s) as [sp|] eqn:E;
      [|reflexivity].
    apply leading_space_some in E as [Hin E].
    pose proof (spaces_nonempty sp Hin) as Hne.
    assert (String.length (skip (String.length sp) s) < String.length s).
    { rewrite skip_length. destruct sp; [now elim Hne|].
      rewrite E, string_length_app. simpl. lia. }
    apply IH; lia.
Qed.

Lemma lstrip_fuel_enough fuel s :
  String.length s <= fuel -> Py.lstrip_fuel fuel s = Py.lstrip s.
Proof. intros H. now apply lstrip_fuel_any. Qed.

Lemma lstrip_white_app a y : white a -> Py.lstrip (a ++ y) = Py.lstrip y.
Proof.
  induction 1 as [|sp s Hsp Hs IH]; [reflexivity|].
  pose proof (spaces_nonempty sp Hsp) as Hne.
  rewrite append_assoc. unfold Py.lstrip at 1. rewrite string_length_app.
  destruct sp as [|c sp]; [now elim Hne|].
  cbn [String.length Nat.add Py.lstrip_fuel].
  rewrite leading_space_app, skip_prefix by assumption.
  rewrite lstrip_fuel_enough; [exact IH | lia].
Qed.

Lemma lstrip_none s : starts_with_space s = false -> Py.lstrip s = s.
Proof.
  intros H. apply leading_space_none in H. unfold Py.lstrip.
  destruct (String.length s); cbn [Py.lstrip_fuel]; [reflexivity|].
  now rewrite H.
Qed.

(** A white-space character does not start in a text and end in a text
    that follows it, when that one starts with no continuation byte. *)
Lemma starts_with_space_app t c x :
  t <> "" -> Py.continuation c = false ->
  starts_with_space t = false -> starts_with_space (t ++ String c x) = false.
Proof.
  intros Ht Hc H.
  destruct (starts_with_space (t ++ String c x)) eqn:E; [|reflexivity].
  apply existsb_exists in E as (sp & Hin & Hp).
  apply prefix_split in Hp as [Hp | (sp2 & -> & Hn & Hp)].
  - rewrite <- H. symmetry. apply existsb_exists. now exists sp.
  - destruct (space_bytes _ Hin) as (a & rest & E & _ & Hr).
    destruct t as [|b t]; [now elim Ht|]. injection E as _ <-.
    destruct sp2 as [|d sp2]; [now elim Hn|].
    cbn [String.prefix] in Hp.
    destruct (ascii_dec d c) as [->|_]; [|discriminate].
    rewrite all_in_app in Hr. apply andb_true_iff in Hr as [_ Hr].
    simpl in Hr. rewrite Hc in Hr. discriminate.
Qed.

Lemma rstrip_fuel_any f1 f2 s :
  String.length s <= f1 -> String.length s <= f2 ->
  Py.rstrip_fuel f1 s = Py.rstrip_fuel f2 s.
Proof.
  revert f2 s. induction f1 as [|f1 IH]; intros f2 s H1 H2.
  - destruct s; [now destruct f2 | simpl in H1; lia].
  - destruct f2 as [|f2]; [destruct s; [reflexivity | simpl in H2; lia]|].
    cbn [Py.rstrip_fuel]. destruct (Py.trailing_space s) as [sp|] eqn:E;
      [|reflexivity].
    apply trailing_space_some in E as [Hin E].
    pose proof (spaces_nonempty sp Hin) as Hne.
    set (pre := substring 0 (String.length s - String.length sp) s) in *.
    assert (Hl : String.length s = String.length pre + String.length sp)
      by (rewrite E at 1; apply string_length_app).
    destruct sp; [now elim Hne|]. simpl in Hl. apply IH; lia.
Qed.

Lemma rstrip_fuel_enough fuel s :
  String.length s <= fuel -> Py.rstrip_fuel fuel s = Py.rstrip s.
Proof. intros H. now apply rstrip_fuel_any. Qed.

Lemma rstrip_line_feed s : Py.rstrip (s ++ String Py.nl "") = Py.rstrip s.
Proof.
  unfold Py.rstrip at 1. rewrite string_length_app. cbn [String.length].
  replace (String.length s + 1) with (S (String.length s)) by lia.
  cbn [Py.rstrip_fuel].
  assert (E : Py.trailing_space (s ++ String Py.nl "") = Some (String Py.nl "")).
  { unfold Py.trailing_space, Py.spaces. cbn [map app find Py.bytes fold_right].
    unfold Py.ends_with. rewrite string_length_app. cbn [String.length].
    replace (String.length s + 1 - 1) with (String.length s) by lia.
    rewrite skip_prefix.
    replace (1 <=? String.length s + 1)%nat with true
      by (symmetry; apply Nat.leb_le; lia).
    reflexivity. }
  rewrite E, string_length_app. cbn [String.length].
  replace (String.length s + 1 - 1) with (String.length s) by lia.
  rewrite substring_app. now apply rstrip_fuel_enough.
Qed.

(** The line feed that ends a line goes with the white space before
    it. *)
Lemma strip_line_feed s : Py.strip (s ++ String Py.nl "") = Py.strip s.
Proof.
  unfold Py.strip.
  destruct (lstrip_spec s) as (a & Ha & Hs & Hn).
  rewrite Hs at 1. rewrite append_assoc, lstrip_white_app by assumption.
  destruct (Py.lstrip s) as [|c t] eqn:E.
  - reflexivity.
  - rewrite lstrip_none; [apply rstrip_line_feed|].
    now apply starts_with_space_app.
Qed.

Lemma strip_plain s :
  starts_with_space s = false -> ends_with_space s = false -> Py.strip s = s.
Proof.
  intros Hs He. unfold Py.strip. rewrite lstrip_none by assumption.
  apply trailing_space_none in He. unfold Py.rstrip.
  destruct (String.length s); cbn [Py.rstrip_fuel]; [reflexivity|].
  now rewrite He.
Qed.

(** The lines of a text are its consecutive pieces. *)
Lemma readlines_join text : join (Py.readlines text) = text.
Proof.
  induction text as [|c s IH]; simpl; [reflexivity|].
  destruct (Ascii.eqb_spec c Py.nl) as [->|Hc].
  - simpl. now rewrite IH.
  - destruct (Py.readlines s) as [|l ls]; simpl in *; now rewrite <- IH.
Qed.

Lemma readlines_nonempty text : Forall (fun l => l <> EmptyString) (Py.readlines text).
Proof.
  induction text as [|c s IH]; simpl; [constructor|].
  destruct (Ascii.eqb c Py.nl).
  - constructor; [discriminate | exact IH].
  - destruct (Py.readlines s) as [|l ls].
    + constructor; [discriminate | constructor].
    + inversion IH; subst. constructor; [discriminate | assumption].
Qed.

(** A line holds no line feed except, possibly, as its last character. *)
Lemma readlines_line_feed text :
  Forall (fun l => exists body,
              Py.mem Py.nl body = false /\
              (l = body \/ l = body ++ String Py.nl EmptyString))
    (Py.readlines text).
Proof.
  induction text as [|c s IH]; simpl; [constructor|].
  destruct (Ascii.eqb c Py.nl) eqn:Hc.
  - constructor; [|exact IH]. exists EmptyString. split; [reflexivity | now right].
  - destruct (Py.readlines s) as [|l ls].
    + constructor; [|constructor].
      exists (String c EmptyString). simpl. rewrite Hc. split; [reflexivity | now left].
    + inversion IH as [|? ? (body & Hb & Hl) Hls]; subst.
      constructor; [|exact Hls].
      exists (String c body). simpl. rewrite Hc, Hb. split; [reflexivity|].
      destruct Hl as [->| ->]; [now left | now right].
Qed.

Lemma mem_strip c s : Py.mem c s = false -> Py.mem c (Py.strip s) = false.
Proof.
  intros H. destruct (strip_spec s) as (a & b & _ & _ & Hs & _).
  rewrite Hs, !mem_app in H.
  now apply orb_false_iff in H as [_ [H _]%orb_false_iff].
Qed.

(** No node read from a file holds a line feed. *)
Lemma strip_lines_one_line text :
  Forall (fun node => Py.mem Py.nl node = false) (strip_lines text).
Proof.
  unfold strip_lines. apply Forall_map.
  eapply Forall_impl; [|apply readlines_line_feed].
  intros l (body & Hb & [->| ->]).
  - now apply mem_strip.
  - rewrite strip_line_feed. now apply mem_strip.
Qed.

Lemma file_path_of_run p w :
  file_error p = None -> file_path_of p w = Ret (Py.components p) w.
Proof. intros H. unfold file_path_of. now rewrite H. Qed.

Lemma read_file_run p w f :
  file_error p = None ->
  lookup_file (Py.components p) (files w) = Some f ->
  Py.utf8 (content f) = true ->
  read_file p w = Ret (strip_lines (Py.universal_newlines (content f))) w.
Proof.
  intros Hp H Hu. unfold read_file, read_text, bind.
  now rewrite file_path_of_run, H, Hu.
Qed.

(** [read_file] changes nothing, and raises nothing but [ValueError] and
    [OSError]. *)
Lemma read_file_frame p w :
  match read_file p w with
  | Ret _ w' => w' = w
  | Raise e w' => w' = w /\ (e = ValueError \/ e = OSError)
  | _ => False
  end.
Proof.
  unfold read_file, read_text, bind, file_path_of, file_error, path_error.
  destruct (Py.mem Py.nul p); [auto|].
  destruct (_ && _); [|auto].
  destruct (Py.ends_with "/" p); [auto|].
  destruct (lookup_file _ _) as [f|]; [|auto].
  destruct (Py.utf8 (content f)); cbn; auto.
Qed.

End ReadFile.

(** C3, as stated, fails: a blank line of the file comes back as an empty
    string among the nodes. *)
Lemma read_file_blank_line :
  read_file "nodes.txt" blank_line_world
  = Ret ["n1"; EmptyString; "n2"] blank_line_world /\
  In EmptyString ["n1"; EmptyString; "n2"].
Proof. split; [reflexivity | simpl; auto]. Qed.

(** C3, amended.  A file is readable when the system accepts its path
    name as the name of a file, the file is there, and its bytes decode
    as UTF-8; on bytes that do not, [read_file] raises [ValueError].  For
    a readable file [read_file] returns one string per line of the file,
    in file order; each is its line without the white space at both
    ends, so it neither starts nor ends with a white-space character.
    Nothing is filtered: a line of white space only, and no other line,
    gives the empty string. *)
Theorem read_file_strips_each_line p w f :
  file_error p = None ->
  lookup_file (Py.components p) (files w) = Some f ->
  (Py.utf8 (content f) = false -> read_file p w = Raise ValueError w) /\
  (Py.utf8 (content f) = true ->
   let lines := Py.readlines (Py.universal_newlines (content f)) in
   read_file p w = Ret (map Py.strip lines) w /\
   join lines = Py.universal_newlines (content f) /\
   length (map Py.strip lines) = length lines /\
   forall k line, nth_error lines k = Some line ->
     nth_error (map Py.strip lines) k = Some (Py.strip line) /\
     (exists a b, white a /\ white b /\ line = a ++ Py.strip line ++ b) /\
     starts_with_space (Py.strip line) = false /\
     ends_with_space (Py.strip line) = false /\
     (Py.strip line = EmptyString <-> white line)).
Proof.
  intros Hp H. split.
  - intros Hu. unfold read_file, read_text, bind.
    now rewrite file_path_of_run, H, Hu.
  - intros Hu lines. split; [now apply read_file_run|].
    split; [apply readlines_join|]. split; [apply length_map|].
    intros k line Hk. split; [now rewrite nth_error_map, Hk|].
    destruct (strip_spec line) as (a & b & Ha & Hb & Hs & Hn & He).
    repeat split; try assumption.
    + now exists a, b.
    + apply strip_empty.
    + apply strip_empty.
Qed.

Lemma read_file_strips_each_line_witness :
  read_file "nodes.txt" wide_space_world
  = Ret ["n1"; EmptyString; "n2"] wide_space_world.
Proof.
  apply (read_file_strips_each_line "nodes.txt" wide_space_world
           (mkFile wide_space_text 420)); reflexivity.
Defined.

(** * Names derived from the sequence index *)

Section Names.

Lemma str_digits i : all_digits (Py.str i) = true.
Proof.
  unfold Py.str. induction (Nat.to_uint i); simpl; auto.
Qed.

Lemma str_inj i j : Py.str i = Py.str j -> i = j.
Proof.
  unfold Py.str. intros H. apply Unsigned.to_uint_inj.
  apply (f_equal NilEmpty.uint_of_string) in H.
  rewrite !NilEmpty.usu in H. congruence.
Qed.

Lemma digits_mem c s : is_digit c = false -> all_digits s = true -> Py.mem c s = false.
Proof.
  intros Hc. induction s as [|d s IH]; simpl; [reflexivity|].
  intros [Hd Hs]%andb_true_iff. rewrite (IH Hs), orb_false_r.
  apply Ascii.eqb_neq. intros ->. congruence.
Qed.

(** Two digit strings followed by the same non-digit are equal when
    what they start is equal. *)
Lemma digits_delimited c a b x y :
  is_digit c = false -> all_digits a = true -> all_digits b = true ->
  a ++ String c x = b ++ String c y -> a = b.
Proof.
  intros Hc. revert b. induction a as [|d a IH]; intros [|e b]; simpl.
  - reflexivity.
  - intros _ [He _]%andb_true_iff [= <- _]. congruence.
  - intros [Hd _]%andb_true_iff _ [= -> _]. congruence.
  - intros [_ Ha]%andb_true_iff [_ Hb]%andb_true_iff [= -> E].
    f_equal. now apply IH.
Qed.

Lemma append_cancel p a b : p ++ a = p ++ b -> a = b.
Proof. induction p as [|c p IH]; simpl; [auto | intros [= E]; auto]. Qed.

Lemma script_name_index i j tag_i tag_j pair_i pair_j :
  script_name i tag_i pair_i = script_name j tag_j pair_j -> i = j.
Proof.
  unfold script_name. intros E. apply str_inj.
  apply append_cancel in E.
  revert E. apply (digits_delimited "_"); auto using str_digits.
Qed.

Lemma output_log_index i j tag_i tag_j n1 n2 m1 m2 :
  output_log i tag_i n1 n2 = output_log j tag_j m1 m2 -> i = j.
Proof.
  unfold output_log. intros E. apply str_inj.
  apply append_cancel in E.
  revert E. apply (digits_delimited "_"); auto using str_digits.
Qed.

(** The first field of a split takes in what comes before it without a
    separator. *)
Lemma split_head sep a b :
  Py.mem sep a = false ->
  exists f fs, Py.split sep b = f :: fs /\ Py.split sep (a ++ b) = (a ++ f) :: fs.
Proof.
  intros Ha. induction a as [|c a IH]; simpl in *.
  - destruct (Py.split sep b) as [|f fs] eqn:E; [now apply split_nonempty in E|].
    now exists f, fs.
  - apply orb_false_iff in Ha as [Hc Ha].
    destruct (IH Ha) as (f & fs & Hb & Hab).
    exists f, fs. now rewrite Hc, Hab.
Qed.

(** The file of a script lies in [log], and its name starts with the
    sequence index. *)
Lemma script_name_components i tag pair :
  exists rest more,
    Py.components (script_name i tag pair)
    = "log" :: ("bibw_" ++ Py.str i ++ "_" ++ rest) :: more.
Proof.
  assert (E : script_name i tag pair
              = "log" ++ String Py.slash (("bibw_" ++ Py.str i ++ "_") ++
                  tag ++ "_" ++ Py.replace Py.comma Py.underscore pair ++ ".sh")).
  { unfold script_name. simpl. now rewrite append_assoc. }
  unfold Py.components. rewrite E, split_field by reflexivity.
  destruct (split_head Py.slash ("bibw_" ++ Py.str i ++ "_")
              (tag ++ "_" ++ Py.replace Py.comma Py.underscore pair ++ ".sh"))
    as (f & fs & _ & ->).
  { simpl. rewrite mem_app. simpl.
    now rewrite (digits_mem Py.slash _ eq_refl (str_digits i)). }
  exists f. eexists. simpl. rewrite append_assoc. reflexivity.
Qed.

Lemma script_path_index i j tag_i tag_j pair_i pair_j :
  Py.components (script_name i tag_i pair_i)
  = Py.components (script_name j tag_j pair_j) -> i = j.
Proof.
  destruct (script_name_components i tag_i pair_i) as (r & m & ->).
  destruct (script_name_components j tag_j pair_j) as (r' & m' & ->).
  intros [= E _]. apply str_inj.
  revert E. apply (digits_delimited "_"); auto using str_digits.
Qed.

End Names.

(** C4.  Two different sequence indices never give the same script file
    name, the same script file, or the same output-log path, whatever the
    module tags and the node identifiers are: every name starts with the
    index in decimal, closed by an underscore. *)
Theorem names_differ_by_index i j tag_i tag_j pair_i pair_j n1 n2 m1 m2 :
  i <> j ->
  script_name i tag_i pair_i <> script_name j tag_j pair_j /\
  Py.components (script_name i tag_i pair_i)
    <> Py.components (script_name j tag_j pair_j) /\
  output_log i tag_i n1 n2 <> output_log j tag_j m1 m2.
Proof.
  intros Hij. repeat split; intros E; apply Hij.
  - now apply script_name_index in E.
  - now apply script_path_index in E.
  - now apply output_log_index in E.
Qed.

Lemma names_differ_by_index_witness :
  script_name 1 "lib-2.1" "n1,n2" <> script_name 11 "lib-2.1" "n1,n2" /\
  Py.components (script_name 1 "lib-2.1" "n1,n2")
    <> Py.components (script_name 11 "lib-2.1" "n1,n2") /\
  output_log 1 "lib-2.1" "n1" "n2" <> output_log 11 "lib-2.1" "n1" "n2".
Proof.
  apply (names_differ_by_index 1 11). discriminate.
Defined.

(** * The directives of a generated script *)

Section Directives.

Lemma header_of_unlines hs stop tl :
  Forall no_newline hs ->
  Forall (fun l => comment_or_blank l = true) hs ->
  no_newline stop -> comment_or_blank stop = false ->
  take_while comment_or_blank (Py.split Py.nl (unlines (hs ++ stop :: tl)%list)) = hs.
Proof.
  intros Hn Hc Hs Hb. induction hs as [|h hs IH]; simpl.
  - rewrite (split_field _ _ _ Hs). simpl. now rewrite Hb.
  - inversion Hn; subst. inversion Hc; subst.
    rewrite split_field by assumption. simpl.
    rewrite H3. f_equal. now apply IH.
Qed.

Lemma mem_replace c old new s :
  c <> old -> c <> new -> Py.mem c (Py.replace old new s) = Py.mem c s.
Proof.
  intros Ho Hn. induction s as [|d s IH]; simpl; [reflexivity|].
  rewrite IH. f_equal.
  destruct (Ascii.eqb_spec d old) as [->|Hd]; [|reflexivity].
  transitivity false; [|symmetry]; apply Ascii.eqb_neq; congruence.
Qed.

Lemma sanitize_no_newline omb_name : no_newline omb_name -> no_newline (sanitize omb_name).
Proof.
  unfold no_newline, sanitize. intros H.
  rewrite mem_replace; [exact H | discriminate | discriminate].
Qed.

Lemma sanitize_no_slash omb_name : Py.mem Py.slash (sanitize omb_name) = false.
Proof. apply replace_removes. discriminate. Qed.

(** The value of an option is what follows it on the first directive
    that starts with it. *)
Lemma directive_value_found key before value after script :
  sbatch_directives script
  = app before ((("#SBATCH " ++ key) ++ value) :: after) ->
  forallb (fun l => negb (String.prefix ("#SBATCH " ++ key) l)) before = true ->
  directive_value key script = Some value.
Proof.
  intros E Hb. unfold directive_value. rewrite E, filter_app.
  replace (filter (String.prefix ("#SBATCH " ++ key)) before) with (@nil string).
  - cbn [filter app]. rewrite prefix_app. now rewrite skip_prefix.
  - clear E. induction before as [|l ls IH]; [reflexivity|].
    cbn [forallb] in Hb. apply andb_true_iff in Hb as [Hl Hls].
    cbn [filter]. apply negb_true_iff in Hl. rewrite Hl. now apply IH.
Qed.

Variables (i : nat) (node1 node2 omb_name mpi_cmd tag : string).
Hypothesis node1_line : no_newline node1.
Hypothesis node2_line : no_newline node2.
Hypothesis omb_name_line : no_newline omb_name.
Hypothesis tag_line : no_newline tag.

Lemma str_no_newline : no_newline (Py.str i).
Proof. apply digits_mem; [reflexivity | apply str_digits]. Qed.

(** The comment block of the script is its first fifteen lines, and the
    directives are those of the template, in its order. *)
Lemma script_directives :
  sbatch_directives (job_script i node1 node2 omb_name mpi_cmd tag) =
  [ "#SBATCH --job-name=" ++ job_name omb_name node1 node2;
    "#SBATCH --reservation=maint";
    "#SBATCH -p htc";
    "#SBATCH -q public";
    "#SBATCH -t 1";
    "#SBATCH --ntasks-per-node=1";
    "#SBATCH --gpus-per-node=1";
    "#SBATCH -N 2";
    "#SBATCH -n 2";
    "#SBATCH -c 1";
    "#SBATCH --nodelist=" ++ node1 ++ "," ++ node2;
    "#SBATCH --output=" ++ output_log i tag node1 node2;
    "#SBATCH --export=NONE" ].
Proof.
  pose proof str_no_newline as Hi.
  unfold no_newline in *.
  unfold sbatch_directives, job_script.
  set (L := job_script_lines i node1 node2 omb_name mpi_cmd tag).
  change L with (firstn 15 L ++ nth 15 L EmptyString :: skipn 16 L)%list.
  rewrite header_of_unlines.
  - reflexivity.
  - unfold L, job_script_lines, job_name, output_log, no_newline; simpl.
    repeat (constructor; [ simpl; rewrite ?mem_app; simpl; rewrite ?mem_app;
      repeat (try rewrite node1_line; try rewrite node2_line;
              try rewrite omb_name_line; try rewrite tag_line; try rewrite Hi;
              simpl; rewrite ?mem_app); reflexivity | ]).
    constructor.
  - unfold L, job_script_lines; simpl.
    repeat (constructor; [reflexivity|]). constructor.
  - unfold L, job_script_lines, quoted, no_newline; simpl.
    rewrite ?mem_app; simpl; rewrite ?mem_app; simpl.
    repeat (try rewrite node1_line; try rewrite node2_line;
            try rewrite omb_name_line; simpl; rewrite ?mem_app; simpl).
    reflexivity.
  - reflexivity.
Qed.

Lemma script_job_name :
  directive_value "--job-name=" (job_script i node1 node2 omb_name mpi_cmd tag) = Some (job_name omb_name node1 node2).
Proof.
  apply (directive_value_found _ [] _
           (skipn 1 (sbatch_directives (job_script i node1 node2 omb_name mpi_cmd tag)))); [|reflexivity].
  now rewrite script_directives.
Qed.


Lemma script_output :
  directive_value "--output=" (job_script i node1 node2 omb_name mpi_cmd tag) = Some (output_log i tag node1 node2).
Proof.
  apply (directive_value_found _ (firstn 11 (sbatch_directives (job_script i node1 node2 omb_name mpi_cmd tag))) _
           (skipn 12 (sbatch_directives (job_script i node1 node2 omb_name mpi_cmd tag))));
    now rewrite script_directives.
Qed.


End Directives.




(** * Writing and submitting the scripts *)

(** ** What one iteration of the loop of main does *)

Section LoopBody.

Variable child : list string -> world -> option nat.
Variables (omb_name mpi_cmd tag : string).

Lemma set_files_twice f g w : set_files f (set_files g w) = set_files f w.
Proof. reflexivity. Qed.

Lemma lookup_file_head p f fs : lookup_file p ((p, f) :: fs) = Some f.
Proof.
  simpl. unfold path_eqb. now destruct (list_eq_dec string_dec p p).
Qed.

(** One iteration, step by step: the split of the pair, the directory
    [log], the path name of the script, the script file written and made
    executable, the submission. *)
Lemma main_body_eq i pair w :
  main_body child omb_name mpi_cmd tag i pair w =
  match Py.split Py.comma pair with
  | [node1; node2] =>
      let w1 := if is_dir ["log"] w || is_file ["log"] w then w
                else set_dirs (["log"] :: dirs w) w in
      let c := Py.components (script_name i tag pair) in
      let text := job_script i node1 node2 omb_name mpi_cmd tag in
      match path_error (script_name i tag pair) with
      | Some e => Raise e w1
      | None =>
          if is_dir c w1 || negb (is_dir (removelast c) w1) then Raise OSError w1
          else
            let m := match lookup_file c (files w1) with
                     | Some f => mode f
                     | None => default_mode
                     end in
            let w3 := set_files ((c, mkFile text 493) :: (c, mkFile text m)
                                   :: files w1) w1 in
            match child ["sbatch"; script_name i tag pair] w3 with
            | Some _ =>
                Ret tt (set_spawned
                          (spawned w ++ [["sbatch"; script_name i tag pair]])%list w3)
            | None => Raise OSError w3
            end
      end
  | _ => Raise ValueError w
  end.
Proof.
  unfold main_body, generate_job_script, unpack_pair.
  destruct (Py.split Py.comma pair) as [|node1 [|node2 [|x l]]]; try reflexivity.
  set (c := Py.components (script_name i tag pair)).
  set (text := job_script i node1 node2 omb_name mpi_cmd tag).
  unfold bind at 1. unfold bind at 1. cbn [ret].
  unfold bind at 1. unfold os_path_exists.
  change (Py.components "log") with ["log"].
  unfold bind at 1.
  assert (Hd : forall present,
             present = is_dir ["log"] w || is_file ["log"] w ->
             (if negb present then os_makedirs "log" else ret tt) w
             = Ret tt (if present then w else set_dirs (["log"] :: dirs w) w)).
  { intros present Hp. destruct present; [reflexivity|]. symmetry in Hp.
    apply orb_false_iff in Hp as [Hdir Hfile].
    unfold os_makedirs. change (Py.components "log") with ["log"].
    cbn [negb ancestors map existsb filter]. rewrite Hdir, Hfile. reflexivity. }
  rewrite (Hd _ eq_refl).
  set (w1 := if is_dir ["log"] w || is_file ["log"] w then w
             else set_dirs (["log"] :: dirs w) w).
  assert (Hs : spawned w1 = spawned w).
  { unfold w1. now destruct (is_dir ["log"] w || is_file ["log"] w). }
  cbv zeta. unfold bind at 1. unfold write_file, os_chmod, file_path_of, path_of.
  unfold bind at 1. rewrite script_name_file.
  assert (Hsh : Py.ends_with "/" (script_name i tag pair) = false).
  { unfold script_name. rewrite <- !append_assoc.
    now rewrite ends_with_app by (simpl; lia). }
  destruct (path_error (script_name i tag pair)) as [e|]; [reflexivity|].
  fold c. cbv iota.
  destruct (is_dir c w1 || negb (is_dir (removelast c) w1)); [reflexivity|].
  unfold bind at 1. unfold bind at 1.
  cbn [files set_files]. rewrite lookup_file_head, Hsh. cbn [content].
  unfold bind at 1. unfold subprocess_run.
  subst text. rewrite !set_files_twice. unfold path.
  match goal with |- context [child ?a ?x] => destruct (child a x) end;
    [|reflexivity].
  cbn [ret spawned set_files]. now rewrite Hs.
Qed.

End LoopBody.

Section Dispatch.

Lemma bind_ext {A B : Type} (m : M A) (k1 k2 : A -> M B) w :
  (forall a w', k1 a w' = k2 a w') -> bind m k1 w = bind m k2 w.
Proof. intros H. unfold bind. destruct (m w); auto. Qed.

Lemma generate_job_script_pure i pair omb_name mpi_cmd tag :
  exists r, forall w,
    generate_job_script i pair omb_name mpi_cmd tag w = lift_result r w.
Proof.
  unfold generate_job_script, unpack_pair, bind.
  destruct (Py.split Py.comma pair) as [|node1 [|node2 [|x l]]].
  - exists (inr ValueError). reflexivity.
  - exists (inr ValueError). reflexivity.
  - eexists (inl _). reflexivity.
  - exists (inr ValueError). reflexivity.
Qed.

(** What a completed iteration of the loop of [main] has done. *)
Lemma main_body_returns child omb_name mpi_cmd tag i pair w w' :
  main_body child omb_name mpi_cmd tag i pair w = Ret tt w' ->
  exists script,
    generate_job_script i pair omb_name mpi_cmd tag w = Ret script w /\
    lookup_file (Py.components (script_name i tag pair)) (files w')
    = Some (mkFile script 493) /\
    spawned w' = (spawned w ++ [["sbatch"; script_name i tag pair]])%list /\
    draws w' = draws w /\ stdout w' = stdout w.
Proof.
  rewrite main_body_eq. unfold generate_job_script, unpack_pair, bind.
  destruct (Py.split Py.comma pair) as [|node1 [|node2 [|x l]]];
    try discriminate.
  cbv zeta.
  set (w1 := if is_dir ["log"] w || is_file ["log"] w then w
             else set_dirs (["log"] :: dirs w) w).
  assert (Hw : draws w1 = draws w /\ stdout w1 = stdout w).
  { unfold w1. now destruct (is_dir ["log"] w || is_file ["log"] w). }
  destruct (path_error (script_name i tag pair)); [discriminate|].
  destruct (is_dir _ w1 || _); [discriminate|].
  destruct (child _ _); [|discriminate].
  intros [= <-]. eexists. split; [reflexivity|].
  cbn [files set_files set_spawned spawned draws stdout].
  rewrite lookup_file_head. repeat split; apply Hw.
Qed.

Lemma subprocess_run_status child1 child2 argv w :
  (forall argv w, child1 argv w = None <-> child2 argv w = None) ->
  bind (subprocess_run child1 argv) (fun _ => ret tt) w
  = bind (subprocess_run child2 argv) (fun _ => ret tt) w.
Proof.
  intros H. unfold bind, subprocess_run.
  destruct (child1 argv w) as [s1|] eqn:E1, (child2 argv w) as [s2|] eqn:E2;
    try reflexivity.
  - apply H in E2. congruence.
  - apply H in E1. congruence.
Qed.

Lemma main_body_status child1 child2 omb_name mpi_cmd tag i pair w :
  (forall argv w, child1 argv w = None <-> child2 argv w = None) ->
  main_body child1 omb_name mpi_cmd tag i pair w
  = main_body child2 omb_name mpi_cmd tag i pair w.
Proof.
  intros H. unfold main_body.
  repeat (apply bind_ext; intros).
  now apply subprocess_run_status.
Qed.

Lemma for_enumerate_ext {A : Type} (body1 body2 : nat -> A -> M unit) l :
  (forall i x w, body1 i x w = body2 i x w) ->
  forall start w, for_enumerate start l body1 w = for_enumerate start l body2 w.
Proof.
  intros H. induction l as [|x l IH]; intros start w; simpl; [reflexivity|].
  unfold bind. rewrite H. destruct (body2 start x w); auto.
Qed.

Lemma main_status child1 child2 nodelist_file omb_name mpi_cmd w :
  (forall argv w, child1 argv w = None <-> child2 argv w = None) ->
  main child1 nodelist_file omb_name mpi_cmd w
  = main child2 nodelist_file omb_name mpi_cmd w.
Proof.
  intros H. unfold main.
  repeat (apply bind_ext; intros).
  apply for_enumerate_ext. intros. now apply main_body_status.
Qed.

(** A completed loop has made one submission per pair, in order. *)
Lemma for_enumerate_submissions child omb_name mpi_cmd tag pairs :
  forall start w w',
    for_enumerate start pairs (main_body child omb_name mpi_cmd tag) w = Ret tt w' ->
    spawned w' = (spawned w ++ submissions start tag pairs)%list.
Proof.
  induction pairs as [|p rest IH]; intros start w w'; simpl.
  - intros [= <-]. now rewrite app_nil_r.
  - unfold bind at 1.
    destruct (main_body child omb_name mpi_cmd tag start p w)
      as [[] w1| | |] eqn:E; try discriminate.
    intros H. apply IH in H.
    apply main_body_returns in E as (_ & _ & _ & S1 & _).
    now rewrite H, S1, <- app_assoc.
Qed.

End Dispatch.

(** C7.  [generate_job_script] is a function of its arguments alone: it
    returns the same script, or raises the same error, in every world, and
    changes nothing.  Hence two iterations of the loop of [main] on the
    same index, pair and run parameters write the same script under the
    same file name and submit the same command, in whatever worlds and
    with whatever scheduler they run. *)
Theorem job_script_deterministic i pair omb_name mpi_cmd tag :
  (exists r, forall w,
      generate_job_script i pair omb_name mpi_cmd tag w = lift_result r w) /\
  (forall child1 child2 w1 w2 w1' w2',
      main_body child1 omb_name mpi_cmd tag i pair w1 = Ret tt w1' ->
      main_body child2 omb_name mpi_cmd tag i pair w2 = Ret tt w2' ->
      exists script argv,
        lookup_file (Py.components (script_name i tag pair)) (files w1')
        = Some (mkFile script 493) /\
        lookup_file (Py.components (script_name i tag pair)) (files w2')
        = Some (mkFile script 493) /\
        spawned w1' = (spawned w1 ++ [argv])%list /\
        spawned w2' = (spawned w2 ++ [argv])%list).
Proof.
  split; [apply generate_job_script_pure|].
  intros child1 child2 w1 w2 w1' w2' H1 H2.
  apply main_body_returns in H1 as (s1 & G1 & F1 & S1 & _).
  apply main_body_returns in H2 as (s2 & G2 & F2 & S2 & _).
  destruct (generate_job_script_pure i pair omb_name mpi_cmd tag) as (r & Hr).
  rewrite Hr in G1, G2.
  assert (s1 = s2) as <-.
  { destruct r; simpl in G1, G2; [|discriminate].
    unfold ret in G1, G2. congruence. }
  exists s1, ["sbatch"; script_name i tag pair]. auto.
Qed.

Lemma job_script_deterministic_witness :
  exists w1' w2' script argv,
    main_body (fun _ _ => Some 0) "lib/2.1" "srun" "lib-2.1" 0 "n1,n2" world_a
    = Ret tt w1' /\
    main_body (fun _ _ => Some 1) "lib/2.1" "srun" "lib-2.1" 0 "n1,n2" world_b
    = Ret tt w2' /\
    lookup_file (Py.components (script_name 0 "lib-2.1" "n1,n2")) (files w1')
    = Some (mkFile script 493) /\
    lookup_file (Py.components (script_name 0 "lib-2.1" "n1,n2")) (files w2')
    = Some (mkFile script 493) /\
    spawned w1' = (spawned world_a ++ [argv])%list /\
    spawned w2' = (spawned world_b ++ [argv])%list.
Proof.
  assert (H1 : exists w1',
             main_body (fun _ _ => Some 0) "lib/2.1" "srun" "lib-2.1" 0 "n1,n2"
               world_a = Ret tt w1') by (eexists; vm_compute; reflexivity).
  assert (H2 : exists w2',
             main_body (fun _ _ => Some 1) "lib/2.1" "srun" "lib-2.1" 0 "n1,n2"
               world_b = Ret tt w2') by (eexists; vm_compute; reflexivity).
  destruct H1 as (w1' & H1), H2 as (w2' & H2).
  destruct (proj2 (job_script_deterministic 0 "n1,n2" "lib/2.1" "srun" "lib-2.1")
              _ _ _ _ _ _ H1 H2) as (script & argv & H).
  exists w1', w2', script, argv. auto.
Defined.

(** * Facts about the list primitives *)

Section ListFacts.

Lemma list_remove_spec x l l' :
  Py.list_remove x l = Some l' -> Permutation l (x :: l').
Proof.
  revert l'. induction l as [|y l IH]; simpl; intros l'; [discriminate|].
  destruct (String.eqb_spec y x) as [->|Hy].
  - intros [= ->]. reflexivity.
  - destruct (Py.list_remove x l) as [r|]; simpl; [|discriminate].
    intros [= <-]. rewrite (IH r eq_refl). apply perm_swap.
Qed.

Lemma list_remove_in x l : In x l -> exists l', Py.list_remove x l = Some l'.
Proof.
  induction l as [|y l IH]; simpl; [intros []|].
  destruct (String.eqb_spec y x) as [->|Hy]; [eauto|].
  intros [E|Hin]; [congruence|].
  destruct (IH Hin) as (l' & ->). simpl. eauto.
Qed.

Lemma list_remove_absent x l : ~ In x l -> Py.list_remove x l = None.
Proof.
  induction l as [|y l IH]; simpl; [reflexivity|]. intros H.
  destruct (String.eqb_spec y x) as [->|Hy]; [tauto|].
  rewrite IH; [reflexivity | tauto].
Qed.

Lemma list_pop_spec {A : Type} i (l : list A) x l' :
  Py.list_pop i l = Some (x, l') ->
  nth_error l i = Some x /\ Permutation l (x :: l').
Proof.
  revert i x l'. induction l as [|y l IH]; intros [|i] x l'; simpl;
    try discriminate.
  - intros [= -> ->]. split; reflexivity.
  - destruct (Py.list_pop i l) as [[z r]|] eqn:E; [|discriminate].
    intros [= -> <-]. destruct (IH _ _ _ E) as [Hn Hp]. split; [exact Hn|].
    rewrite Hp. apply perm_swap.
Qed.

Lemma list_pop_some {A : Type} i (l : list A) :
  i < length l -> exists x l', Py.list_pop i l = Some (x, l').
Proof.
  revert i. induction l as [|y l IH]; intros [|i]; simpl; try lia; [eauto|].
  intros H. destruct (IH i) as (x & l' & ->); [lia | eauto].
Qed.

Lemma list_set_some {A : Type} i (v : A) l :
  i < length l -> exists l', Py.list_set i v l = Some l'.
Proof.
  revert i. induction l as [|y l IH]; intros [|i]; simpl; try lia; [eauto|].
  intros H. destruct (IH i) as (l' & ->); [lia | simpl; eauto].
Qed.

Lemma list_set_spec {A : Type} i (v : A) l l' :
  Py.list_set i v l = Some l' ->
  (forall j, nth_error l' j = if (j =? i)%nat then Some v else nth_error l j) /\
  forall a, nth_error l i = Some a -> Permutation (a :: l') (v :: l).
Proof.
  revert i l'. induction l as [|y l IH]; intros [|i] l'; simpl;
    try discriminate.
  - intros [= <-]. split.
    + now intros [|j].
    + intros a [= ->]. apply perm_swap.
  - destruct (Py.list_set i v l) as [r|] eqn:E; [|discriminate].
    intros [= <-]. destruct (IH _ _ E) as [Hn Hp]. split.
    + intros [|j]; simpl; [reflexivity | apply Hn].
    + intros a Ha. rewrite perm_swap, (Hp a Ha). apply perm_swap.
Qed.

(** A list without repetitions and with two elements has an element
    other than any given one, at index 0 or 1. *)
Lemma other_element (x : string) l :
  NoDup l -> 2 <= length l ->
  exists k y, k < length l /\ nth_error l k = Some y /\ y <> x.
Proof.
  destruct l as [|a [|b l]]; simpl; try lia. intros Hnd _.
  destruct (string_dec a x) as [->|Ha].
  - exists 1, b. repeat split; [lia|]. inversion Hnd; subst.
    intros ->. simpl in *. tauto.
  - exists 0, a. repeat split; [lia | exact Ha].
Qed.

Lemma members_length ps : length (members ps) = 2 * length ps.
Proof. induction ps as [|p ps IH]; simpl; [reflexivity | lia]. Qed.

Lemma members_app ps qs : members (ps ++ qs)%list = (members ps ++ members qs)%list.
Proof. unfold members. apply flat_map_app. Qed.

End ListFacts.

(** * Reasoning about calls that draw random numbers *)

Section Runs.

Context {A B : Type}.

Lemma set_draws_twice d d' w : set_draws d (set_draws d' w) = set_draws d w.
Proof. reflexivity. Qed.

Lemma more_draws_nil w : more_draws w [] = w.
Proof. destruct w. unfold more_draws, set_draws. simpl. now rewrite app_nil_r. Qed.

Lemma more_draws_app w m1 m2 :
  more_draws w (m1 ++ m2)%list = more_draws (more_draws w m1) m2.
Proof. unfold more_draws, set_draws. simpl. now rewrite app_assoc. Qed.

Lemma spec_run (m : M A) Q w a w' :
  spec m Q -> m w = Ret a w' -> Q a /\ w' = set_draws (draws w') w.
Proof. intros H E. specialize (H w). now rewrite E in H. Qed.

Lemma spec_weaken (m : M A) (Q Q' : A -> Prop) :
  (forall a, Q a -> Q' a) -> spec m Q -> spec m Q'.
Proof.
  intros HQ H w. specialize (H w). destruct (m w); auto.
  destruct H. auto.
Qed.

Lemma spec_ret (a : A) (Q : A -> Prop) : Q a -> spec (ret a) Q.
Proof. intros H w. simpl. split; [exact H | now destruct w]. Qed.

Lemma spec_bind (m : M A) (k : A -> M B) Q R :
  spec m Q -> (forall a, Q a -> spec (k a) R) -> spec (bind m k) R.
Proof.
  intros Hm Hk w. unfold bind. specialize (Hm w).
  destruct (m w) as [a w1| | |]; auto.
  destruct Hm as [Ha Hw]. specialize (Hk a Ha w1).
  destruct (k a w1) as [b w2| | |]; auto.
  destruct Hk as [Hb Hw2]. split; [exact Hb|].
  rewrite Hw2, Hw. reflexivity.
Qed.

Lemma spec_or_raise e (o : option A) a : o = Some a -> spec (or_raise e o) (eq a).
Proof. intros ->. now apply spec_ret. Qed.

Lemma spec_getitem (l : list A) i :
  i < length l -> spec (getitem l i) (fun x => nth_error l i = Some x).
Proof.
  intros H. unfold getitem.
  destruct (nth_error l i) as [x|] eqn:E.
  - now apply spec_ret.
  - apply nth_error_None in E. lia.
Qed.

Lemma stable_ret (a : A) : stable (ret a).
Proof. intros w more b w' [= <- <-]. reflexivity. Qed.

Lemma stable_or_raise e (o : option A) : stable (or_raise e o).
Proof. destruct o; [apply stable_ret | discriminate]. Qed.

Lemma stable_bind (m : M A) (k : A -> M B) :
  stable m -> (forall a, stable (k a)) -> stable (bind m k).
Proof.
  intros Hm Hk w more b w'. unfold bind.
  destruct (m w) as [a w1| | |] eqn:E; try discriminate.
  intros H. rewrite (Hm _ more _ _ E). now apply Hk.
Qed.

Lemma can_return_ret (a : A) : can_return (ret a).
Proof. intros w. exists [], a, w. now rewrite more_draws_nil. Qed.

Lemma can_return_bind (m : M A) (k : A -> M B) Q :
  spec m Q -> stable m -> can_return m ->
  (forall a, Q a -> can_return (k a)) -> can_return (bind m k).
Proof.
  intros Hs Hst Hm Hk w.
  destruct (Hm w) as (m1 & a & w1 & E1).
  destruct (spec_run _ _ _ _ _ Hs E1) as [Ha _].
  destruct (Hk a Ha w1) as (m2 & b & w2 & E2).
  exists (m1 ++ m2)%list, b, w2.
  rewrite more_draws_app. unfold bind.
  now rewrite (Hst _ m2 _ _ E1).
Qed.

End Runs.

Section RandomCalls.

Lemma spec_randbelow n : 0 < n -> spec (randbelow n) (fun k => k < n).
Proof.
  intros Hn w. unfold randbelow.
  destruct (draws w) as [|r rest]; [exact I|].
  split; [now apply Nat.mod_upper_bound; lia | reflexivity].
Qed.

Lemma stable_randbelow n : stable (randbelow n).
Proof.
  intros w more k w'. unfold randbelow, more_draws. simpl.
  destruct (draws w) as [|r rest]; [discriminate|].
  intros [= <- <-]. reflexivity.
Qed.

Lemma can_return_randbelow n : can_return (randbelow n).
Proof.
  intros w. unfold randbelow, more_draws. simpl.
  destruct (draws w) as [|r rest].
  - exists [0]. simpl. eauto.
  - exists []. simpl. eauto.
Qed.

Lemma stable_getitem {A : Type} (l : list A) i : stable (getitem l i).
Proof. apply stable_or_raise. Qed.

Lemma spec_random_choice {A : Type} (seq : list A) :
  seq <> [] -> spec (random_choice seq) (fun x => In x seq).
Proof.
  intros H. destruct seq as [|a seq]; [congruence|].
  unfold random_choice.
  apply spec_bind with (Q := fun k => k < length (a :: seq)).
  - apply spec_randbelow. simpl. lia.
  - intros k Hk. eapply spec_weaken; [|now apply spec_getitem].
    intros x. apply nth_error_In.
Qed.

Lemma stable_random_choice {A : Type} (seq : list A) : stable (random_choice seq).
Proof.
  destruct seq; [discriminate|].
  apply stable_bind; [apply stable_randbelow | intros; apply stable_getitem].
Qed.

Lemma can_return_random_choice {A : Type} (seq : list A) :
  seq <> [] -> can_return (random_choice seq).
Proof.
  intros H. destruct seq as [|a seq]; [congruence|].
  unfold random_choice.
  apply can_return_bind with (Q := fun k => k < length (a :: seq)).
  - apply spec_randbelow. simpl. lia.
  - apply stable_randbelow.
  - apply can_return_randbelow.
  - intros k Hk w. exists []. rewrite more_draws_nil.
    unfold getitem. destruct (nth_error (a :: seq) k) as [x|] eqn:E.
    + simpl. eauto.
    + apply nth_error_None in E. lia.
Qed.

End RandomCalls.

Section Loops.

Context {S : Type}.
Variables (I : S -> Prop) (measure : S -> nat).
Variables (cond : S -> bool) (body : S -> M S).

Hypothesis measure_pos : forall s, I s -> cond s = true -> 0 < measure s.
Hypothesis body_spec :
  forall s, I s -> cond s = true ->
    spec (body s) (fun s' => I s' /\ measure s' < measure s).
Hypothesis body_stable : forall s, stable (body s).

(** A loop whose iterations decrease a measure ends within as many
    iterations as the measure allows. *)
Lemma spec_while fuel s :
  I s -> measure s <= fuel ->
  spec (while fuel cond body s) (fun s' => I s' /\ cond s' = false).
Proof.
  revert s. induction fuel as [|fuel IH]; intros s Hs Hm; simpl;
    destruct (cond s) eqn:Hc.
  - specialize (measure_pos s Hs Hc). lia.
  - now apply spec_ret.
  - eapply spec_bind; [now apply body_spec|].
    intros s' [Hs' Hlt]. apply IH; [exact Hs' | lia].
  - now apply spec_ret.
Qed.

Lemma stable_while fuel s : stable (while fuel cond body s).
Proof.
  revert s. induction fuel as [|fuel IH]; intros s; simpl;
    destruct (cond s).
  - discriminate.
  - apply stable_ret.
  - apply stable_bind; [apply body_stable | exact IH].
  - apply stable_ret.
Qed.

Lemma can_return_while fuel s :
  (forall s, I s -> cond s = true -> can_return (body s)) ->
  I s -> measure s <= fuel -> can_return (while fuel cond body s).
Proof.
  intros Hb. revert s. induction fuel as [|fuel IH]; intros s Hs Hm; simpl;
    destruct (cond s) eqn:Hc.
  - specialize (measure_pos s Hs Hc). lia.
  - apply can_return_ret.
  - eapply can_return_bind; [now apply body_spec | apply body_stable | now apply Hb |].
    intros s' [Hs' Hlt]. apply IH; [exact Hs' | lia].
  - apply can_return_ret.
Qed.

End Loops.

Lemma while_unfold {S : Type} (cond : S -> bool) (body : S -> M S) fuel s :
  while (Datatypes.S fuel) cond body s
  = if cond s then bind (body s) (while fuel cond body) else ret s.
Proof. reflexivity. Qed.

Lemma while_more_fuel {S : Type} (cond : S -> bool) (body : S -> M S) fuel :
  forall fuel' s w s' w',
    fuel <= fuel' ->
    while fuel cond body s w = Ret s' w' ->
    while fuel' cond body s w = Ret s' w'.
Proof.
  induction fuel as [|fuel IH]; intros fuel' s w s' w' Hle; simpl;
    destruct fuel' as [|fuel'']; simpl; destruct (cond s); try discriminate;
    try lia; auto.
  unfold bind. destruct (body s w) as [s1 w1| | |]; try discriminate.
  apply IH. lia.
Qed.

(** * The re-draw loop *)

Section Redraw.

Variables (nodes : list string) (node1 : string).
Hypothesis nodes_nonempty : nodes <> [].

Lemma random_choice_run w r rest :
  draws w = r :: rest ->
  exists x, nth_error nodes (r mod length nodes) = Some x /\
            random_choice nodes w = Ret x (set_draws rest w).
Proof.
  intros Hd. destruct nodes as [|a l] eqn:E; [congruence|]. rewrite <- E.
  assert (Hlt : r mod length nodes < length nodes).
  { apply Nat.mod_upper_bound. rewrite E. simpl. lia. }
  destruct (nth_error nodes (r mod length nodes)) as [x|] eqn:Hx.
  2:{ apply nth_error_None in Hx. lia. }
  exists x. split; [reflexivity|].
  rewrite E at 1. unfold random_choice. rewrite <- E.
  unfold bind, randbelow. rewrite Hd. unfold getitem. now rewrite Hx.
Qed.

Lemma random_choice_out w : draws w = [] -> random_choice nodes w = OutOfDraws.
Proof.
  intros Hd. destruct nodes as [|a l]; [congruence|].
  unfold random_choice, bind, randbelow. now rewrite Hd.
Qed.

Lemma redraw_exit node2 w :
  String.eqb node1 node2 = false -> redraw nodes node1 node2 w = Ret node2 w.
Proof. intros H. unfold redraw. simpl. now rewrite H. Qed.

Lemma redraw_out w : draws w = [] -> redraw nodes node1 node1 w = OutOfDraws.
Proof.
  intros Hd. unfold redraw. rewrite Hd. simpl.
  rewrite String.eqb_refl. unfold bind. now rewrite random_choice_out.
Qed.

Lemma redraw_step w r rest x :
  draws w = r :: rest ->
  nth_error nodes (r mod length nodes) = Some x ->
  redraw nodes node1 node1 w = redraw nodes node1 x (set_draws rest w).
Proof.
  intros Hd Hx. unfold redraw at 1. rewrite Hd.
  change (while (Datatypes.S (length (r :: rest))) (fun node2 => String.eqb node1 node2)
            (fun _ => random_choice nodes) node1 w)
    with ((if String.eqb node1 node1
           then bind (random_choice nodes)
                  (while (Datatypes.S (length rest)) (fun node2 => String.eqb node1 node2)
                     (fun _ => random_choice nodes))
           else ret node1) w).
  rewrite String.eqb_refl. unfold bind.
  destruct (random_choice_run w r rest Hd) as (y & Hy & ->).
  assert (y = x) as -> by congruence. reflexivity.
Qed.

(** The loop is still running at the end of the draws exactly when every
    draw chose [node1] again. *)
Lemma redraw_running w :
  redraw nodes node1 node1 w = OutOfDraws <->
  Forall (fun r => nth_error nodes (r mod length nodes) = Some node1) (draws w).
Proof.
  remember (draws w) as d eqn:Hd. revert w Hd.
  induction d as [|r rest IH]; intros w Hd; symmetry in Hd.
  - split; [constructor | intros _; now apply redraw_out].
  - destruct (random_choice_run w r rest Hd) as (x & Hx & _).
    rewrite (redraw_step w r rest x Hd Hx).
    destruct (String.eqb_spec node1 x) as [<-|Hne].
    + rewrite (IH (set_draws rest w) eq_refl). split.
      * intros H. now constructor.
      * intros H. now inversion H.
    + rewrite redraw_exit by now apply String.eqb_neq. split; [discriminate|].
      intros H. inversion H; subst. congruence.
Qed.

(** When the loop returns, it returns a node other than [node1]: the
    one it started from or one of [nodes]. *)
Lemma spec_redraw node2 :
  spec (redraw nodes node1 node2)
    (fun n2 => n2 <> node1 /\ (n2 = node2 \/ In n2 nodes)).
Proof.
  intros w. destruct (String.eqb_spec node1 node2) as [<-|Hne].
  2:{ rewrite redraw_exit by now apply String.eqb_neq.
      split; [split; [congruence | now left] | now destruct w]. }
  remember (draws w) as d eqn:Hd. revert w Hd.
  induction d as [|r rest IH]; intros w Hd; symmetry in Hd.
  - now rewrite redraw_out.
  - destruct (random_choice_run w r rest Hd) as (x & Hx & _).
    rewrite (redraw_step w r rest x Hd Hx).
    destruct (String.eqb_spec node1 x) as [<-|Hne].
    + specialize (IH (set_draws rest w) eq_refl).
      destruct (redraw nodes node1 node1 (set_draws rest w)); auto.
    + rewrite redraw_exit by now apply String.eqb_neq.
      split; [|reflexivity]. split; [congruence|].
      right. eapply nth_error_In, Hx.
Qed.

Lemma stable_redraw node2 : stable (redraw nodes node1 node2).
Proof.
  intros w more a w' H. unfold redraw in *.
  eapply while_more_fuel.
  2:{ apply stable_while; [|exact H]. intros _. apply stable_random_choice. }
  unfold more_draws. simpl. rewrite length_app. lia.
Qed.

(** With a node other than [node1] among [nodes], one more draw at most
    lets the loop return. *)
Lemma can_return_redraw node2 :
  (exists k y, k < length nodes /\ nth_error nodes k = Some y /\ y <> node1) ->
  can_return (redraw nodes node1 node2).
Proof.
  intros (k & y & Hk & Hy & Hne) w.
  destruct (String.eqb_spec node1 node2) as [<-|Hn2].
  2:{ exists [], node2, w. rewrite more_draws_nil.
      apply redraw_exit. now apply String.eqb_neq. }
  remember (draws w) as d eqn:Hd. revert w Hd.
  induction d as [|r rest IH]; intros w Hd; symmetry in Hd.
  - exists [k], y, (set_draws [] (more_draws w [k])).
    assert (Hd' : draws (more_draws w [k]) = [k]).
    { unfold more_draws. simpl. now rewrite Hd. }
    rewrite (redraw_step _ k [] y Hd').
    + apply redraw_exit. apply String.eqb_neq. congruence.
    + now rewrite Nat.mod_small.
  - destruct (random_choice_run w r rest Hd) as (x & Hx & _).
    destruct (String.eqb_spec node1 x) as [<-|Hnx].
    + destruct (IH (set_draws rest w) eq_refl) as (more & a & w' & E).
      exists more, a, w'.
      assert (Hd' : draws (more_draws w more) = r :: (rest ++ more)%list).
      { unfold more_draws. simpl. now rewrite Hd. }
      rewrite (redraw_step _ r _ node1 Hd' Hx). exact E.
    + exists [], x, (set_draws rest w). rewrite more_draws_nil.
      rewrite (redraw_step w r rest x Hd Hx).
      apply redraw_exit. now apply String.eqb_neq.
Qed.

End Redraw.

(** * create_pairs *)

Section CreatePairs.

(** One iteration takes two different nodes out of the list and appends
    their pair. *)
Lemma spec_create_pairs_body nodes pairs :
  2 <= length nodes ->
  spec (create_pairs_body (nodes, pairs))
    (fun s' => exists n1 n2,
         n1 <> n2 /\ Permutation nodes (n1 :: n2 :: fst s') /\
         snd s' = (pairs ++ [encode_pair n1 n2])%list).
Proof.
  intros Hlen.
  assert (Hne : nodes <> []) by (intros ->; simpl in Hlen; lia).
  unfold create_pairs_body.
  eapply spec_bind; [now apply spec_random_choice|]. intros node1 H1.
  eapply spec_bind; [now apply spec_random_choice|]. intros node2 H2.
  eapply spec_bind; [now apply spec_redraw|]. intros n2 [Hn Hin].
  assert (H3 : In n2 nodes) by (destruct Hin; subst; auto).
  destruct (list_remove_in node1 nodes H1) as (l1 & E1).
  pose proof (list_remove_spec _ _ _ E1) as P1.
  assert (H4 : In n2 l1).
  { apply (Permutation_in _ P1) in H3. destruct H3; congruence. }
  destruct (list_remove_in n2 l1 H4) as (l2 & E2).
  pose proof (list_remove_spec _ _ _ E2) as P2.
  rewrite E1. eapply spec_bind; [now apply spec_or_raise|]. intros ? <-.
  rewrite E2. eapply spec_bind; [now apply spec_or_raise|]. intros ? <-.
  apply spec_ret. exists node1, n2. simpl. repeat split; [congruence|].
  now rewrite P1, P2.
Qed.

Lemma stable_create_pairs_body s : stable (create_pairs_body s).
Proof.
  destruct s as [nodes pairs]. unfold create_pairs_body.
  apply stable_bind; [apply stable_random_choice|]. intros node1.
  apply stable_bind; [apply stable_random_choice|]. intros node2.
  destruct nodes as [|a l].
  { apply stable_bind; [|intros; apply stable_bind; [apply stable_or_raise|];
                          intros; apply stable_bind; [apply stable_or_raise|];
                          intros; apply stable_ret].
    intros w more x w' H. unfold redraw in *.
    eapply while_more_fuel.
    2:{ apply stable_while; [|exact H]. intros _. apply stable_random_choice. }
    unfold more_draws. simpl. rewrite length_app. lia. }
  apply stable_bind; [now apply stable_redraw|]. intros n2.
  apply stable_bind; [apply stable_or_raise|]. intros l1.
  apply stable_bind; [apply stable_or_raise|]. intros l2.
  apply stable_ret.
Qed.

Lemma can_return_create_pairs_body nodes pairs :
  NoDup nodes -> 2 <= length nodes ->
  can_return (create_pairs_body (nodes, pairs)).
Proof.
  intros Hnd Hlen.
  assert (Hne : nodes <> []) by (intros ->; simpl in Hlen; lia).
  unfold create_pairs_body.
  eapply can_return_bind;
    [now apply spec_random_choice | apply stable_random_choice
    | now apply can_return_random_choice |]. intros node1 H1.
  eapply can_return_bind;
    [now apply spec_random_choice | apply stable_random_choice
    | now apply can_return_random_choice |]. intros node2 H2.
  eapply can_return_bind;
    [now apply spec_redraw | now apply stable_redraw
    | apply can_return_redraw; [exact Hne | now apply other_element] |].
  intros n2 [Hn Hin].
  assert (H3 : In n2 nodes) by (destruct Hin; subst; auto).
  destruct (list_remove_in node1 nodes H1) as (l1 & E1).
  pose proof (list_remove_spec _ _ _ E1) as P1.
  assert (H4 : In n2 l1).
  { apply (Permutation_in _ P1) in H3. destruct H3; congruence. }
  destruct (list_remove_in n2 l1 H4) as (l2 & E2).
  rewrite E1. simpl or_raise.
  eapply can_return_bind;
    [now apply (spec_ret l1 (eq l1)) | apply stable_ret | apply can_return_ret |].
  intros ? <-. rewrite E2. simpl or_raise.
  eapply can_return_bind;
    [now apply (spec_ret l2 (eq l2)) | apply stable_ret | apply can_return_ret |].
  intros ? <-. apply can_return_ret.
Qed.

Lemma pairing_of_step nodes0 nodes pairs :
  pairing_of nodes0 (nodes, pairs) -> 2 <= length nodes ->
  spec (create_pairs_body (nodes, pairs))
    (fun s' => pairing_of nodes0 s' /\ length (fst s') < length nodes).
Proof.
  intros (ps & Hp & Hperm & Hd) Hlen.
  eapply spec_weaken; [|now apply spec_create_pairs_body].
  intros [nodes' pairs'] (n1 & n2 & Hne & P & E). simpl in *. split.
  - exists (ps ++ [(n1, n2)])%list. simpl. repeat split.
    + now rewrite E, Hp, map_app.
    + rewrite members_app, Hperm, P. simpl. rewrite app_assoc.
      apply (Permutation_app_comm [n1; n2]).
    + apply Forall_app. split; [exact Hd|]. now repeat constructor.
  - apply Permutation_length in P. simpl in P. lia.
Qed.

Lemma more_than_one (s : list string * list string) :
  (1 <? length (fst s))%nat = true <-> 2 <= length (fst s).
Proof. rewrite Nat.ltb_lt. lia. Qed.

(** A completed [create_pairs] has paired all nodes but at most one. *)
Lemma spec_create_pairs nodes :
  spec (create_pairs nodes)
    (fun pairs => exists ps rest,
         pairs = map encode ps /\
         Permutation nodes (rest ++ members ps)%list /\
         Forall distinct_members ps /\ length rest <= 1).
Proof.
  unfold create_pairs.
  eapply spec_bind.
  - apply (spec_while (pairing_of nodes) (fun s => length (fst s))).
    + intros s _ Hc. apply more_than_one in Hc. lia.
    + intros [l pairs] Hs Hc. apply more_than_one in Hc.
      now apply pairing_of_step.
    + exists []. simpl. rewrite app_nil_r.
      split; [reflexivity|]. split; [reflexivity | constructor].
    + simpl. lia.
  - intros [rest pairs] [(ps & Hp & Hperm & Hd) Hc]. apply spec_ret.
    exists ps, rest. simpl in *. repeat split; auto.
    apply Nat.ltb_ge in Hc. lia.
Qed.

Lemma stable_create_pairs nodes : stable (create_pairs nodes).
Proof.
  unfold create_pairs. apply stable_bind.
  - apply stable_while. apply stable_create_pairs_body.
  - intros. apply stable_ret.
Qed.

Lemma can_return_create_pairs nodes : NoDup nodes -> can_return (create_pairs nodes).
Proof.
  intros Hnd. unfold create_pairs.
  eapply can_return_bind with (Q := fun _ => True).
  - eapply spec_weaken; [|apply (spec_while (fun s => NoDup (fst s))
                                  (fun s => length (fst s)))]; auto.
    + intros s _ Hc. apply more_than_one in Hc. lia.
    + intros [l pairs] Hs Hc. apply more_than_one in Hc. simpl in *.
      eapply spec_weaken; [|now apply spec_create_pairs_body].
      intros [l' pairs'] (n1 & n2 & _ & P & _). simpl in *. split.
      * apply (Permutation_NoDup P) in Hs.
        inversion Hs as [|? ? _ Hs']. now inversion Hs'.
      * apply Permutation_length in P. simpl in P. lia.
  - apply stable_while. apply stable_create_pairs_body.
  - apply (can_return_while (fun s => NoDup (fst s)) (fun s => length (fst s))).
    + intros s _ Hc. apply more_than_one in Hc. lia.
    + intros [l pairs] Hs Hc. apply more_than_one in Hc. simpl in *.
      eapply spec_weaken; [|now apply spec_create_pairs_body].
      intros [l' pairs'] (n1 & n2 & _ & P & _). simpl in *. split.
      * apply (Permutation_NoDup P) in Hs.
        inversion Hs as [|? ? _ Hs']. now inversion Hs'.
      * apply Permutation_length in P. simpl in P. lia.
    + apply stable_create_pairs_body.
    + intros [l pairs] Hs Hc. apply more_than_one in Hc.
      now apply can_return_create_pairs_body.
    + exact Hnd.
    + simpl. lia.
  - intros. apply can_return_ret.
Qed.

End CreatePairs.

(** * shuffle_and_filter_nodes *)

Section Shuffle.

Context {A : Type}.

(** A swap inside the list draws nothing and permutes the list. *)
Lemma swap_run (x : list A) i j :
  i < length x -> j < length x ->
  exists y, Permutation x y /\ forall w, swap x i j w = Ret y w.
Proof.
  intros Hi Hj.
  destruct (nth_error x i) as [xi|] eqn:Ei; [|apply nth_error_None in Ei; lia].
  destruct (nth_error x j) as [xj|] eqn:Ej; [|apply nth_error_None in Ej; lia].
  destruct (list_set_some i xj x Hi) as (x1 & E1).
  destruct (list_set_spec _ _ _ _ E1) as [N1 P1].
  assert (L1 : length x1 = length x).
  { specialize (P1 xi Ei). apply Permutation_length in P1. simpl in P1. lia. }
  destruct (list_set_some j xi x1) as (x2 & E2); [lia|].
  destruct (list_set_spec _ _ _ _ E2) as [_ P2].
  assert (Hx1j : nth_error x1 j = Some xj).
  { rewrite N1. destruct (Nat.eqb_spec j i); congruence. }
  exists x2. split.
  - apply Permutation_cons_inv with (a := xj).
    rewrite (P2 xj Hx1j). now rewrite (P1 xi Ei).
  - intros w. unfold swap, bind, getitem.
    rewrite Ej; cbn. rewrite Ei; cbn. rewrite E1; cbn. now rewrite E2.
Qed.

Lemma spec_swap (x : list A) i j :
  i < length x -> j < length x -> spec (swap x i j) (Permutation x).
Proof.
  intros Hi Hj w. destruct (swap_run x i j Hi Hj) as (y & P & ->).
  split; [exact P | now destruct w].
Qed.

Lemma stable_swap (x : list A) i j : stable (swap x i j).
Proof.
  unfold swap. repeat (apply stable_bind; [apply stable_or_raise | intros]).
  apply stable_or_raise.
Qed.

Lemma can_return_swap (x : list A) i j :
  i < length x -> j < length x -> can_return (swap x i j).
Proof.
  intros Hi Hj w. destruct (swap_run x i j Hi Hj) as (y & _ & E).
  exists [], y, w. rewrite more_draws_nil. apply E.
Qed.

Lemma spec_shuffle_from i : forall x : list A,
  i < length x \/ i = 0 -> spec (shuffle_from i x) (Permutation x).
Proof.
  induction i as [|i IH]; intros x Hi; simpl.
  - now apply spec_ret.
  - destruct Hi as [Hi|]; [|discriminate].
    eapply spec_bind; [apply (spec_randbelow (S i + 1)); lia|]. intros j Hj.
    cbv beta in Hj.
    eapply spec_bind; [apply spec_swap; lia|]. intros y P.
    eapply spec_weaken; [|apply IH].
    + intros z Pz. now rewrite P.
    + left. rewrite <- (Permutation_length P). lia.
Qed.

Lemma stable_shuffle_from i : forall x : list A, stable (shuffle_from i x).
Proof.
  induction i as [|i IH]; intros x; simpl; [apply stable_ret|].
  apply stable_bind; [apply stable_randbelow|]. intros j.
  apply stable_bind; [apply stable_swap | exact IH].
Qed.

Lemma can_return_shuffle_from i : forall x : list A,
  i < length x \/ i = 0 -> can_return (shuffle_from i x).
Proof.
  induction i as [|i IH]; intros x Hi; simpl; [apply can_return_ret|].
  destruct Hi as [Hi|]; [|discriminate].
  eapply can_return_bind;
    [apply (spec_randbelow (S i + 1)); lia | apply stable_randbelow
    | apply can_return_randbelow |]. intros j Hj. cbv beta in Hj.
  eapply can_return_bind;
    [apply spec_swap; lia | apply stable_swap | apply can_return_swap; lia |].
  intros y P. apply IH. left. rewrite <- (Permutation_length P). lia.
Qed.

Lemma shuffle_index (x : list A) : length x - 1 < length x \/ length x - 1 = 0.
Proof. destruct x; simpl; [now right | left; lia]. Qed.

Lemma spec_random_shuffle (x : list A) : spec (random_shuffle x) (Permutation x).
Proof. apply spec_shuffle_from, shuffle_index. Qed.

Lemma stable_random_shuffle (x : list A) : stable (random_shuffle x).
Proof. apply stable_shuffle_from. Qed.

Lemma can_return_random_shuffle (x : list A) : can_return (random_shuffle x).
Proof. apply can_return_shuffle_from, shuffle_index. Qed.

End Shuffle.

Section Filter.

Lemma can_return_bind_post {A B : Type} (m : M A) (k : A -> M B) (Q : A -> Prop) :
  (forall w a w', m w = Ret a w' -> Q a) -> stable m -> can_return m ->
  (forall a, Q a -> can_return (k a)) -> can_return (bind m k).
Proof.
  intros Hs Hst Hm Hk w.
  destruct (Hm w) as (m1 & a & w1 & E1).
  destruct (Hk a (Hs _ _ _ E1) w1) as (m2 & b & w2 & E2).
  exists (m1 ++ m2)%list, b, w2.
  rewrite more_draws_app. unfold bind.
  now rewrite (Hst _ m2 _ _ E1).
Qed.

Lemma spec_random_randint a b :
  a <= b -> spec (random_randint a b) (fun k => a <= k <= b).
Proof.
  intros H. unfold random_randint.
  destruct (Nat.ltb_spec b a); [lia|].
  eapply spec_bind; [apply (spec_randbelow (b - a + 1)); lia|].
  intros k Hk. cbv beta in Hk. apply spec_ret. lia.
Qed.

Lemma stable_random_randint a b : stable (random_randint a b).
Proof.
  unfold random_randint. destruct (b <? a)%nat; [discriminate|].
  apply stable_bind; [apply stable_randbelow | intros; apply stable_ret].
Qed.

Lemma can_return_random_randint a b : a <= b -> can_return (random_randint a b).
Proof.
  intros H. unfold random_randint.
  destruct (Nat.ltb_spec b a); [lia|].
  eapply can_return_bind;
    [apply (spec_randbelow (b - a + 1)); lia | apply stable_randbelow
    | apply can_return_randbelow |].
  intros. apply can_return_ret.
Qed.

Lemma stable_print line : stable (print line).
Proof. intros w more [] w' [= <-]. reflexivity. Qed.

Lemma can_return_print line : can_return (print line).
Proof. intros w. exists []. rewrite more_draws_nil. unfold print. eauto. Qed.

Lemma odd_length {A : Type} (l : list A) :
  (length l mod 2 =? 0)%nat = false -> length l mod 2 = 1 /\ 0 < length l.
Proof.
  intros H. apply Nat.eqb_neq in H.
  pose proof (Nat.mod_upper_bound (length l) 2).
  split; [lia|]. destruct l; simpl in *; [congruence | lia].
Qed.

(** A completed [shuffle_and_filter_nodes] returns the nodes in some
    order: all of them when their number is even, and all but one, which
    it has printed as excluded, when it is odd. *)
Lemma shuffle_and_filter_nodes_run nodes w :
  runs (shuffle_and_filter_nodes nodes w) (fun l w' =>
    (length nodes mod 2 = 0 /\ Permutation nodes l /\
     w' = set_draws (draws w') w) \/
    (length nodes mod 2 = 1 /\ exists x,
        Permutation nodes (x :: l) /\
        w' = set_stdout (stdout w ++ [exclusion_message x])%list
               (set_draws (draws w') w))).
Proof.
  unfold shuffle_and_filter_nodes. unfold bind at 1.
  pose proof (spec_random_shuffle nodes w) as Hs.
  destruct (random_shuffle nodes w) as [l w1| | |]; auto.
  destruct Hs as [P Hw1].
  destruct (length l mod 2 =? 0)%nat eqn:Hev; cbn [negb].
  - left. rewrite (Permutation_length P).
    apply Nat.eqb_eq in Hev. auto.
  - apply odd_length in Hev as [Hodd Hpos].
    unfold bind at 1.
    pose proof (spec_random_randint 0 (length l - 1) (Nat.le_0_l _) w1) as Hr.
    destruct (random_randint 0 (length l - 1) w1) as [idx w2| | |]; auto.
    destruct Hr as [[_ Hidx] Hw2].
    destruct (list_pop_some idx l) as (x & l' & Hpop); [lia|].
    destruct (list_pop_spec _ _ _ _ Hpop) as [Hx Pl].
    unfold bind, getitem. rewrite Hx, Hpop. cbn.
    right. split; [now rewrite (Permutation_length P)|].
    exists x. split; [now rewrite P|].
    destruct w, w1, w2. unfold set_draws, set_stdout in *. simpl in *.
    congruence.
Qed.

Lemma stable_shuffle_and_filter_nodes nodes : stable (shuffle_and_filter_nodes nodes).
Proof.
  unfold shuffle_and_filter_nodes.
  apply stable_bind; [apply stable_random_shuffle|]. intros l.
  destruct (negb (length l mod 2 =? 0)%nat); [|apply stable_ret].
  apply stable_bind; [apply stable_random_randint|]. intros idx.
  apply stable_bind; [apply stable_getitem|]. intros x.
  apply stable_bind; [apply stable_print|]. intros _.
  apply stable_bind; [apply stable_or_raise | intros; apply stable_ret].
Qed.

Lemma can_return_shuffle_and_filter_nodes nodes :
  can_return (shuffle_and_filter_nodes nodes).
Proof.
  unfold shuffle_and_filter_nodes.
  eapply can_return_bind;
    [apply spec_random_shuffle | apply stable_random_shuffle
    | apply can_return_random_shuffle |]. intros l _.
  destruct (length l mod 2 =? 0)%nat eqn:Hev; cbn [negb];
    [apply can_return_ret|].
  apply odd_length in Hev as [_ Hpos].
  eapply can_return_bind;
    [apply (spec_random_randint 0 (length l - 1)); lia
    | apply stable_random_randint
    | apply can_return_random_randint; lia |].
  intros idx Hidx. cbv beta in Hidx.
  destruct (list_pop_some idx l) as (x & l' & Hpop); [lia|].
  destruct (list_pop_spec _ _ _ _ Hpop) as [Hx _].
  unfold getitem. rewrite Hx, Hpop. cbn [or_raise].
  eapply can_return_bind;
    [now apply (spec_ret x (eq x)) | apply stable_ret | apply can_return_ret |].
  intros ? <-.
  eapply can_return_bind_post with (Q := fun _ => True);
    [auto | apply stable_print | apply can_return_print |]. intros _ _.
  eapply can_return_bind;
    [now apply (spec_ret (x, l') (eq (x, l'))) | apply stable_ret
    | apply can_return_ret |].
  intros. apply can_return_ret.
Qed.

End Filter.

(** * The pairing stage *)

Section PairingStage.

Lemma even_rest (rest : list string) n k :
  length rest <= 1 -> n mod 2 = 0 -> n = length rest + 2 * k -> rest = [].
Proof.
  intros Hr Hn E. pose proof (Nat.div_mod_eq n 2) as D.
  destruct rest as [|a [|b rest]]; simpl in *; [reflexivity | lia | lia].
Qed.

(** A completed pairing stage has paired every node it kept, each pair
    with two different members. *)
Lemma pairing_stage_run nodes w :
  runs (pairing_stage nodes w) (fun pairs w' =>
    exists ps,
      pairs = map encode ps /\ Forall distinct_members ps /\
      ((length nodes mod 2 = 0 /\ Permutation nodes (members ps) /\
        w' = set_draws (draws w') w) \/
       (length nodes mod 2 = 1 /\ exists x,
           Permutation nodes (x :: members ps) /\
           w' = set_stdout (stdout w ++ [exclusion_message x])%list
                  (set_draws (draws w') w)))).
Proof.
  unfold pairing_stage, bind.
  pose proof (shuffle_and_filter_nodes_run nodes w) as Hs.
  destruct (shuffle_and_filter_nodes nodes w) as [l w1| | |]; auto.
  pose proof (spec_create_pairs l w1) as Hc.
  destruct (create_pairs l w1) as [pairs w2| | |]; auto.
  destruct Hc as [(ps & rest & Hp & Pl & Hd & Hr) Hw2]. cbn [runs] in *.
  exists ps. split; [exact Hp|]. split; [exact Hd|].
  destruct Hs as [(Hev & P & Hw1) | (Hodd & x & P & Hw1)].
  - left. split; [exact Hev|].
    assert (rest = []) as ->.
    { apply (even_rest rest (length nodes) (length ps) Hr Hev).
      rewrite (Permutation_length P), (Permutation_length Pl).
      now rewrite length_app, members_length. }
    split; [now rewrite P, Pl|].
    destruct w, w1, w2. unfold set_draws in *. simpl in *. congruence.
  - right. split; [exact Hodd|]. exists x.
    assert (rest = []) as ->.
    { apply (even_rest rest (length l) (length ps) Hr).
      - apply Permutation_length in P. simpl in P.
        pose proof (Nat.div_mod_eq (length nodes) 2).
        pose proof (Nat.div_mod_eq (length l) 2).
        pose proof (Nat.mod_upper_bound (length l) 2). lia.
      - now rewrite (Permutation_length Pl), length_app, members_length. }
    split; [now rewrite P, Pl|].
    destruct w, w1, w2. unfold set_draws, set_stdout in *. simpl in *.
    congruence.
Qed.

Lemma can_return_pairing_stage nodes :
  NoDup nodes -> can_return (pairing_stage nodes).
Proof.
  intros Hnd. unfold pairing_stage.
  eapply can_return_bind_post with (Q := fun l => NoDup l).
  - intros w l w' E. pose proof (shuffle_and_filter_nodes_run nodes w) as Hs.
    rewrite E in Hs. simpl in Hs.
    destruct Hs as [(_ & P & _) | (_ & x & P & _)].
    + now apply (Permutation_NoDup P).
    + apply (Permutation_NoDup P) in Hnd. now inversion Hnd.
  - apply stable_shuffle_and_filter_nodes.
  - apply can_return_shuffle_and_filter_nodes.
  - intros l Hl. now apply can_return_create_pairs.
Qed.

(** Nodes that are all the same keep the re-draw loop running: no
    iteration of [create_pairs] on them returns. *)
Lemma create_pairs_body_same x nodes pairs w :
  2 <= length nodes -> (forall y, In y nodes -> y = x) ->
  create_pairs_body (nodes, pairs) w = OutOfDraws.
Proof.
  intros Hlen Hall.
  assert (Hne : nodes <> []) by (intros ->; simpl in Hlen; lia).
  unfold create_pairs_body. unfold bind at 1.
  pose proof (spec_random_choice nodes Hne w) as H1.
  destruct (random_choice nodes w) as [n1 w1| | |]; try tauto.
  destruct H1 as [H1 _]. apply Hall in H1. subst n1.
  unfold bind at 1.
  pose proof (spec_random_choice nodes Hne w1) as H2.
  destruct (random_choice nodes w1) as [n2 w2| | |]; try tauto.
  destruct H2 as [H2 _]. apply Hall in H2. subst n2.
  unfold bind at 1.
  replace (redraw nodes x x w2) with (@OutOfDraws string); [reflexivity|].
  symmetry. apply redraw_running; [exact Hne|].
  apply Forall_forall. intros r _.
  destruct (nth_error nodes (r mod length nodes)) as [y|] eqn:E.
  - f_equal. apply Hall. eapply nth_error_In, E.
  - apply nth_error_None in E.
    pose proof (Nat.mod_upper_bound r (length nodes)). lia.
Qed.

Lemma create_pairs_same x nodes w :
  2 <= length nodes -> (forall y, In y nodes -> y = x) ->
  create_pairs nodes w = OutOfDraws.
Proof.
  intros Hlen Hall. unfold create_pairs. unfold bind at 1.
  assert (Hc : (1 <? length nodes)%nat = true) by (apply Nat.ltb_lt; lia).
  replace (length nodes) with (S (length nodes - 1)) at 1 by lia.
  rewrite while_unfold. cbn [fst]. rewrite Hc. unfold bind at 1.
  now rewrite (create_pairs_body_same x).
Qed.

End PairingStage.

(** C1, as stated, fails: on a list in which one identifier occurs twice
    the pairing stage has no run that produces pairs. *)
Lemma pairing_stage_duplicate :
  ~ exists w pairs w', pairing_stage ["a"; "a"] w = Ret pairs w'.
Proof.
  intros (w & pairs & w' & E). revert E. unfold pairing_stage, bind.
  pose proof (shuffle_and_filter_nodes_run ["a"; "a"] w) as Hs.
  destruct (shuffle_and_filter_nodes ["a"; "a"] w) as [l w1| | |];
    try discriminate.
  destruct Hs as [(_ & P & _) | (Hodd & _)]; [|discriminate].
  rewrite (create_pairs_same "a"); [discriminate | |].
  - now rewrite <- (Permutation_length P).
  - intros y Hy. apply (Permutation_in _ (Permutation_sym P)) in Hy.
    simpl in Hy. intuition.
Qed.

(** C1, amended.  For a node list whose identifiers are pairwise
    distinct, the pairing stage can always run to its end, it never
    raises, and when it has returned its pairs are a partition: the
    members of the pairs are pairwise distinct nodes, no pair has two
    equal members, and for an even size N there are N/2 pairs whose
    members are exactly the nodes, while for an odd size N there are
    (N-1)/2 pairs whose members are exactly the nodes but one, which is
    the node printed as excluded. *)
Theorem pairing_partitions nodes :
  NoDup nodes ->
  can_return (pairing_stage nodes) /\
  forall w,
    runs (pairing_stage nodes w) (fun pairs w' =>
      exists ps,
        pairs = map encode ps /\ Forall distinct_members ps /\
        NoDup (members ps) /\
        ((length nodes mod 2 = 0 /\ length pairs = length nodes / 2 /\
          Permutation nodes (members ps) /\ stdout w' = stdout w) \/
         (length nodes mod 2 = 1 /\ length pairs = (length nodes - 1) / 2 /\
          exists x,
            ~ In x (members ps) /\ Permutation nodes (x :: members ps) /\
            stdout w' = (stdout w ++ [exclusion_message x])%list))).
Proof.
  intros Hnd. split; [now apply can_return_pairing_stage|].
  intros w. pose proof (pairing_stage_run nodes w) as H.
  destruct (pairing_stage nodes w) as [pairs w'| | |]; auto.
  destruct H as (ps & Hp & Hd & H). cbn [runs].
  exists ps. split; [exact Hp|]. split; [exact Hd|].
  assert (Hl : length pairs = length ps) by (rewrite Hp; apply length_map).
  destruct H as [(Hev & P & Hw) | (Hodd & x & P & Hw)].
  - split; [now apply (Permutation_NoDup P)|]. left.
    split; [exact Hev|]. split; [|split; [exact P | now rewrite Hw]].
    apply Permutation_length in P. rewrite members_length in P.
    rewrite Hl, P, Nat.mul_comm. symmetry. now apply Nat.div_mul.
  - apply (Permutation_NoDup P) in Hnd. inversion Hnd as [|? ? Hx Hm]; subst.
    split; [exact Hm|]. right.
    split; [exact Hodd|]. split.
    + apply Permutation_length in P. simpl in P. rewrite members_length in P.
      rewrite Hl, P, Nat.sub_succ, Nat.sub_0_r, Nat.mul_comm.
      symmetry. now apply Nat.div_mul.
    + exists x. split; [exact Hx|]. split; [exact P | now rewrite Hw].
Qed.

Lemma pairing_partitions_witness :
  can_return (pairing_stage ["n1"; "n2"; "n3"]).
Proof.
  apply (pairing_partitions ["n1"; "n2"; "n3"]).
  repeat constructor; simpl; intuition discriminate.
Defined.

(** C5.  On the empty node list the pairing stage returns no pair,
    draws nothing and prints nothing; on a list of one node it takes one
    draw, prints that node as excluded and returns no pair. *)
Theorem pairing_small_lists :
  (forall w, pairing_stage [] w = Ret [] w) /\
  (forall x r rest out fs ds sp,
      pairing_stage [x] (mkWorld (r :: rest) out fs ds sp)
      = Ret [] (mkWorld rest (out ++ [exclusion_message x])%list fs ds sp)).
Proof.
  split.
  - intros w. reflexivity.
  - intros. reflexivity.
Qed.

Section Termination.

Lemma while_body_ret {S : Type} (cond : S -> bool) (body : S -> M S) fuel s w s' w' :
  cond s = true -> body s w = Ret s' w' ->
  while (Datatypes.S fuel) cond body s w = while fuel cond body s' w'.
Proof. intros Hc Hb. rewrite while_unfold, Hc. unfold bind. now rewrite Hb. Qed.

Lemma while_body_out {S : Type} (cond : S -> bool) (body : S -> M S) fuel s w :
  cond s = true -> body s w = OutOfDraws ->
  while (Datatypes.S fuel) cond body s w = OutOfDraws.
Proof. intros Hc Hb. rewrite while_unfold, Hc. unfold bind. now rewrite Hb. Qed.

(** With the nodes [a; a; b; c], once [b] and [c] have been paired the
    two nodes left are the same, and no further draws end the call. *)
Lemma create_pairs_duplicates_left more :
  create_pairs ["a"; "a"; "b"; "c"] (mkWorld (2 :: 3 :: more) [] [] [] [])
  = OutOfDraws.
Proof.
  unfold create_pairs, bind. cbn [length].
  rewrite (while_body_ret _ _ _ _ _ (["a"; "a"], ["b,c"])
             (mkWorld more [] [] [] [])); [|reflexivity|reflexivity].
  rewrite while_body_out; [reflexivity | reflexivity |].
  apply (create_pairs_body_same "a"); [simpl; lia|].
  simpl. intuition.
Qed.



End Termination.




(** * The whole run *)

Section WholeRun.

(** A completed [main] has submitted one script per pair of the pairing
    stage, in order, and has run no other child process. *)
Lemma main_submissions child nodelist_file omb_name mpi_cmd w w' :
  main child nodelist_file omb_name mpi_cmd w = Ret tt w' ->
  exists nodes pairs w1,
    read_file nodelist_file w = Ret nodes w /\
    pairing_stage nodes w = Ret pairs w1 /\
    spawned w' = (spawned w ++ submissions 0 (sanitize omb_name) pairs)%list.
Proof.
  unfold main. unfold bind at 1.
  pose proof (read_file_frame nodelist_file w) as Hr.
  destruct (read_file nodelist_file w) as [nodes w0| | |]; try discriminate.
  subst w0.
  unfold bind at 1. intros H. exists nodes.
  pose proof (pairing_stage_run nodes w) as Hp.
  unfold pairing_stage in *. unfold bind at 1 in Hp.
  destruct (shuffle_and_filter_nodes nodes w) as [l w0| | |] eqn:E1;
    try discriminate.
  unfold bind at 1 in H.
  destruct (create_pairs l w0) as [pairs w1| | |] eqn:E2; try discriminate.
  exists pairs, w1. split; [reflexivity|].
  split; [unfold bind; now rewrite E1|].
  apply for_enumerate_submissions in H. rewrite H. f_equal.
  cbn [runs] in Hp.
  destruct Hp as (_ & _ & _ & [(_ & _ & ->) | (_ & x & _ & ->)]); reflexivity.
Qed.

End WholeRun.

Example main_world_c :
  match main (fun _ _ => Some 1) "nodes.txt" "lib/2.1" "srun" world_c with
  | Ret _ w => spawned w
  | _ => []
  end
  = [["sbatch"; "log/bibw_0_lib-2.1_n4_n1.sh"];
     ["sbatch"; "log/bibw_1_lib-2.1_n2_n3.sh"]].
Proof. vm_compute. reflexivity. Qed.

(** * Further properties of the code *)

(** ** Node lists written one identifier per line *)

Section NodeListFiles.

Lemma readlines_line l rest :
  Py.mem Py.nl l = false ->
  Py.readlines (l ++ String Py.nl rest)
  = (l ++ String Py.nl EmptyString) :: Py.readlines rest.
Proof.
  induction l as [|c l IH]; simpl; intros H; [reflexivity|].
  apply orb_false_iff in H as [Hc Hl]. now rewrite Hc, (IH Hl).
Qed.

Lemma readlines_unlines ls :
  Forall (fun l => Py.mem Py.nl l = false) ls ->
  Py.readlines (unlines ls) = map (fun l => l ++ String Py.nl EmptyString) ls.
Proof.
  induction 1 as [|l ls Hl _ IH]; simpl; [reflexivity|].
  now rewrite readlines_line, IH.
Qed.

Lemma universal_newlines_line l rest :
  Py.mem Py.cr l = false ->
  Py.universal_newlines (l ++ String Py.nl rest)
  = l ++ String Py.nl (Py.universal_newlines rest).
Proof.
  induction l as [|c l IH]; simpl; intros H; [reflexivity|].
  apply orb_false_iff in H as [Hc Hl]. now rewrite Hc, (IH Hl).
Qed.

Lemma universal_newlines_crlf l rest :
  Py.mem Py.cr l = false ->
  Py.universal_newlines (l ++ String Py.cr (String Py.nl rest))
  = l ++ String Py.nl (Py.universal_newlines rest).
Proof.
  induction l as [|c l IH]; simpl; intros H; [reflexivity|].
  apply orb_false_iff in H as [Hc Hl]. now rewrite Hc, (IH Hl).
Qed.

Lemma universal_newlines_unlines ls :
  Forall (fun l => Py.mem Py.cr l = false) ls ->
  Py.universal_newlines (unlines ls) = unlines ls /\
  Py.universal_newlines (crlf_lines ls) = unlines ls.
Proof.
  induction 1 as [|l ls Hl _ [IH1 IH2]]; simpl; [now split|].
  now rewrite universal_newlines_line, universal_newlines_crlf, IH1, IH2.
Qed.

Lemma strip_lines_unlines nodes :
  Forall plain nodes -> strip_lines (unlines nodes) = nodes.
Proof.
  intros H. unfold strip_lines. rewrite readlines_unlines.
  - rewrite map_map. induction H as [|n ns (_ & _ & Hn) _ IH]; simpl; [reflexivity|].
    rewrite strip_line_feed. now rewrite Hn, IH.
  - eapply Forall_impl; [|exact H]. now intros n (Hn & _).
Qed.

End NodeListFiles.

(** X1.  A node list written one identifier per line, each line ended by
    a line feed or by a carriage return and a line feed, reads back as
    exactly these identifiers, in order, provided the system accepts the
    path name as the name of a file, the bytes of the file decode as
    UTF-8 and no identifier holds a line break or has a white-space
    character at its ends (the empty identifier of a blank line
    included). *)
Theorem read_file_round_trip nodes p w f :
  Forall plain nodes ->
  file_error p = None ->
  lookup_file (Py.components p) (files w) = Some f ->
  content f = unlines nodes \/ content f = crlf_lines nodes ->
  Py.utf8 (content f) = true ->
  read_file p w = Ret nodes w.
Proof.
  intros Hn Hp Hf Hc Hu. rewrite (read_file_run _ _ _ Hp Hf Hu).
  assert (Hcr : Forall (fun l => Py.mem Py.cr l = false) nodes).
  { eapply Forall_impl; [|exact Hn]. now intros n (_ & H & _). }
  destruct (universal_newlines_unlines nodes Hcr) as [U1 U2].
  destruct Hc as [-> | ->]; rewrite ?U1, ?U2; now rewrite strip_lines_unlines.
Qed.

Lemma read_file_round_trip_witness :
  read_file "nodes.txt"
    (mkWorld [] [] [(["nodes.txt"], mkFile (crlf_lines ["n1"; "n2"]) 420)] [] [])
  = Ret ["n1"; "n2"]
      (mkWorld [] [] [(["nodes.txt"], mkFile (crlf_lines ["n1"; "n2"]) 420)] [] []).
Proof.
  apply (read_file_round_trip ["n1"; "n2"] "nodes.txt" _
           (mkFile (crlf_lines ["n1"; "n2"]) 420)).
  - repeat constructor.
  - reflexivity.
  - reflexivity.
  - now right.
  - reflexivity.
Defined.

(** ** Runs without pairs *)

(** X2.  [main] raises before anything happens when the node list cannot
    be read: with the error of the path name when the system refuses it
    as the name of a file, with [OSError] when there is no such file,
    with [ValueError] when its bytes do not decode.  On a node list without lines it returns
    having drawn, printed, written and submitted nothing; on a node list
    of one line it takes one draw, prints that node as excluded, and
    writes and submits nothing. *)
Theorem main_without_pairs child nodelist_file omb_name mpi_cmd w :
  (forall e, file_error nodelist_file = Some e ->
             main child nodelist_file omb_name mpi_cmd w = Raise e w) /\
  (file_error nodelist_file = None -> plain_path nodelist_file ->
   lookup_file (Py.components nodelist_file) (files w) = None ->
   main child nodelist_file omb_name mpi_cmd w = Raise OSError w) /\
  (forall f,
      file_error nodelist_file = None ->
      lookup_file (Py.components nodelist_file) (files w) = Some f ->
      Py.utf8 (content f) = false ->
      main child nodelist_file omb_name mpi_cmd w = Raise ValueError w) /\
  (read_file nodelist_file w = Ret [] w ->
   main child nodelist_file omb_name mpi_cmd w = Ret tt w) /\
  (forall node r rest,
      read_file nodelist_file w = Ret [node] w ->
      draws w = r :: rest ->
      main child nodelist_file omb_name mpi_cmd w
      = Ret tt (set_stdout (stdout w ++ [exclusion_message node])%list
                  (set_draws rest w))).
Proof.
  split; [|split; [|split; [|split]]].
  - intros e H. unfold main, bind, read_file, bind, read_text, bind, file_path_of.
    now rewrite H.
  - intros Hp _ H.
    unfold main, bind, read_file, bind, read_text, bind, file_path_of.
    now rewrite Hp, H.
  - intros f Hp H Hu.
    unfold main, bind, read_file, bind, read_text, bind, file_path_of.
    now rewrite Hp, H, Hu.
  - intros Hr. unfold main. unfold bind at 1. rewrite Hr. now destruct w.
  - intros node r rest Hr Hd. unfold main. unfold bind at 1. rewrite Hr.
    destruct w as [d o fs ds sp]. simpl in Hd. subst d. reflexivity.
Qed.

Lemma main_without_pairs_witness :
  main (fun _ _ => Some 0) "nodes.txt" "lib/2.1" "srun"
    (mkWorld [7] [] [(["nodes.txt"], mkFile (unlines [" n1 "]) 420)] [] [])
  = Ret tt
      (mkWorld [] [exclusion_message "n1"]
         [(["nodes.txt"], mkFile (unlines [" n1 "]) 420)] [] []).
Proof.
  apply (proj2 (proj2 (proj2 (proj2
           (main_without_pairs (fun _ _ => Some 0) "nodes.txt" "lib/2.1" "srun"
              (mkWorld [7] [] [(["nodes.txt"],
                                mkFile (unlines [" n1 "]) 420)] [] [])))))
           "n1" 7 []);
    reflexivity.
Defined.

(** ** shuffle_and_filter_nodes always returns *)

Section ShuffleTotal.

Lemma shuffle_from_total {A : Type} i : forall (x : list A) w,
  i < length x \/ i = 0 -> i <= length (draws w) ->
  exists y, Permutation x y /\
            shuffle_from i x w = Ret y (set_draws (skipn i (draws w)) w).
Proof.
  induction i as [|i IH]; intros x w Hi Hd; simpl.
  - exists x. split; [reflexivity | now destruct w].
  - destruct Hi as [Hi|]; [|discriminate].
    destruct (draws w) as [|r rest] eqn:E; simpl in Hd; [lia|].
    assert (Hj : r mod (S i + 1) < length x).
    { pose proof (Nat.mod_upper_bound r (S i + 1)). lia. }
    destruct (swap_run x (S i) (r mod (S i + 1)) Hi Hj) as (y1 & P1 & Hs).
    destruct (IH y1 (set_draws rest w)) as (y & P & Hy).
    { left. rewrite <- (Permutation_length P1). lia. }
    { simpl. lia. }
    exists y. split; [now rewrite P1|].
    unfold bind, randbelow. rewrite E, Hs. exact Hy.
Qed.

Lemma random_shuffle_total {A : Type} (x : list A) w :
  length x - 1 <= length (draws w) ->
  exists y, Permutation x y /\
            random_shuffle x w
            = Ret y (set_draws (skipn (length x - 1) (draws w)) w).
Proof. intros H. apply shuffle_from_total; [apply shuffle_index | exact H]. Qed.

End ShuffleTotal.

(** X4.  [shuffle_and_filter_nodes] has no loop that waits for a
    draw: given as many draws as there are nodes it returns, never
    raising.  It uses one draw per node but the first for the shuffle and
    one more, for the exclusion, when the number of nodes is odd; the list
    it returns has even length: the nodes in some order, without the one
    it printed when their number is odd. *)
Theorem shuffle_and_filter_nodes_total nodes w :
  length nodes <= length (draws w) ->
  exists l w',
    shuffle_and_filter_nodes nodes w = Ret l w' /\
    length l mod 2 = 0 /\
    draws w' = skipn (length nodes - 1 + length nodes mod 2) (draws w) /\
    ((length nodes mod 2 = 0 /\ Permutation nodes l /\ stdout w' = stdout w) \/
     (length nodes mod 2 = 1 /\ exists x,
         Permutation nodes (x :: l) /\
         stdout w' = (stdout w ++ [exclusion_message x])%list)).
Proof.
  intros Hd.
  destruct (random_shuffle_total nodes w) as (y & P & Hy); [lia|].
  pose proof (Permutation_length P) as Hlen.
  unfold shuffle_and_filter_nodes. unfold bind at 1. rewrite Hy.
  destruct (length y mod 2 =? 0)%nat eqn:Hev; cbn [negb].
  - apply Nat.eqb_eq in Hev. exists y. eexists. split; [reflexivity|].
    rewrite Hlen, Hev, Nat.add_0_r. cbn [draws set_draws stdout].
    repeat split; auto.
  - apply odd_length in Hev as [Hodd Hpos].
    set (w1 := set_draws (skipn (length nodes - 1) (draws w)) w).
    assert (Hrest : exists r rest, skipn (length nodes - 1) (draws w) = r :: rest).
    { destruct (skipn (length nodes - 1) (draws w)) as [|r rest] eqn:E; [|eauto].
      apply (f_equal (@length nat)) in E. rewrite length_skipn in E.
      simpl in E. lia. }
    destruct Hrest as (r & rest & Hr).
    assert (Hidx : r mod (length y - 1 - 0 + 1) < length y).
    { pose proof (Nat.mod_upper_bound r (length y - 1 - 0 + 1)). lia. }
    destruct (list_pop_some _ y Hidx) as (x & l & Hpop).
    destruct (list_pop_spec _ _ _ _ Hpop) as [Hx Pl].
    exists l. eexists. split.
    + unfold bind, random_randint, bind, randbelow, getitem.
      cbn [Nat.ltb Nat.leb]. unfold w1. cbn [draws set_draws].
      rewrite Hr. cbn. rewrite Hx. cbn. rewrite Hpop. cbn. reflexivity.
    + cbn [draws stdout set_draws set_stdout].
      pose proof (Permutation_length Pl) as Hl. simpl in Hl.
      pose proof (Nat.div_mod_eq (length y) 2).
      pose proof (Nat.div_mod_eq (length l) 2).
      pose proof (Nat.mod_upper_bound (length l) 2).
      split; [lia|]. split.
      * rewrite Hlen, Hodd.
        replace (length y - 1 + 1) with (1 + (length y - 1)) by lia.
        rewrite <- skipn_skipn, <- Hlen, Hr. reflexivity.
      * right. split; [now rewrite Hlen|]. exists x.
        split; [now rewrite P|reflexivity].
Qed.

Lemma shuffle_and_filter_nodes_total_witness :
  exists l w',
    shuffle_and_filter_nodes ["n1"; "n2"; "n3"] (set_draws [5; 5; 5] world_a)
    = Ret l w' /\ length l mod 2 = 0.
Proof.
  destruct (shuffle_and_filter_nodes_total ["n1"; "n2"; "n3"]
              (set_draws [5; 5; 5] world_a)) as (l & w' & H & Hl & _).
  - simpl. lia.
  - exists l, w'. split; assumption.
Defined.

(** ** What create_pairs returns on any list *)

Section PairsOfAnyList.


Lemma members_in ps a b : In (a, b) ps -> In a (members ps) /\ In b (members ps).
Proof.
  induction ps as [|p ps IH]; simpl; [intros []|].
  intros [->|H]; simpl; [auto|]. destruct (IH H). auto.
Qed.

(** The leftover of a list that has been paired. *)
Lemma leftover_length (rest : list string) n k :
  length rest <= 1 -> n = length rest + 2 * k ->
  length rest = n mod 2 /\ k = n / 2.
Proof.
  intros Hr E. pose proof (Nat.div_mod_eq n 2).
  pose proof (Nat.mod_upper_bound n 2). lia.
Qed.

End PairsOfAnyList.

(** X5.  On a list of fewer than two nodes [create_pairs] returns no
    pair and draws nothing, so a single node is dropped without a word.
    On any list, repeated identifiers or not, it never raises, and when it
    returns it has made [len(nodes) // 2] pairs, no pair with two equal
    identifiers; their members and one leftover node, when the length is
    odd, are the nodes it was given, and it has touched nothing but the
    draws. *)
Theorem create_pairs_count :
  (forall nodes w, length nodes <= 1 -> create_pairs nodes w = Ret [] w) /\
  (forall nodes w,
      runs (create_pairs nodes w) (fun pairs w' =>
        length pairs = length nodes / 2 /\
        w' = set_draws (draws w') w /\
        exists ps rest,
          pairs = map encode ps /\ Forall distinct_members ps /\
          length rest = length nodes mod 2 /\
          Permutation nodes (rest ++ members ps)%list)).
Proof.
  split.
  - intros nodes w H. unfold create_pairs, bind.
    destruct nodes as [|a [|b l]]; simpl in *; try lia; reflexivity.
  - intros nodes w. pose proof (spec_create_pairs nodes w) as H.
    destruct (create_pairs nodes w) as [pairs w'| | |]; auto.
    destruct H as [(ps & rest & Hp & P & Hd & Hr) Hw]. cbn [runs].
    destruct (leftover_length rest (length nodes) (length ps) Hr) as [H1 H2].
    { now rewrite (Permutation_length P), length_app, members_length. }
    split; [now rewrite Hp, length_map|]. split; [exact Hw|].
    exists ps, rest. auto.
Qed.

Lemma create_pairs_count_witness : create_pairs ["n1"] world_a = Ret [] world_a.
Proof. apply (proj1 create_pairs_count). simpl. lia. Defined.



(** X7.  Every pair [create_pairs] makes from identifiers without a
    comma splits back into two different nodes of the list, so
    [generate_job_script] does not raise on it and renders the script of
    these two nodes. *)
Theorem created_pairs_decode nodes w :
  Forall (fun node => Py.mem Py.comma node = false) nodes ->
  runs (create_pairs nodes w) (fun pairs _ =>
    Forall (fun pair => exists node1 node2,
                In node1 nodes /\ In node2 nodes /\ node1 <> node2 /\
                pair = encode_pair node1 node2 /\
                forall i omb_name mpi_cmd tag w',
                  generate_job_script i pair omb_name mpi_cmd tag w'
                  = Ret (job_script i node1 node2 omb_name mpi_cmd tag) w')
      pairs).
Proof.
  intros Hn. pose proof (spec_create_pairs nodes w) as H.
  destruct (create_pairs nodes w) as [pairs w'| | |]; auto.
  destruct H as [(ps & rest & -> & P & Hd & _) _]. cbn [runs].
  apply Forall_map. apply Forall_forall. intros [a b] Hab.
  destruct (members_in ps a b Hab) as [Ha Hb].
  assert (Hin : forall y, In y (members ps) -> In y nodes).
  { intros y Hy. apply (Permutation_in _ (Permutation_sym P)).
    apply in_or_app. now right. }
  rewrite Forall_forall in Hn, Hd.
  exists a, b. repeat split; auto.
  - exact (Hd _ Hab).
  - intros. apply generate_job_script_encoded; auto.
Qed.

Lemma created_pairs_decode_witness :
  runs (create_pairs ["n1"; "n2"] world_c) (fun pairs _ =>
    Forall (fun pair => exists node1 node2,
                In node1 ["n1"; "n2"] /\ In node2 ["n1"; "n2"] /\
                node1 <> node2 /\ pair = encode_pair node1 node2 /\
                forall i omb_name mpi_cmd tag w',
                  generate_job_script i pair omb_name mpi_cmd tag w'
                  = Ret (job_script i node1 node2 omb_name mpi_cmd tag) w')
      pairs).
Proof.
  apply (created_pairs_decode ["n1"; "n2"] world_c).
  repeat constructor.
Defined.

(** ** The pair string and the lines of the script *)

Section ScriptText.

Lemma split_fields sep s : Forall (fun f => Py.mem sep f = false) (Py.split sep s).
Proof.
  induction s as [|c s IH]; simpl; [now repeat constructor|].
  destruct (Ascii.eqb c sep) eqn:Hc; [now constructor|].
  destruct (Py.split sep s) as [|f fs]; [now repeat constructor; simpl; rewrite Hc|].
  inversion IH; subst. constructor; [|assumption]. simpl. now rewrite Hc.
Qed.

(** [sep.join(s.split(sep))] is [s]. *)
Lemma split_concat sep s :
  String.concat (String sep EmptyString) (Py.split sep s) = s.
Proof.
  induction s as [|c s IH]; simpl; [reflexivity|].
  destruct (Ascii.eqb_spec c sep) as [->|Hc].
  - destruct (Py.split sep s) as [|f fs] eqn:E; [now apply split_nonempty in E|].
    transitivity (String sep (String.concat (String sep EmptyString) (f :: fs)));
      [reflexivity | now rewrite IH].
  - destruct (Py.split sep s) as [|f fs] eqn:E; [now apply split_nonempty in E|].
    transitivity (String c (String.concat (String sep EmptyString) (f :: fs)));
      [now destruct fs | now rewrite IH].
Qed.

Lemma split_unlines ls :
  Forall no_newline ls ->
  Py.split Py.nl (unlines ls) = (ls ++ [EmptyString])%list.
Proof.
  induction 1 as [|l ls Hl _ IH]; simpl; [reflexivity|].
  now rewrite split_field, IH.
Qed.

Lemma occurrences_unlines c ls :
  occurrences c (unlines ls)
  = fold_right (fun l n => occurrences c l + (if Ascii.eqb Py.nl c then 1 else 0) + n)
      0 ls.
Proof.
  induction ls as [|l ls IH]; [reflexivity|].
  cbn [unlines fold_right]. fold (unlines ls).
  rewrite occurrences_app. cbn [occurrences]. rewrite IH. lia.
Qed.

Lemma occurrences_none c s : occurrences c s = 0 <-> Py.mem c s = false.
Proof.
  induction s as [|d s IH]; simpl; [tauto|].
  destruct (Ascii.eqb d c); simpl; [split; [lia | discriminate] | exact IH].
Qed.

End ScriptText.

(** X8.  [generate_job_script] returns exactly on the pairs with one
    comma, for the two fields around it, and raises [ValueError] on every
    other pair; in both cases the world is left as it is. *)
Theorem generate_job_script_pair_format i pair omb_name mpi_cmd tag w :
  (occurrences Py.comma pair = 1 ->
   exists node1 node2,
     pair = encode_pair node1 node2 /\
     Py.mem Py.comma node1 = false /\ Py.mem Py.comma node2 = false /\
     generate_job_script i pair omb_name mpi_cmd tag w
     = Ret (job_script i node1 node2 omb_name mpi_cmd tag) w) /\
  (occurrences Py.comma pair <> 1 ->
   generate_job_script i pair omb_name mpi_cmd tag w = Raise ValueError w).
Proof.
  pose proof (split_length Py.comma pair) as L.
  pose proof (split_concat Py.comma pair) as C.
  pose proof (split_fields Py.comma pair) as F.
  unfold generate_job_script, unpack_pair, bind.
  destruct (Py.split Py.comma pair) as [|a [|b [|c l]]]; simpl in L; split;
    intros H; try lia; try reflexivity.
  exists a, b. inversion F as [|? ? Ha F']; subst. inversion F'; subst.
  repeat split; auto.
Qed.

Lemma generate_job_script_pair_format_witness :
  generate_job_script 0 "n1,n2,n3" "lib/2.1" "srun" "lib-2.1" world_a
  = Raise ValueError world_a.
Proof.
  apply (proj2 (generate_job_script_pair_format 0 "n1,n2,n3" "lib/2.1" "srun"
                  "lib-2.1" world_a)).
  discriminate.
Defined.

(** X9.  No value is escaped in the script: its number of lines grows
    with every line feed in a node identifier, in the module name, in the
    tag or in the launch command.  When none of them holds a line feed,
    the text splits at line feeds into exactly the eighteen lines of the
    template, of which the last two load the module and run the launch
    command on [osu_bibw]. *)
Theorem job_script_lines_read_back i node1 node2 omb_name mpi_cmd tag :
  length (Py.split Py.nl (job_script i node1 node2 omb_name mpi_cmd tag))
  = 19 + 4 * occurrences Py.nl node1 + 4 * occurrences Py.nl node2
    + 3 * occurrences Py.nl omb_name + occurrences Py.nl tag
    + occurrences Py.nl mpi_cmd /\
  (no_newline node1 -> no_newline node2 -> no_newline omb_name ->
   no_newline tag -> no_newline mpi_cmd ->
   Py.split Py.nl (job_script i node1 node2 omb_name mpi_cmd tag)
   = (job_script_lines i node1 node2 omb_name mpi_cmd tag ++ [EmptyString])%list /\
   skipn 16 (job_script_lines i node1 node2 omb_name mpi_cmd tag)
   = ["module load " ++ omb_name; mpi_cmd ++ " " ++ quoted "osu_bibw"]).
Proof.
  assert (Hi : occurrences Py.nl (Py.str i) = 0).
  { apply occurrences_none, digits_mem; [reflexivity | apply str_digits]. }
  split.
  - rewrite split_length. unfold job_script. rewrite occurrences_unlines.
    unfold job_script_lines, job_name, output_log, quoted.
    cbn [fold_right]. rewrite Ascii.eqb_refl.
    repeat (rewrite occurrences_app; cbn [occurrences append]).
    rewrite Hi. simpl. lia.
  - intros N1 N2 No Nt Nm. split; [|reflexivity].
    unfold job_script. apply split_unlines.
    apply occurrences_none in N1, N2, No, Nt, Nm.
    unfold job_script_lines, job_name, output_log, quoted.
    repeat (constructor;
            [ apply occurrences_none;
              repeat (rewrite occurrences_app; cbn [occurrences append]);
              rewrite ?Hi, ?N1, ?N2, ?No, ?Nt, ?Nm; reflexivity | ]).
    constructor.
Qed.

Lemma job_script_lines_read_back_witness :
  Py.split Py.nl (job_script 0 "n1" "n2" "lib/2.1" "srun" "lib-2.1")
  = (job_script_lines 0 "n1" "n2" "lib/2.1" "srun" "lib-2.1" ++ [EmptyString])%list.
Proof.
  apply (proj2 (job_script_lines_read_back 0 "n1" "n2" "lib/2.1" "srun" "lib-2.1"));
    reflexivity.
Defined.

(** ** Paths of script files *)

Section ScriptPaths.

Lemma path_eqb_refl p : path_eqb p p = true.
Proof. unfold path_eqb. now destruct (list_eq_dec string_dec p p). Qed.

Lemma path_eqb_neq p q : p <> q -> path_eqb p q = false.
Proof. intros H. unfold path_eqb. now destruct (list_eq_dec string_dec p q). Qed.

Lemma lookup_file_other p c f fs :
  p <> c -> lookup_file p ((c, f) :: fs) = lookup_file p fs.
Proof. intros H. simpl. rewrite path_eqb_neq; [reflexivity | congruence]. Qed.

Lemma split_at_separator sep x y :
  Py.split sep (x ++ String sep y) = (Py.split sep x ++ Py.split sep y)%list.
Proof.
  induction x as [|c x IH]; simpl.
  - now rewrite Ascii.eqb_refl.
  - destruct (Ascii.eqb c sep); [now rewrite IH|].
    rewrite IH. destruct (Py.split sep x) as [|f fs] eqn:E;
      [now apply split_nonempty in E | reflexivity].
Qed.

Lemma components_app x y :
  Py.components (x ++ String Py.slash y)
  = (Py.components x ++ Py.components y)%list.
Proof. unfold Py.components. now rewrite split_at_separator, filter_app. Qed.

Lemma components_nil s :
  Py.components s = [] -> forall c, Py.mem c s = true -> c = Py.slash.
Proof.
  unfold Py.components. induction s as [|d s IH]; intros H c Hc;
    [discriminate|].
  cbn [Py.split] in H. cbn [Py.mem] in Hc.
  destruct (Ascii.eqb_spec d Py.slash) as [->|Hd].
  - apply orb_true_iff in Hc as [Hc|Hc].
    + symmetry. now apply Ascii.eqb_eq.
    + now apply IH.
  - destruct (Py.split Py.slash s); discriminate.
Qed.

Lemma mem_split c s :
  Py.mem c s = true -> exists a b, s = a ++ String c b.
Proof.
  induction s as [|d s IH]; simpl; [discriminate|].
  destruct (Ascii.eqb_spec d c) as [->|Hd]; simpl.
  - intros _. now exists EmptyString, s.
  - intros H. destruct (IH H) as (a & b & ->). now exists (String d a), b.
Qed.

Lemma path_error_cases p :
  Py.mem Py.nul p = false ->
  path_error p = None \/ path_error p = Some OSError.
Proof.
  intros H. unfold path_error. rewrite H. destruct (_ && _); auto.
Qed.

Lemma script_name_nul i tag pair :
  Py.mem Py.nul tag = false -> Py.mem Py.nul pair = false ->
  Py.mem Py.nul (script_name i tag pair) = false.
Proof.
  intros Ht Hp. unfold script_name. rewrite !mem_app.
  rewrite (digits_mem Py.nul _ eq_refl (str_digits i)), Ht.
  rewrite mem_replace by discriminate. now rewrite Hp.
Qed.

(** Without a slash in the tag and in the pair, the script is a file of
    the directory [log]. *)
Lemma script_path_plain i tag pair :
  Py.mem Py.slash tag = false -> Py.mem Py.slash pair = false ->
  exists name, Py.components (script_name i tag pair) = ["log"; name].
Proof.
  intros Ht Hp. unfold Py.components, script_name.
  change ("log/bibw_" ++ Py.str i ++ "_" ++ tag ++ "_" ++
          Py.replace Py.comma Py.underscore pair ++ ".sh")
    with ("log" ++ String Py.slash ("bibw_" ++ Py.str i ++ "_" ++ tag ++ "_" ++
          Py.replace Py.comma Py.underscore pair ++ ".sh")).
  rewrite split_field by reflexivity. rewrite split_last.
  - eexists. reflexivity.
  - rewrite !mem_app.
    rewrite (digits_mem Py.slash _ eq_refl (str_digits i)), Ht.
    rewrite mem_replace by discriminate. now rewrite Hp.
Qed.

(** With a slash in the pair, the script lies deeper than [log]. *)
Lemma script_path_deep i tag pair :
  Py.mem Py.slash pair = true ->
  exists d1 d2 more,
    Py.components (script_name i tag pair) = "log" :: d1 :: d2 :: more.
Proof.
  intros Hp.
  assert (Hr : Py.mem Py.slash (Py.replace Py.comma Py.underscore pair) = true).
  { rewrite mem_replace by discriminate. exact Hp. }
  destruct (mem_split _ _ Hr) as (a & b & E).
  assert (En : script_name i tag pair
               = "log" ++ String Py.slash
                   (("bibw_" ++ Py.str i ++ "_" ++ tag ++ "_" ++ a)
                      ++ String Py.slash (b ++ ".sh"))).
  { unfold script_name. rewrite E, !append_assoc. reflexivity. }
  rewrite En, !components_app.
  change (Py.components "log") with ["log"].
  destruct (Py.components ("bibw_" ++ Py.str i ++ "_" ++ tag ++ "_" ++ a))
    as [|d1 l1] eqn:E1.
  { apply components_nil with (c := "b"%char) in E1; [discriminate | reflexivity]. }
  destruct (Py.components (b ++ ".sh")) as [|d2 l2] eqn:E2.
  { apply components_nil with (c := "."%char) in E2; [discriminate|].
    rewrite mem_app. simpl. apply orb_true_r. }
  destruct l1 as [|d l1]; simpl; eauto.
Qed.

End ScriptPaths.

(** ** When an iteration succeeds and when it fails *)

Section LoopBodyOutcome.

Variable child : list string -> world -> option nat.
Variables (omb_name mpi_cmd tag : string).

(** The world once [log] is there. *)
Lemma log_made_frame w :
  let w1 := if is_dir ["log"] w || is_file ["log"] w then w
            else set_dirs (["log"] :: dirs w) w in
  draws w1 = draws w /\ stdout w1 = stdout w /\ files w1 = files w /\
  spawned w1 = spawned w /\
  (dirs w1 = dirs w \/ dirs w1 = ["log"] :: dirs w) /\
  (is_file ["log"] w = false -> is_dir ["log"] w1 = true).
Proof.
  cbv zeta. destruct (is_dir ["log"] w) eqn:Hd; cbn [orb].
  - repeat split; auto.
  - destruct (is_file ["log"] w) eqn:Hf.
    + repeat split; auto; discriminate.
    + repeat split; auto.
Qed.

End LoopBodyOutcome.

(** The run of an iteration in a world fit for it. *)
Lemma main_body_run child omb_name mpi_cmd tag i pair w :
  occurrences Py.comma pair = 1 ->
  Py.mem Py.slash tag = false -> Py.mem Py.slash pair = false ->
  path_error (script_name i tag pair) = None ->
  is_file ["log"] w = false ->
  is_dir (Py.components (script_name i tag pair)) w = false ->
  (forall argv w', child argv w' <> None) ->
  exists w' script,
    main_body child omb_name mpi_cmd tag i pair w = Ret tt w' /\
    generate_job_script i pair omb_name mpi_cmd tag w = Ret script w /\
    is_dir ["log"] w' = true /\
    lookup_file (Py.components (script_name i tag pair)) (files w')
    = Some (mkFile script 493) /\
    (forall p, p <> Py.components (script_name i tag pair) ->
               lookup_file p (files w') = lookup_file p (files w)) /\
    spawned w' = (spawned w ++ [["sbatch"; script_name i tag pair]])%list /\
    draws w' = draws w /\ stdout w' = stdout w /\
    (forall d, In d (dirs w') -> d = ["log"] \/ In d (dirs w)).
Proof.
  intros Hc Ht Hp Hpe Hlog Hdir Hchild.
  rewrite main_body_eq. unfold generate_job_script, unpack_pair, bind.
  pose proof (split_length Py.comma pair) as L. rewrite Hc in L.
  destruct (Py.split Py.comma pair) as [|node1 [|node2 [|x l]]];
    try discriminate L.
  cbv zeta. rewrite Hpe.
  destruct (log_made_frame w) as (D1 & O1 & F1 & S1 & Hdirs & Hl).
  set (w1 := if is_dir ["log"] w || is_file ["log"] w then w
             else set_dirs (["log"] :: dirs w) w) in *.
  destruct (script_path_plain i tag pair Ht Hp) as (name & Hn).
  rewrite Hn in *.
  assert (Hd1 : is_dir ["log"; name] w1 = false).
  { cbn [is_dir] in *. destruct Hdirs as [-> | ->]; [exact Hdir|].
    cbn [existsb]. rewrite Hdir. now rewrite path_eqb_neq. }
  rewrite Hd1. cbn [removelast]. rewrite (Hl Hlog). cbn [orb negb].
  match goal with |- context [child ?a ?x] => destruct (child a x) eqn:E end;
    [|now apply Hchild in E].
  eexists. eexists. split; [reflexivity|]. split; [reflexivity|].
  cbn [files dirs set_files set_spawned spawned draws stdout].
  split; [exact (Hl Hlog)|]. split; [apply lookup_file_head|].
  split; [intros p Hne; now rewrite !lookup_file_other, F1|].
  repeat split; auto.
  intros d Hd. destruct Hdirs as [D|D]; rewrite D in Hd; simpl in Hd; intuition.
Qed.



(** X11.  The tag is sanitized but the node identifiers are not: when a
    node identifier holds a slash, the script path lies in a directory
    under [log], and where no directory lies under another one the
    iteration raises [OSError] with no file written and no job
    submitted (a NUL in the pair or in the tag would raise [ValueError]
    first). *)
Theorem node_with_slash_fails child omb_name mpi_cmd tag i pair w :
  occurrences Py.comma pair = 1 ->
  Py.mem Py.slash pair = true ->
  Py.mem Py.nul tag = false -> Py.mem Py.nul pair = false ->
  (forall d, In d (dirs w) -> length d <= 1) ->
  exists w',
    main_body child omb_name mpi_cmd tag i pair w = Raise OSError w' /\
    files w' = files w /\ spawned w' = spawned w.
Proof.
  intros Hc Hp Hnt Hnp Hdirs.
  rewrite main_body_eq.
  pose proof (split_length Py.comma pair) as L. rewrite Hc in L.
  destruct (Py.split Py.comma pair) as [|node1 [|node2 [|x l]]];
    try discriminate L.
  cbv zeta.
  destruct (log_made_frame w) as (_ & _ & F1 & S1 & Hd & _).
  set (w1 := if is_dir ["log"] w || is_file ["log"] w then w
             else set_dirs (["log"] :: dirs w) w) in *.
  destruct (path_error_cases (script_name i tag pair)
              (script_name_nul i tag pair Hnt Hnp)) as [-> | ->];
    [|exists w1; auto].
  destruct (script_path_deep i tag pair Hp) as (d1 & d2 & more & ->).
  assert (Hparent : is_dir (removelast ("log" :: d1 :: d2 :: more)) w1 = false).
  { assert (Hlen : 2 <= length (removelast ("log" :: d1 :: d2 :: more))).
    { cbn [removelast]. destruct more; simpl; lia. }
    destruct (removelast ("log" :: d1 :: d2 :: more)) as [|a q] eqn:E;
      [simpl in Hlen; lia|].
    cbn [is_dir]. apply not_true_iff_false. intros Hex.
    apply existsb_exists in Hex as (d & Hin & Heq).
    unfold path_eqb in Heq.
    destruct (list_eq_dec string_dec (a :: q) d) as [<-|]; [|discriminate].
    assert (length (a :: q) <= 1); [|lia].
    destruct Hd as [Hd|Hd]; rewrite Hd in Hin.
    - now apply Hdirs.
    - destruct Hin as [<-|Hin]; [simpl; lia | now apply Hdirs]. }
  rewrite Hparent. cbn [negb]. rewrite orb_true_r.
  exists w1. auto.
Qed.

Lemma node_with_slash_fails_witness :
  exists w',
    main_body (fun _ _ => Some 0) "lib/2.1" "srun" "lib-2.1" 0 "rack/n1,n2" world_b
    = Raise OSError w' /\ files w' = files world_b /\ spawned w' = spawned world_b.
Proof.
  apply (node_with_slash_fails (fun _ _ => Some 0) "lib/2.1" "srun" "lib-2.1" 0
           "rack/n1,n2" world_b); try reflexivity.
  simpl. intros d [<-|[]]. simpl. lia.
Defined.

(** ** What a run leaves on disk *)

Section UnderLog.

Variable child : list string -> world -> option nat.
Variables (omb_name mpi_cmd tag : string).

Lemma only_under_log_refl w : only_under_log w w.
Proof. unfold only_under_log. repeat split; auto. Qed.

Lemma only_under_log_trans w1 w2 w3 :
  only_under_log w1 w2 -> only_under_log w2 w3 -> only_under_log w1 w3.
Proof.
  intros (A1 & B1 & C1 & D1) (A2 & B2 & C2 & D2). repeat split; auto.
  - intros p Hp. now rewrite A2, A1.
  - intros d Hd. destruct (D2 d Hd) as [->|H]; auto.
Qed.

(** Two worlds with the same files and directories. *)
Lemma only_under_log_same w w' :
  files w' = files w -> dirs w' = dirs w -> only_under_log w w'.
Proof.
  intros F D. unfold only_under_log, is_file. rewrite F, D. repeat split; auto.
Qed.

Lemma flat_log_step w w1 :
  flat_log w -> dirs w1 = dirs w \/ dirs w1 = ["log"] :: dirs w -> flat_log w1.
Proof.
  intros H [D|D] d Hd Hh; rewrite D in Hd; [now apply H|].
  destruct Hd as [<-|Hd]; [reflexivity | now apply H].
Qed.

(** Where no directory lies in [log], a script whose directory is there
    is an entry of [log]. *)
Lemma script_path_flat i pair w :
  flat_log w ->
  is_dir (removelast (Py.components (script_name i tag pair))) w = true ->
  exists name, Py.components (script_name i tag pair) = ["log"; name].
Proof.
  intros Hf. destruct (script_name_components i tag pair) as (r & m & ->).
  set (name := "bibw_" ++ Py.str i ++ "_" ++ r).
  change (removelast ("log" :: name :: m)) with ("log" :: removelast (name :: m)).
  cbn [is_dir]. intros H. apply existsb_exists in H as (d & Hin & Heq).
  unfold path_eqb in Heq.
  destruct (list_eq_dec string_dec ("log" :: removelast (name :: m)) d)
    as [<-|]; [|discriminate].
  specialize (Hf _ Hin eq_refl). injection Hf as Hf.
  destruct m as [|x m]; [now exists name|].
  cbn [removelast] in Hf. discriminate Hf.
Qed.

Lemma written_under_log w w1 name f g :
  files w1 = files w -> dirs w1 = dirs w \/ dirs w1 = ["log"] :: dirs w ->
  only_under_log w
    (set_files ((["log"; name], f) :: (["log"; name], g) :: files w1) w1).
Proof.
  intros F D. unfold only_under_log, is_file.
  cbn [files dirs set_files]. rewrite F. repeat split.
  - intros p Hp. specialize (Hp name).
    now rewrite !lookup_file_other.
  - intros p Hp. destruct (list_eq_dec string_dec p ["log"; name]) as [->|Hne].
    + now rewrite lookup_file_head.
    + now rewrite !lookup_file_other.
  - intros d Hd. destruct D as [-> | ->]; simpl; auto.
  - intros d Hd. destruct D as [D|D]; rewrite D in Hd; simpl in Hd; intuition.
Qed.

Lemma main_body_under_log i pair w w' :
  flat_log w ->
  final_world (main_body child omb_name mpi_cmd tag i pair w) = Some w' ->
  only_under_log w w' /\ flat_log w' /\
  draws w' = draws w /\ stdout w' = stdout w /\
  exists l, spawned w' = (spawned w ++ l)%list.
Proof.
  intros Hflat. rewrite main_body_eq.
  destruct (log_made_frame w) as (D1 & O1 & F1 & S1 & Hd & _).
  set (w1 := if is_dir ["log"] w || is_file ["log"] w then w
             else set_dirs (["log"] :: dirs w) w) in *.
  assert (H1 : only_under_log w w1).
  { unfold only_under_log, is_file. rewrite F1. repeat split; auto.
    - intros d Hin. destruct Hd as [-> | ->]; simpl; auto.
    - intros d Hin. destruct Hd as [D|D]; rewrite D in Hin; simpl in Hin; intuition. }
  assert (Hflat1 : flat_log w1) by now apply (flat_log_step w).
  assert (Hnil : spawned w = (spawned w ++ [])%list) by now rewrite app_nil_r.
  destruct (Py.split Py.comma pair) as [|node1 [|node2 [|x l]]]; cbn [final_world];
    try (intros [= <-]; split; [apply only_under_log_refl | eauto]).
  cbv zeta.
  destruct (path_error (script_name i tag pair)); cbn [final_world].
  { intros [= <-]. split; [exact H1|]. rewrite S1. eauto 6. }
  destruct (is_dir _ w1 || negb (is_dir _ w1)) eqn:E; cbn [final_world].
  { intros [= <-]. split; [exact H1|]. rewrite S1. eauto 6. }
  apply orb_false_iff in E as [_ E]. apply negb_false_iff in E.
  destruct (script_path_flat i pair w1 Hflat1 E) as (name & ->).
  match goal with |- context [child ?a ?x] => destruct (child a x) end;
    cbn [final_world]; intros [= <-];
    (split; [now apply written_under_log|]);
    (split; [exact Hflat1|]);
    cbn [draws stdout spawned set_files set_spawned]; rewrite ?S1; eauto.
Qed.

Lemma for_enumerate_under_log pairs : forall start w w',
  flat_log w ->
  final_world (for_enumerate start pairs (main_body child omb_name mpi_cmd tag) w)
  = Some w' ->
  only_under_log w w' /\ draws w' = draws w /\ stdout w' = stdout w /\
  exists l, spawned w' = (spawned w ++ l)%list.
Proof.
  induction pairs as [|p rest IH]; intros start w w' Hflat; simpl.
  - intros [= <-]. split; [apply only_under_log_refl|].
    repeat split. exists []. now rewrite app_nil_r.
  - unfold bind.
    pose proof (main_body_under_log start p w) as Hb.
    destruct (main_body child omb_name mpi_cmd tag start p w) as [[] w1|e w1| |];
      cbn [final_world] in *; try discriminate.
    + intros H. destruct (Hb w1 Hflat eq_refl) as (U1 & Hf1 & D1 & O1 & l1 & S1).
      destruct (IH _ _ _ Hf1 H) as (U2 & D2 & O2 & l2 & S2).
      split; [eapply only_under_log_trans; eauto|].
      repeat split; try congruence.
      exists (l1 ++ l2)%list. now rewrite S2, S1, app_assoc.
    + intros [= <-]. destruct (Hb w1 Hflat eq_refl) as (U1 & _ & R). now split.
Qed.

End UnderLog.

(** X12.  Where no directory lies in [log], [main], however it ends,
    by returning or by raising, has removed no file and no directory, has
    changed no file but entries of [log], so not the node list, has made
    no directory but [log], and has only added to the child processes
    run. *)
Theorem main_writes_under_log child nodelist_file omb_name mpi_cmd w w' :
  flat_log w ->
  final_world (main child nodelist_file omb_name mpi_cmd w) = Some w' ->
  only_under_log w w' /\ exists l, spawned w' = (spawned w ++ l)%list.
Proof.
  intros Hflat. unfold main. unfold bind at 1.
  assert (Hnil : spawned w = (spawned w ++ [])%list) by now rewrite app_nil_r.
  pose proof (read_file_frame nodelist_file w) as Hr.
  destruct (read_file nodelist_file w) as [nodes w0|e w0| |];
    cbn [final_world]; try contradiction.
  2:{ destruct Hr as [-> _]. intros [= <-].
      split; [apply only_under_log_refl | eauto]. }
  subst w0.
  pose proof (pairing_stage_run nodes w) as Hp.
  unfold pairing_stage in Hp. unfold bind at 1 in Hp. unfold bind at 1.
  destruct (shuffle_and_filter_nodes nodes w) as [l w0| | |];
    cbn [final_world runs] in *; try discriminate; try contradiction.
  unfold bind at 1.
  destruct (create_pairs l w0) as [pairs w1| | |];
    cbn [final_world runs] in *; try discriminate; try contradiction.
  assert (U1 : only_under_log w w1 /\ spawned w1 = spawned w /\ flat_log w1).
  { destruct Hp as (_ & _ & _ & [(_ & _ & ->) | (_ & x & _ & ->)]);
      (split; [now apply only_under_log_same | split; [reflexivity|exact Hflat]]). }
  destruct U1 as (U1 & S1 & Hf1).
  intros H. apply for_enumerate_under_log in H as (U & _ & _ & l' & S);
    [|exact Hf1].
  split; [eapply only_under_log_trans; eauto|].
  exists l'. now rewrite S, S1.
Qed.

Lemma main_writes_under_log_witness :
  exists w',
    final_world (main (fun _ _ => Some 1) "nodes.txt" "lib/2.1" "srun" world_c)
    = Some w' /\
    lookup_file ["nodes.txt"] (files w') = lookup_file ["nodes.txt"] (files world_c).
Proof.
  assert (H : exists w',
             final_world (main (fun _ _ => Some 1) "nodes.txt" "lib/2.1" "srun"
                            world_c) = Some w')
    by (eexists; vm_compute; reflexivity).
  destruct H as (w' & H). exists w'. split; [exact H|].
  assert (F : flat_log world_c) by (intros d []).
  apply (main_writes_under_log _ _ _ _ _ _ F H). discriminate.
Defined.

(** ** The scripts a completed run has written *)

Section ScriptsWritten.

Variable child : list string -> world -> option nat.
Variables (omb_name mpi_cmd tag : string).

Lemma main_body_files i pair w w' :
  main_body child omb_name mpi_cmd tag i pair w = Ret tt w' ->
  forall p, p <> Py.components (script_name i tag pair) ->
            lookup_file p (files w') = lookup_file p (files w).
Proof.
  rewrite main_body_eq.
  destruct (log_made_frame w) as (_ & _ & F1 & _).
  set (w1 := if is_dir ["log"] w || is_file ["log"] w then w
             else set_dirs (["log"] :: dirs w) w) in *.
  destruct (Py.split Py.comma pair) as [|node1 [|node2 [|x l]]]; try discriminate.
  cbv zeta.
  destruct (path_error (script_name i tag pair)); [discriminate|].
  destruct (is_dir _ w1 || negb (is_dir _ w1)); [discriminate|].
  match goal with |- context [child ?a ?x] => destruct (child a x) end;
    [|discriminate].
  intros [= <-] p Hp. cbn [files set_files set_spawned].
  now rewrite !lookup_file_other, F1.
Qed.

(** Where no directory lies in [log], the script an iteration has
    written is an entry of [log]. *)
Lemma main_body_path i pair w w' :
  flat_log w ->
  main_body child omb_name mpi_cmd tag i pair w = Ret tt w' ->
  flat_log w' /\
  exists name, Py.components (script_name i tag pair) = ["log"; name].
Proof.
  intros Hflat H.
  destruct (main_body_under_log child omb_name mpi_cmd tag i pair w w' Hflat)
    as (_ & Hf' & _); [now rewrite H|].
  split; [exact Hf'|]. revert H. rewrite main_body_eq.
  destruct (log_made_frame w) as (_ & _ & _ & _ & Hd & _).
  set (w1 := if is_dir ["log"] w || is_file ["log"] w then w
             else set_dirs (["log"] :: dirs w) w) in *.
  destruct (Py.split Py.comma pair) as [|node1 [|node2 [|x l]]]; try discriminate.
  cbv zeta.
  destruct (path_error (script_name i tag pair)); [discriminate|].
  destruct (is_dir _ w1 || negb (is_dir _ w1)) eqn:E; [discriminate|].
  intros _. apply orb_false_iff in E as [_ E]. apply negb_false_iff in E.
  apply (script_path_flat tag i pair w1); [|exact E].
  now apply (flat_log_step w).
Qed.

(** A later iteration does not touch the script of an earlier one. *)
Lemma for_enumerate_keeps pairs : forall start w w' p,
  for_enumerate start pairs (main_body child omb_name mpi_cmd tag) w = Ret tt w' ->
  (forall j q, start <= j -> p <> Py.components (script_name j tag q)) ->
  lookup_file p (files w') = lookup_file p (files w).
Proof.
  induction pairs as [|q rest IH]; intros start w w' p; simpl.
  - now intros [= <-].
  - unfold bind.
    destruct (main_body child omb_name mpi_cmd tag start q w) as [[] w1| | |] eqn:E;
      try discriminate.
    intros H Hp. rewrite (IH _ _ _ _ H).
    + apply (main_body_files _ _ _ _ E). now apply Hp.
    + intros j q' Hj. apply Hp. lia.
Qed.

Lemma for_enumerate_scripts pairs : forall start w w' k pair,
  flat_log w ->
  for_enumerate start pairs (main_body child omb_name mpi_cmd tag) w = Ret tt w' ->
  nth_error pairs k = Some pair ->
  exists script name,
    (forall w0, generate_job_script (start + k) pair omb_name mpi_cmd tag w0
                = Ret script w0) /\
    Py.components (script_name (start + k) tag pair) = ["log"; name] /\
    lookup_file ["log"; name] (files w') = Some (mkFile script 493).
Proof.
  induction pairs as [|q rest IH]; intros start w w' k pair Hflat; simpl.
  - destruct k; discriminate.
  - unfold bind.
    destruct (main_body child omb_name mpi_cmd tag start q w) as [[] w1| | |] eqn:E;
      try discriminate.
    destruct (main_body_path _ _ _ _ Hflat E) as (Hf1 & name & Hn).
    intros H Hk. destruct k as [|k]; simpl in Hk.
    + injection Hk as ->. rewrite Nat.add_0_r.
      apply main_body_returns in E as (script & G & F & _).
      exists script, name. split; [|split; [exact Hn|]].
      * intros w0.
        destruct (generate_job_script_pure start pair omb_name mpi_cmd tag)
          as (r & Hr).
        rewrite Hr in G. rewrite Hr. destruct r; [|discriminate].
        simpl in *. unfold ret in *. congruence.
      * rewrite <- Hn. rewrite (for_enumerate_keeps _ _ _ _ _ H); [exact F|].
        intros j q' Hj Heq. apply script_path_index in Heq. lia.
    + rewrite Nat.add_succ_r. apply (IH (S start) w1 w' k pair Hf1 H Hk).
Qed.

Lemma submissions_length start pairs :
  length (submissions start tag pairs) = length pairs.
Proof.
  revert start. induction pairs as [|p rest IH]; intros start; simpl;
    [reflexivity | now rewrite IH].
Qed.

End ScriptsWritten.

Lemma pairing_stage_count nodes w pairs w' :
  pairing_stage nodes w = Ret pairs w' -> length pairs = length nodes / 2.
Proof.
  intros E. pose proof (pairing_stage_run nodes w) as H. rewrite E in H.
  destruct H as (ps & -> & _ & H). rewrite length_map.
  pose proof (Nat.div_mod_eq (length nodes) 2).
  pose proof (Nat.mod_upper_bound (length nodes) 2).
  destruct H as [(Hev & P & _) | (Hodd & x & P & _)];
    apply Permutation_length in P; cbn [length] in P;
    rewrite members_length in P; lia.
Qed.

(** ** The tag in the names *)

Section TagInNames.

Lemma replace_length old new s :
  String.length (Py.replace old new s) = String.length s.
Proof. induction s as [|c s IH]; simpl; [reflexivity | now rewrite IH]. Qed.

Lemma replace_get old new s : forall k,
  String.get k (Py.replace old new s)
  = option_map (fun c => if Ascii.eqb c old then new else c) (String.get k s).
Proof.
  induction s as [|c s IH]; intros k; simpl; [reflexivity|].
  destruct k; [reflexivity | apply IH].
Qed.

Lemma replace_app old new a b :
  Py.replace old new (a ++ b) = Py.replace old new a ++ Py.replace old new b.
Proof. induction a as [|c a IH]; simpl; [reflexivity | now rewrite IH]. Qed.

Lemma replace_encoded node1 node2 :
  Py.mem Py.comma node1 = false -> Py.mem Py.comma node2 = false ->
  Py.replace Py.comma Py.underscore (encode_pair node1 node2)
  = node1 ++ "_" ++ node2.
Proof.
  intros H1 H2. unfold encode_pair.
  rewrite replace_app. cbn [Py.replace append].
  now rewrite !replace_absent by assumption.
Qed.

Lemma script_name_encoded k tag node1 node2 :
  Py.mem Py.comma node1 = false -> Py.mem Py.comma node2 = false ->
  script_name k tag (encode_pair node1 node2)
  = "log/bibw_" ++ Py.str k ++ "_" ++ tag ++ "_" ++ node1 ++ "_" ++ node2 ++ ".sh".
Proof.
  intros H1 H2. unfold script_name.
  rewrite replace_encoded by assumption.
  now rewrite !append_assoc.
Qed.

(** Without a slash in the tag and in the pair, the script is the entry
    of [log] named by what follows [log/] in its path name. *)
Lemma script_path_entry i tag pair :
  Py.mem Py.slash tag = false -> Py.mem Py.slash pair = false ->
  Py.components (script_name i tag pair)
  = ["log"; "bibw_" ++ Py.str i ++ "_" ++ tag ++ "_"
              ++ Py.replace Py.comma Py.underscore pair ++ ".sh"].
Proof.
  intros Ht Hp. unfold Py.components, script_name.
  change ("log/bibw_" ++ Py.str i ++ "_" ++ tag ++ "_" ++
          Py.replace Py.comma Py.underscore pair ++ ".sh")
    with ("log" ++ String Py.slash ("bibw_" ++ Py.str i ++ "_" ++ tag ++ "_" ++
          Py.replace Py.comma Py.underscore pair ++ ".sh")).
  rewrite split_field by reflexivity. rewrite split_last; [reflexivity|].
  rewrite !mem_app.
  rewrite (digits_mem Py.slash _ eq_refl (str_digits i)), Ht.
  rewrite mem_replace by discriminate. now rewrite Hp.
Qed.

(** The pair of a script that was generated names two identifiers. *)
Lemma generate_job_script_ret i pair omb_name mpi_cmd tag w script w' :
  generate_job_script i pair omb_name mpi_cmd tag w = Ret script w' ->
  exists node1 node2,
    pair = encode_pair node1 node2 /\
    Py.mem Py.comma node1 = false /\ Py.mem Py.comma node2 = false /\
    script = job_script i node1 node2 omb_name mpi_cmd tag.
Proof.
  pose proof (split_concat Py.comma pair) as C.
  pose proof (split_fields Py.comma pair) as F.
  unfold generate_job_script, unpack_pair, bind.
  destruct (Py.split Py.comma pair) as [|a [|b [|c l]]]; try discriminate.
  cbn [ret]. intros [= <- _]. exists a, b.
  inversion F as [|? ? Ha F']; subst. inversion F'; subst.
  repeat split; auto.
Qed.

Lemma unlines_app a b : unlines (a ++ b) = unlines a ++ unlines b.
Proof.
  induction a as [|l a IH]; simpl; [reflexivity|].
  rewrite IH. rewrite append_assoc. reflexivity.
Qed.

Lemma prefix_two_lines l0 l1 rest :
  String.prefix (l0 ++ String Py.nl (l1 ++ String Py.nl EmptyString))
    (unlines (l0 :: l1 :: rest)) = true.
Proof.
  change (unlines (l0 :: l1 :: rest))
    with (l0 ++ String Py.nl (l1 ++ String Py.nl (unlines rest))).
  assert (E : l0 ++ String Py.nl (l1 ++ String Py.nl (unlines rest))
              = (l0 ++ String Py.nl (l1 ++ String Py.nl EmptyString)) ++ unlines rest).
  { rewrite append_assoc. cbn [append]. now rewrite append_assoc. }
  rewrite E. apply prefix_app.
Qed.

(** A line of a text that is not its first one stands between two line
    feeds. *)
Lemma contains_line before l x after :
  Py.contains (String Py.nl (x ++ String Py.nl EmptyString))
    (unlines ((before ++ [l]) ++ x :: after)) = true.
Proof.
  rewrite !unlines_app.
  change (unlines [l]) with (l ++ String Py.nl EmptyString).
  change (unlines (x :: after)) with (x ++ String Py.nl (unlines after)).
  assert (E : (unlines before ++ l ++ String Py.nl EmptyString)
                ++ x ++ String Py.nl (unlines after)
              = (unlines before ++ l)
                  ++ String Py.nl (x ++ String Py.nl EmptyString) ++ unlines after).
  { rewrite !append_assoc. cbn [append]. now rewrite !append_assoc. }
  rewrite E. apply contains_app.
Qed.

Lemma submissions_nth tag pairs : forall start k pair,
  nth_error pairs k = Some pair ->
  nth_error (submissions start tag pairs) k
  = Some ["sbatch"; script_name (start + k) tag pair].
Proof.
  induction pairs as [|p rest IH]; intros start k pair; destruct k; simpl;
    try discriminate.
  - intros [= ->]. now rewrite Nat.add_0_r.
  - intros H. rewrite Nat.add_succ_r. now apply (IH (S start)).
Qed.

(** A completed [main] has read the nodes, paired them and run its loop
    on the pairs. *)
Lemma main_loop child nodelist_file omb_name mpi_cmd w w' :
  main child nodelist_file omb_name mpi_cmd w = Ret tt w' ->
  exists nodes pairs w1,
    read_file nodelist_file w = Ret nodes w /\
    pairing_stage nodes w = Ret pairs w1 /\
    (flat_log w -> flat_log w1) /\
    spawned w' = (spawned w ++ submissions 0 (sanitize omb_name) pairs)%list /\
    for_enumerate 0 pairs (main_body child omb_name mpi_cmd (sanitize omb_name)) w1
    = Ret tt w'.
Proof.
  intros H.
  destruct (main_submissions _ _ _ _ _ _ H) as (nodes & pairs & w1 & R & P & S).
  exists nodes, pairs, w1. split; [exact R|]. split; [exact P|]. split; [|split].
  - intros Hflat. pose proof (pairing_stage_run nodes w) as Hp. rewrite P in Hp.
    destruct Hp as (_ & _ & _ & [(_ & _ & ->) | (_ & x & _ & ->)]); exact Hflat.
  - exact S.
  - revert H. unfold main. unfold bind at 1. rewrite R.
    unfold pairing_stage in P. unfold bind in P. unfold bind at 1.
    destruct (shuffle_and_filter_nodes nodes w) as [l w0| | |]; try discriminate.
    unfold bind at 1. now rewrite P.
Qed.

(** Every pair of a completed loop names two identifiers. *)
Lemma for_enumerate_pairs child omb_name mpi_cmd tag pairs : forall start w w' pair,
  for_enumerate start pairs (main_body child omb_name mpi_cmd tag) w = Ret tt w' ->
  In pair pairs ->
  exists node1 node2,
    pair = encode_pair node1 node2 /\
    Py.mem Py.comma node1 = false /\ Py.mem Py.comma node2 = false.
Proof.
  induction pairs as [|q rest IH]; intros start w w' pair; simpl; [tauto|].
  unfold bind.
  destruct (main_body child omb_name mpi_cmd tag start q w) as [[] w1| | |] eqn:E;
    try discriminate.
  intros H [->|Hin]; [|now apply (IH _ _ _ _ H)].
  apply main_body_returns in E as (script & G & _).
  apply generate_job_script_ret in G as (node1 & node2 & -> & H1 & H2 & _).
  now exists node1, node2.
Qed.

End TagInNames.

(** C2, as stated, fails: for the module [lib/2.1] the job name of the
    script is [bibw_lib/2.1_n1_n2], in which the tag [lib-2.1] does not
    occur. *)
Lemma job_name_keeps_slash :
  Py.mem Py.slash "lib/2.1" = true /\
  sanitize "lib/2.1" = "lib-2.1" /\
  forall w, exists script,
    generate_job_script 0 "n1,n2" "lib/2.1" "srun" (sanitize "lib/2.1") w
    = Ret script w /\
    directive_value "--job-name=" script = Some "bibw_lib/2.1_n1_n2" /\
    Py.contains "lib-2.1" "bibw_lib/2.1_n1_n2" = false.
Proof.
  split; [reflexivity|]. split; [reflexivity|].
  intros w. eexists. split; [reflexivity|]. split; reflexivity.
Qed.

(** C2, amended.  For every module name, the sanitized tag is the name
    with every [/] turned into [-] and nothing else changed, so it has no
    [/].  The script [generate_job_script] returns for the tag starts
    with the shebang line and the line [#SBATCH --job-name=bibw_] followed
    by the module name as it was given, unsanitized, and the two
    identifiers; it has the line [#SBATCH --output=log/] followed by the
    index, the tag and the two identifiers, and these are the values the
    scheduler reads when no line feed is in the names.  When [main] has
    returned, the submission of every pair names the script
    [log/bibw_<k>_<tag>_<node1>_<node2>.sh], with the position [k] of the
    pair, and, where no directory lies in [log], the entry of [log] of
    that name holds the script generated for the tag. *)
Theorem sanitized_tag_in_file_names omb_name :
  let tag := sanitize omb_name in
  (String.length tag = String.length omb_name /\
   (forall k,
       String.get k tag
       = option_map (fun c => if Ascii.eqb c "/" then "-"%char else c)
           (String.get k omb_name)) /\
   Py.mem Py.slash tag = false) /\
  (forall i node1 node2 mpi_cmd w,
      Py.mem Py.comma node1 = false -> Py.mem Py.comma node2 = false ->
      exists script,
        generate_job_script i (encode_pair node1 node2) omb_name mpi_cmd tag w
        = Ret script w /\
        String.prefix
          (unlines ["#!/bin/bash";
                    "#SBATCH --job-name=bibw_" ++ omb_name ++ "_" ++ node1 ++ "_"
                      ++ node2])
          script = true /\
        Py.contains
          (String Py.nl
             (unlines ["#SBATCH --output=log/" ++ Py.str i ++ "_" ++ tag ++ "_"
                         ++ node1 ++ "_" ++ node2 ++ "_%j.out"]))
          script = true /\
        (no_newline node1 -> no_newline node2 -> no_newline omb_name ->
         directive_value "--job-name=" script
         = Some ("bibw_" ++ omb_name ++ "_" ++ node1 ++ "_" ++ node2) /\
         directive_value "--output=" script
         = Some ("log/" ++ Py.str i ++ "_" ++ tag ++ "_" ++ node1 ++ "_" ++ node2
                   ++ "_%j.out"))) /\
  (forall child nodelist_file mpi_cmd w w',
      main child nodelist_file omb_name mpi_cmd w = Ret tt w' ->
      exists nodes pairs w1,
        read_file nodelist_file w = Ret nodes w /\
        pairing_stage nodes w = Ret pairs w1 /\
        forall k pair,
          nth_error pairs k = Some pair ->
          exists node1 node2,
            pair = encode_pair node1 node2 /\
            Py.mem Py.comma node1 = false /\ Py.mem Py.comma node2 = false /\
            nth_error (spawned w') (length (spawned w) + k)
            = Some ["sbatch";
                    "log/bibw_" ++ Py.str k ++ "_" ++ tag ++ "_" ++ node1 ++ "_"
                      ++ node2 ++ ".sh"] /\
            (flat_log w ->
             lookup_file
               ["log";
                "bibw_" ++ Py.str k ++ "_" ++ tag ++ "_" ++ node1 ++ "_" ++ node2
                  ++ ".sh"] (files w')
             = Some (mkFile (job_script k node1 node2 omb_name mpi_cmd tag) 493))).
Proof.
  intros tag. split; [|split].
  - split; [apply replace_length|]. split; [|apply sanitize_no_slash].
    intros k. apply replace_get.
  - intros i node1 node2 mpi_cmd w C1 C2. eexists.
    split; [now apply generate_job_script_encoded|]. split; [|split].
    + exact (prefix_two_lines "#!/bin/bash"
               ("#SBATCH --job-name=bibw_" ++ omb_name ++ "_" ++ node1 ++ "_" ++ node2)
               (skipn 2 (job_script_lines i node1 node2 omb_name mpi_cmd tag))).
    + exact (contains_line
               (firstn 11 (job_script_lines i node1 node2 omb_name mpi_cmd tag))
               ("#SBATCH --nodelist=" ++ node1 ++ "," ++ node2)
               ("#SBATCH --output=log/" ++ Py.str i ++ "_" ++ tag ++ "_" ++ node1
                  ++ "_" ++ node2 ++ "_%j.out")
               (skipn 13 (job_script_lines i node1 node2 omb_name mpi_cmd tag))).
    + intros N1 N2 No.
      pose proof (sanitize_no_newline _ No) as Nt. fold tag in Nt. split.
      * now apply script_job_name.
      * now apply script_output.
  - intros child nodelist_file mpi_cmd w w' H.
    destruct (main_loop _ _ _ _ _ _ H) as (nodes & pairs & w1 & R & P & Fl & S & L).
    exists nodes, pairs, w1. split; [exact R|]. split; [exact P|].
    intros k pair Hk.
    destruct (for_enumerate_pairs _ _ _ _ _ _ _ _ pair L (nth_error_In _ _ Hk))
      as (node1 & node2 & -> & C1 & C2).
    exists node1, node2. split; [reflexivity|].
    split; [exact C1|]. split; [exact C2|]. split.
    + rewrite S, nth_error_app2 by lia.
      replace (length (spawned w) + k - length (spawned w)) with k by lia.
      rewrite (submissions_nth _ _ 0 k _ Hk). cbn [Nat.add].
      now rewrite script_name_encoded by assumption.
    + intros Hflat.
      destruct (for_enumerate_scripts child omb_name mpi_cmd tag pairs 0 w1 w' k _
                  (Fl Hflat) L Hk) as (script & name & G & Hn & F).
      cbn [Nat.add] in G, Hn. specialize (G w).
      rewrite generate_job_script_encoded in G by assumption.
      injection G as <-.
      destruct (Py.mem Py.slash (encode_pair node1 node2)) eqn:Hs.
      * destruct (script_path_deep k tag _ Hs) as (d1 & d2 & more & Hd).
        rewrite Hd in Hn. discriminate.
      * rewrite script_path_entry in Hn by (apply sanitize_no_slash || assumption).
        injection Hn as <-.
        rewrite replace_encoded in F by assumption.
        now rewrite !append_assoc in F.
Qed.

Lemma sanitized_tag_in_file_names_witness :
  sanitize "lib/2.1" = "lib-2.1" /\
  exists w',
    main (fun _ _ => Some 0) "nodes.txt" "lib/2.1" "srun" world_c = Ret tt w' /\
    nth_error (spawned w') 1 = Some ["sbatch"; "log/bibw_1_lib-2.1_n2_n3.sh"] /\
    lookup_file ["log"; "bibw_1_lib-2.1_n2_n3.sh"] (files w')
    = Some (mkFile (job_script 1 "n2" "n3" "lib/2.1" "srun" "lib-2.1") 493).
Proof.
  split; [reflexivity|].
  assert (H : exists w',
             main (fun _ _ => Some 0) "nodes.txt" "lib/2.1" "srun" world_c
             = Ret tt w') by (eexists; vm_compute; reflexivity).
  destruct H as (w' & H). exists w'. split; [exact H|].
  destruct (sanitized_tag_in_file_names "lib/2.1") as (_ & _ & M).
  destruct (M _ _ _ _ _ H) as (nodes & pairs & w1 & R & P & K).
  vm_compute in R. injection R as <-.
  vm_compute in P. injection P as <- _.
  destruct (K 1 "n2,n3" eq_refl) as (node1 & node2 & E & C1 & C2 & S & F).
  pose proof (split_encode_pair node1 node2 C1 C2) as Sp.
  rewrite <- E in Sp. injection Sp as <- <-.
  split; [exact S|]. apply F. intros d [].
Defined.

(** X13.  Where no directory lies in [log]: when [main] has returned on
    a node list of [n] lines, it has made [n // 2] submissions, and the
    script of every pair is on disk as an entry of [log], under the name
    made from the position of the pair, with mode 0o755 and as its text
    what [generate_job_script] returns for that position and pair: no
    script has been overwritten by a later one. *)
Theorem main_leaves_scripts child nodelist_file omb_name mpi_cmd w w' :
  flat_log w ->
  main child nodelist_file omb_name mpi_cmd w = Ret tt w' ->
  exists nodes pairs w1,
    read_file nodelist_file w = Ret nodes w /\
    pairing_stage nodes w = Ret pairs w1 /\
    length (spawned w') = length (spawned w) + length nodes / 2 /\
    forall k pair,
      nth_error pairs k = Some pair ->
      exists script name,
        (forall w0, generate_job_script k pair omb_name mpi_cmd
                      (sanitize omb_name) w0 = Ret script w0) /\
        Py.components (script_name k (sanitize omb_name) pair) = ["log"; name] /\
        lookup_file ["log"; name] (files w') = Some (mkFile script 493).
Proof.
  intros Hflat H.
  destruct (main_submissions _ _ _ _ _ _ H) as (nodes & pairs & w1 & R & P & S).
  exists nodes, pairs, w1. split; [exact R|]. split; [exact P|]. split.
  - rewrite S, length_app, submissions_length.
    now rewrite (pairing_stage_count _ _ _ _ P).
  - assert (Hf1 : flat_log w1).
    { pose proof (pairing_stage_run nodes w) as Hp. rewrite P in Hp.
      destruct Hp as (_ & _ & _ & [(_ & _ & ->) | (_ & x & _ & ->)]);
        exact Hflat. }
    revert H. unfold main. unfold bind at 1. rewrite R.
    unfold pairing_stage in P. unfold bind in P. unfold bind at 1.
    destruct (shuffle_and_filter_nodes nodes w) as [l w0| | |]; try discriminate.
    unfold bind at 1. rewrite P. intros H k pair Hk.
    apply (for_enumerate_scripts child omb_name mpi_cmd (sanitize omb_name)
             pairs 0 w1 w' k pair Hf1 H Hk).
Qed.

Lemma main_leaves_scripts_witness :
  exists w',
    main (fun _ _ => Some 1) "nodes.txt" "lib/2.1" "srun" world_c = Ret tt w' /\
    length (spawned w') = 2.
Proof.
  assert (H : exists w',
             main (fun _ _ => Some 1) "nodes.txt" "lib/2.1" "srun" world_c
             = Ret tt w') by (eexists; vm_compute; reflexivity).
  destruct H as (w' & H). exists w'. split; [exact H|].
  assert (F : flat_log world_c) by (intros d []).
  destruct (main_leaves_scripts _ _ _ _ _ _ F H) as (nodes & pairs & w1 & R & _ & L & _).
  injection R as <-. exact L.
Defined.

(** ** When the whole run completes *)

Section Completion.

Variable child : list string -> world -> option nat.
Variables (omb_name mpi_cmd : string).
Hypothesis child_starts : forall argv w, child argv w <> None.

Lemma for_enumerate_succeeds pairs : forall start w,
  Forall good pairs -> fit w ->
  (forall k p, In p pairs -> k < start + length pairs ->
               path_error (script_name k (sanitize omb_name) p) = None) ->
  exists w',
    for_enumerate start pairs
      (main_body child omb_name mpi_cmd (sanitize omb_name)) w = Ret tt w'.
Proof.
  induction pairs as [|p rest IH]; intros start w Hg [Hlog Hdirs] Hpe; simpl.
  - eauto.
  - inversion Hg as [|? ? [Hc Hs] Hrest]; subst.
    destruct (script_path_plain start (sanitize omb_name) p
                (sanitize_no_slash omb_name) Hs) as (name & Hn).
    destruct (main_body_run child omb_name mpi_cmd (sanitize omb_name) start p w)
      as (w1 & script & E & _ & _ & _ & Hother & _ & _ & _ & Hd1); auto.
    { apply sanitize_no_slash. }
    { apply Hpe; [now left | simpl; lia]. }
    { rewrite Hn. cbn [is_dir]. apply not_true_iff_false. intros Hex.
      apply existsb_exists in Hex as (d & Hin & Heq).
      apply Hdirs in Hin. subst d. discriminate. }
    unfold bind. rewrite E. apply IH; [exact Hrest| |].
    + split.
      * unfold is_file in *. rewrite Hother; [exact Hlog|].
        rewrite Hn. discriminate.
      * intros d Hd. destruct (Hd1 d Hd); auto.
    + intros k q Hq Hk. apply Hpe; [now right | simpl; lia].
Qed.

Lemma encode_pair_good node1 node2 :
  Py.mem Py.comma node1 = false -> Py.mem Py.comma node2 = false ->
  Py.mem Py.slash node1 = false -> Py.mem Py.slash node2 = false ->
  good (encode_pair node1 node2).
Proof.
  intros C1 C2 S1 S2. unfold good, encode_pair. split.
  - rewrite occurrences_app. cbn [append occurrences].
    apply occurrences_none in C1, C2. now rewrite C1, C2.
  - rewrite mem_app. cbn [append Py.mem]. now rewrite S1, S2.
Qed.

Lemma pairing_stage_good nodes w :
  Forall (fun node => Py.mem Py.comma node = false /\
                      Py.mem Py.slash node = false) nodes ->
  runs (pairing_stage nodes w) (fun pairs w' =>
    Forall good pairs /\
    Forall (fun p => exists node1 node2,
                p = encode_pair node1 node2 /\ In node1 nodes /\ In node2 nodes)
      pairs /\
    files w' = files w /\ dirs w' = dirs w).
Proof.
  intros Hn. pose proof (pairing_stage_run nodes w) as H.
  destruct (pairing_stage nodes w) as [pairs w'| | |]; auto.
  destruct H as (ps & -> & _ & H). cbn [runs].
  assert (Hin : forall y, In y (members ps) -> In y nodes /\
                          (files w' = files w /\ dirs w' = dirs w)).
  { intros y Hy.
    destruct H as [(_ & P & ->) | (_ & x & P & ->)]; (split; [|now split]);
      apply (Permutation_in _ (Permutation_sym P)); simpl; auto. }
  split; [|split].
  - apply Forall_map, Forall_forall. intros [a b] Hab.
    destruct (members_in ps a b Hab) as [Ha Hb].
    rewrite Forall_forall in Hn.
    destruct (Hn a (proj1 (Hin a Ha))), (Hn b (proj1 (Hin b Hb))).
    now apply encode_pair_good.
  - apply Forall_map, Forall_forall. intros [a b] Hab.
    destruct (members_in ps a b Hab) as [Ha Hb].
    exists a, b. repeat split; [apply (Hin a Ha) | apply (Hin b Hb)].
  - destruct H as [(_ & _ & ->) | (_ & x & _ & ->)]; now split.
Qed.

Lemma main_eq nodelist_file w :
  main child nodelist_file omb_name mpi_cmd w
  = bind (read_file nodelist_file)
      (fun nodes =>
         bind (pairing_stage nodes)
           (fun pairs =>
              for_enumerate 0 pairs
                (main_body child omb_name mpi_cmd (sanitize omb_name)))) w.
Proof.
  unfold main, pairing_stage, bind.
  destruct (read_file nodelist_file w) as [nodes w0| | |]; try reflexivity.
  destruct (shuffle_and_filter_nodes nodes w0) as [l w1| | |]; reflexivity.
Qed.

Lemma read_file_draws p w nodes more :
  read_file p w = Ret nodes w ->
  read_file p (more_draws w more) = Ret nodes (more_draws w more).
Proof.
  unfold read_file, read_text, bind, file_path_of.
  cbn [files more_draws set_draws].
  destruct (file_error p); [discriminate|].
  destruct (lookup_file _ _) as [f|]; [|discriminate].
  destruct (Py.utf8 (content f)); [|discriminate].
  cbn [ret]. now intros [= <-].
Qed.

Lemma main_run nodelist_file w nodes :
  read_file nodelist_file w = Ret nodes w ->
  Forall (fun node => Py.mem Py.comma node = false /\
                      Py.mem Py.slash node = false) nodes ->
  names_accepted (sanitize omb_name) nodes ->
  fit w ->
  runs (main child nodelist_file omb_name mpi_cmd w) (fun _ _ => True) /\
  forall pairs w1,
    pairing_stage nodes w = Ret pairs w1 ->
    exists w', main child nodelist_file omb_name mpi_cmd w = Ret tt w'.
Proof.
  intros Hr Hn Ha [Hlog Hdirs].
  rewrite main_eq. unfold bind at 1. unfold bind at 2. rewrite Hr.
  pose proof (pairing_stage_good nodes w Hn) as Hp.
  pose proof (pairing_stage_count nodes w) as Hc.
  unfold bind.
  destruct (pairing_stage nodes w) as [pairs w1| | |]; cbn [runs] in *;
    try contradiction; [|split; [auto | discriminate]].
  destruct Hp as (Hg & Hm & F & D). specialize (Hc pairs w1 eq_refl).
  destruct (for_enumerate_succeeds pairs 0 w1 Hg) as (w' & E).
  { unfold fit, is_file. rewrite F, D. now split. }
  { intros k p Hin Hk. rewrite Forall_forall in Hm.
    destruct (Hm p Hin) as (node1 & node2 & -> & H1 & H2).
    apply Ha; [|exact H1|exact H2].
    pose proof (Nat.div_mod_eq (length nodes) 2). simpl in Hk. lia. }
  rewrite E. split; [exact I|]. eauto.
Qed.

End Completion.



(** ** Submissions and the exit status of the scheduler *)

(** C8.  With a scheduler that can be started, whatever status it
    exits with, the iteration of the loop of [main] on a pair of two
    identifiers returns, where pair and tag hold no slash, the system
    accepts the path name of the script, [log] is no regular file and the
    path of the script is no directory; it has then run exactly one child
    process, [sbatch] with the path of the script as its only argument,
    as has every iteration that returns.  With a readable list of
    distinct identifiers without comma and slash, in a world fit for the
    scripts, there are draws with which [main] runs to its end, and a
    [main] that has returned has made these submissions, one per pair of
    the pairing stage and in its order, and no other.  The exit status of
    the child is dropped: with two schedulers that can be started at the
    same calls, whatever statuses they exit with, [main] ends the same
    way in the same world, so a status other than zero raises nothing
    and changes nothing. *)
Theorem submission_ignores_exit_status child1 child2 :
  (forall argv w, child1 argv w = None <-> child2 argv w = None) ->
  (forall nodelist_file omb_name mpi_cmd w,
      main child1 nodelist_file omb_name mpi_cmd w
      = main child2 nodelist_file omb_name mpi_cmd w) /\
  (forall omb_name mpi_cmd tag i pair w,
      (forall argv w0, child1 argv w0 <> None) ->
      good pair -> Py.mem Py.slash tag = false ->
      path_error (script_name i tag pair) = None ->
      is_file ["log"] w = false ->
      is_dir (Py.components (script_name i tag pair)) w = false ->
      exists w',
        main_body child1 omb_name mpi_cmd tag i pair w = Ret tt w' /\
        main_body child2 omb_name mpi_cmd tag i pair w = Ret tt w' /\
        spawned w' = (spawned w ++ [["sbatch"; script_name i tag pair]])%list) /\
  (forall omb_name mpi_cmd tag i pair w w',
      main_body child1 omb_name mpi_cmd tag i pair w = Ret tt w' ->
      spawned w' = (spawned w ++ [["sbatch"; script_name i tag pair]])%list) /\
  (forall nodelist_file omb_name mpi_cmd w nodes,
      (forall argv w0, child1 argv w0 <> None) ->
      read_file nodelist_file w = Ret nodes w ->
      NoDup nodes ->
      Forall (fun node => Py.mem Py.comma node = false /\
                          Py.mem Py.slash node = false) nodes ->
      names_accepted (sanitize omb_name) nodes ->
      fit w ->
      exists more pairs w1 w',
        pairing_stage nodes (more_draws w more) = Ret pairs w1 /\
        main child1 nodelist_file omb_name mpi_cmd (more_draws w more) = Ret tt w' /\
        main child2 nodelist_file omb_name mpi_cmd (more_draws w more) = Ret tt w' /\
        spawned w' = (spawned w ++ submissions 0 (sanitize omb_name) pairs)%list) /\
  (forall nodelist_file omb_name mpi_cmd w w',
      main child1 nodelist_file omb_name mpi_cmd w = Ret tt w' ->
      exists nodes pairs w1,
        read_file nodelist_file w = Ret nodes w /\
        pairing_stage nodes w = Ret pairs w1 /\
        spawned w' = (spawned w ++ submissions 0 (sanitize omb_name) pairs)%list).
Proof.
  intros H.
  split; [|split; [|split; [|split]]].
  - intros. now apply main_status.
  - intros omb_name mpi_cmd tag i pair w H1 [Hc Hs] Ht Hpe Hlog Hdir.
    destruct (main_body_run child1 omb_name mpi_cmd tag i pair w Hc Ht Hs Hpe
                Hlog Hdir H1) as (w' & script & E & _ & _ & _ & _ & S & _).
    exists w'. split; [exact E|]. split; [|exact S].
    now rewrite <- (main_body_status child1 child2).
  - intros * E. now apply main_body_returns in E as (_ & _ & _ & S1 & _).
  - intros nodelist_file omb_name mpi_cmd w nodes H1 Hr Hnd Hn Ha Hfit.
    destruct (can_return_pairing_stage _ Hnd w) as (more & pairs & w1 & E).
    exists more, pairs, w1.
    destruct (proj2 (main_run child1 omb_name mpi_cmd H1 nodelist_file
                       (more_draws w more) nodes (read_file_draws _ _ _ more Hr)
                       Hn Ha Hfit) pairs w1 E) as (w' & M).
    exists w'. split; [exact E|]. split; [exact M|]. split.
    + now rewrite <- (main_status child1 child2).
    + destruct (main_submissions _ _ _ _ _ _ M) as (nodes' & pairs' & w1' & R & P & S).
      rewrite (read_file_draws _ _ _ more Hr) in R. injection R as <-.
      rewrite E in P. injection P as <- <-. exact S.
  - intros *. apply main_submissions.
Qed.

Lemma submission_ignores_exit_status_witness :
  exists w',
    main (fun _ _ => Some 0) "nodes.txt" "lib/2.1" "srun" world_c = Ret tt w' /\
    main (fun _ _ => Some 1) "nodes.txt" "lib/2.1" "srun" world_c = Ret tt w' /\
    spawned w' = [["sbatch"; "log/bibw_0_lib-2.1_n4_n1.sh"];
                  ["sbatch"; "log/bibw_1_lib-2.1_n2_n3.sh"]].
Proof.
  assert (H : exists w',
             main (fun _ _ => Some 1) "nodes.txt" "lib/2.1" "srun" world_c
             = Ret tt w') by (eexists; vm_compute; reflexivity).
  destruct H as (w' & H). exists w'.
  destruct (submission_ignores_exit_status (fun _ _ => Some 0) (fun _ _ => Some 1))
    as (E & _ & _ & _ & S); [intros argv w; split; discriminate|].
  rewrite <- E in H. split; [exact H|]. split; [now rewrite <- E|].
  destruct (S _ _ _ _ _ H) as (nodes & pairs & w1 & R & P & Sp).
  vm_compute in R. injection R as <-.
  vm_compute in P. injection P as <- _.
  exact Sp.
Defined.

(** ** Tags of different modules *)

(** X15.  Sanitizing is not one-to-one: a module name with a slash and
    the name it is sanitized to are two module names with the same tag, so
    runs for the two write their scripts and logs under the same names. *)
Theorem sanitize_collides omb_name :
  Py.mem Py.slash omb_name = true ->
  sanitize omb_name <> omb_name /\
  sanitize (sanitize omb_name) = sanitize omb_name /\
  forall i pair node1 node2,
    script_name i (sanitize (sanitize omb_name)) pair
    = script_name i (sanitize omb_name) pair /\
    output_log i (sanitize (sanitize omb_name)) node1 node2
    = output_log i (sanitize omb_name) node1 node2.
Proof.
  intros H.
  assert (E : sanitize (sanitize omb_name) = sanitize omb_name).
  { apply replace_absent, sanitize_no_slash. }
  split; [|split; [exact E|]].
  - intros Heq. pose proof (sanitize_no_slash omb_name) as N.
    rewrite Heq in N. congruence.
  - intros. now rewrite E.
Qed.

Lemma sanitize_collides_witness :
  sanitize "lib/2.1" <> "lib/2.1" /\ sanitize (sanitize "lib/2.1") = sanitize "lib/2.1".
Proof.
  destruct (sanitize_collides "lib/2.1" eq_refl) as (H1 & H2 & _).
  split; assumption.
Defined.

(** ** A run that raises *)

Section FirstFailure.

Variable child : list string -> world -> option nat.
Variables (omb_name mpi_cmd tag : string).

Lemma main_body_raises i pair w e w' :
  main_body child omb_name mpi_cmd tag i pair w = Raise e w' ->
  spawned w' = spawned w /\ (e = ValueError \/ e = OSError).
Proof.
  rewrite main_body_eq.
  destruct (log_made_frame w) as (_ & _ & _ & S1 & _).
  set (w1 := if is_dir ["log"] w || is_file ["log"] w then w
             else set_dirs (["log"] :: dirs w) w) in *.
  destruct (Py.split Py.comma pair) as [|node1 [|node2 [|x l]]];
    try (intros [= <- <-]; auto).
  cbv zeta.
  destruct (path_error (script_name i tag pair)) as [e0|] eqn:Ep.
  { intros [= <- <-]. split; [exact S1|]. revert Ep. unfold path_error.
    destruct (Py.mem Py.nul _); [intros [= <-]; auto|].
    destruct (_ && _); [discriminate | intros [= <-]; auto]. }
  destruct (is_dir _ w1 || negb (is_dir _ w1)); [intros [= <- <-]; auto|].
  match goal with |- context [child ?a ?x] => destruct (child a x) end;
    [discriminate|].
  intros [= <- <-]. auto.
Qed.

Lemma submissions_app start done rest :
  submissions start tag (done ++ rest)%list
  = (submissions start tag done ++ submissions (start + length done) tag rest)%list.
Proof.
  revert start. induction done as [|p done IH]; intros start; simpl.
  - now rewrite Nat.add_0_r.
  - now rewrite IH, Nat.add_succ_r.
Qed.

Lemma for_enumerate_raises pairs : forall start w e w',
  for_enumerate start pairs (main_body child omb_name mpi_cmd tag) w = Raise e w' ->
  exists done p rest w1,
    pairs = (done ++ p :: rest)%list /\
    for_enumerate start done (main_body child omb_name mpi_cmd tag) w = Ret tt w1 /\
    main_body child omb_name mpi_cmd tag (start + length done) p w1 = Raise e w' /\
    spawned w' = (spawned w ++ submissions start tag done)%list /\
    (e = ValueError \/ e = OSError).
Proof.
  induction pairs as [|q rest IH]; intros start w e w'; simpl; [discriminate|].
  unfold bind.
  destruct (main_body child omb_name mpi_cmd tag start q w) as [[] w1|e1 w1| |] eqn:E;
    try discriminate.
  - intros H. destruct (IH _ _ _ _ H) as (done & p & rest' & w2 & -> & F & B & S & He).
    exists (q :: done), p, rest', w2. simpl. unfold bind. rewrite E.
    rewrite Nat.add_succ_r. repeat split; auto.
    apply main_body_returns in E as (_ & _ & _ & S1 & _).
    now rewrite S, S1, <- app_assoc.
  - intros [= <- <-]. exists [], q, rest, w. simpl. rewrite Nat.add_0_r.
    destruct (main_body_raises _ _ _ _ _ E) as [S He].
    repeat split; auto. now rewrite app_nil_r.
Qed.

End FirstFailure.

(** X16.  An exception ends the run where it occurs.  When [main]
    raises, either reading the node list has raised, [ValueError] or
    [OSError], and nothing has happened, or the iteration of one pair has
    raised [ValueError] or [OSError]: then the pairs before it have been
    submitted, in order, and neither that pair nor any pair after it has
    been. *)
Theorem main_stops_at_first_failure child nodelist_file omb_name mpi_cmd w e w' :
  main child nodelist_file omb_name mpi_cmd w = Raise e w' ->
  (read_file nodelist_file w = Raise e w /\
   (e = ValueError \/ e = OSError) /\ w' = w) \/
  (exists nodes pairs w1 done p rest w2,
      read_file nodelist_file w = Ret nodes w /\
      pairing_stage nodes w = Ret pairs w1 /\
      pairs = (done ++ p :: rest)%list /\
      for_enumerate 0 done (main_body child omb_name mpi_cmd (sanitize omb_name)) w1
      = Ret tt w2 /\
      main_body child omb_name mpi_cmd (sanitize omb_name) (length done) p w2
      = Raise e w' /\
      (e = ValueError \/ e = OSError) /\
      spawned w' = (spawned w ++ submissions 0 (sanitize omb_name) done)%list).
Proof.
  rewrite main_eq. unfold bind at 1.
  pose proof (read_file_frame nodelist_file w) as Hr.
  destruct (read_file nodelist_file w) as [nodes w0|e0 w0| |];
    try contradiction.
  2:{ destruct Hr as [-> He]. intros [= <- <-]. left. auto. }
  subst w0.
  unfold bind at 1. pose proof (pairing_stage_run nodes w) as Hp.
  destruct (pairing_stage nodes w) as [pairs w1| | |] eqn:E; cbn [runs] in Hp;
    try contradiction; try discriminate.
  intros H. right.
  destruct (for_enumerate_raises _ _ _ _ _ _ _ _ _ H)
    as (done & p & rest & w2 & -> & F & B & S & He).
  exists nodes, (done ++ p :: rest)%list, w1, done, p, rest, w2.
  split; [reflexivity|].
  split; [exact E|]. split; [reflexivity|]. split; [exact F|].
  split; [exact B|]. split; [exact He|].
  rewrite S. f_equal.
  destruct Hp as (_ & _ & _ & [(_ & _ & ->) | (_ & x & _ & ->)]); reflexivity.
Qed.

Lemma main_stops_at_first_failure_witness :
  exists w',
    main (fun _ _ => None) "nodes.txt" "lib/2.1" "srun" world_c = Raise OSError w' /\
    exists nodes pairs w1 done p rest w2,
      read_file "nodes.txt" world_c = Ret nodes world_c /\
      pairing_stage nodes world_c = Ret pairs w1 /\
      pairs = (done ++ p :: rest)%list /\
      for_enumerate 0 done
        (main_body (fun _ _ => None) "lib/2.1" "srun" (sanitize "lib/2.1")) w1
      = Ret tt w2 /\
      main_body (fun _ _ => None) "lib/2.1" "srun" (sanitize "lib/2.1")
        (length done) p w2 = Raise OSError w' /\
      (OSError = ValueError \/ OSError = OSError) /\
      spawned w' = (spawned world_c ++ submissions 0 (sanitize "lib/2.1") done)%list.
Proof.
  assert (H : exists w',
             main (fun _ _ => None) "nodes.txt" "lib/2.1" "srun" world_c
             = Raise OSError w') by (eexists; vm_compute; reflexivity).
  destruct H as (w' & H). exists w'. split; [exact H|].
  destruct (main_stops_at_first_failure _ _ _ _ _ _ _ H) as [(Hf & _) | Hr].
  - vm_compute in Hf. discriminate Hf.
  - exact Hr.
Defined.

(** * plot.py: the module of a log file *)

Section Patterns.

(** The text a match has consumed, from what it has left. *)
Lemma group_text a b :
  substring 0 (String.length (a ++ b) - String.length b) (a ++ b) = a.
Proof.
  rewrite string_length_app.
  replace (String.length a + String.length b - String.length b)
    with (String.length a) by lia.
  apply substring_app.
Qed.

Lemma letter_not_digit c : letter_or_hyphen c = true -> digit_or_dot c = false.
Proof.
  destruct c as [[] [] [] [] [] [] [] []]; vm_compute; congruence.
Qed.

Lemma digit_or_dot_not_hyphen c : digit_or_dot c = true -> c <> "-"%char.
Proof. intros H ->. discriminate H. Qed.

Lemma all_digits_all_in s : all_in is_digit s = all_digits s.
Proof. induction s as [|c s IH]; simpl; [reflexivity | now rewrite IH]. Qed.

(** *** What the matcher finds is in the text *)

Lemma many_sound p s r :
  In r (Re.many p s) ->
  exists t, t <> "" /\ all_in p t = true /\ s = t ++ r.
Proof.
  revert r. induction s as [|c s IH]; intros r; simpl; [tauto|].
  destruct (p c) eqn:Hc; [|intros []].
  intros [H|H]%in_app_or.
  - destruct (IH r H) as (t & Ht & Hp & ->).
    exists (String c t). simpl. rewrite Hc, Hp. repeat split. discriminate.
  - destruct H as [<-|[]]. exists (String c ""). simpl. rewrite Hc.
    repeat split. discriminate.
Qed.

Lemma lit_sound l s r : In r (Re.matches (Re.Lit l) s) -> s = l ++ r.
Proof.
  simpl. destruct (String.prefix l s) eqn:H; [|intros []].
  intros [<-|[]]. apply prefix_correct in H.
  revert s H. induction l as [|c l IH]; intros s H; simpl.
  - reflexivity.
  - destruct s as [|d s]; simpl in H; [discriminate|].
    injection H as -> H. simpl. f_equal. now apply IH.
Qed.

Lemma cat_sound r1 r2 s r :
  In r (Re.matches (Re.Cat r1 r2) s) ->
  exists mid, In mid (Re.matches r1 s) /\ In r (Re.matches r2 mid).
Proof. simpl. intros H. now apply in_flat_map in H. Qed.

Lemma group1_sound before group s text :
  Re.group1 before group s = Some text ->
  exists s1 s2,
    In s1 (Re.matches before s) /\ In s2 (Re.matches group s1)
    /\ text = substring 0 (String.length s1 - String.length s2) s1.
Proof.
  unfold Re.group1.
  destruct (flat_map _ _) as [|t ts] eqn:E; [discriminate|].
  intros [= <-].
  assert (H : In t (t :: ts)) by now left.
  rewrite <- E in H. apply in_flat_map in H as (s1 & H1 & H).
  apply in_map_iff in H as (s2 & <- & H2). now exists s1, s2.
Qed.

Lemma log_name_start_sound s r :
  In r (Re.matches log_name_start s) ->
  exists d, d <> "" /\ all_digits d = true /\ s = d ++ "_microOSU-" ++ r.
Proof.
  intros (mid & H1 & H2)%cat_sound.
  apply many_sound in H1 as (d & Hd & Hp & ->).
  apply lit_sound in H2 as ->.
  exists d. now rewrite <- all_digits_all_in.
Qed.

Lemma module_start_sound tail s r :
  In r (Re.matches
          (Re.Cat (Re.Many letter_or_hyphen)
             (Re.Cat (Re.Lit "-") (Re.Cat (Re.Many digit_or_dot) tail))) s) ->
  exists l v mid,
    l <> "" /\ all_in letter_or_hyphen l = true
    /\ v <> "" /\ all_in digit_or_dot v = true
    /\ s = l ++ "-" ++ v ++ mid /\ In r (Re.matches tail mid).
Proof.
  intros (m1 & H1 & (m2 & H2 & (m3 & H3 & H4)%cat_sound)%cat_sound)%cat_sound.
  apply many_sound in H1 as (l & Hl & Hpl & ->).
  apply lit_sound in H2 as ->.
  apply many_sound in H3 as (v & Hv & Hpv & ->).
  now exists l, v, m3.
Qed.

Lemma cuda_tail_sound s r :
  In r (Re.matches cuda_tail s) ->
  exists x, x <> Py.nl /\ s = "-7" ++ String x ("4-cuda" ++ r).
Proof.
  intros (m1 & H1 & (m2 & H2 & H3)%cat_sound)%cat_sound.
  apply lit_sound in H1 as ->. apply lit_sound in H3 as ->.
  cbn [Re.matches] in H2. destruct m1 as [|x m1]; [destruct H2|].
  destruct (not_line_feed x) eqn:Hx; [|destruct H2].
  destruct H2 as [<-|[]]. exists x. split; [|reflexivity].
  intros ->. discriminate Hx.
Qed.

Lemma optional_cuda_sound s r :
  In r (Re.matches (Re.Opt (Re.Lit "-cuda")) s) ->
  s = r \/ s = "-cuda" ++ r.
Proof.
  cbn [Re.matches]. intros [H|[<-|[]]]%in_app_or.
  - right. now apply (lit_sound "-cuda").
  - now left.
Qed.

(** *** What the matcher finds first *)

(** A greedy run stops where the characters of the set stop, and a
    continuation that refuses the characters of the set is tried there
    only. *)
Lemma many_then {B} p (k : string -> list B) run x :
  run <> "" -> all_in p run = true -> Re.many p x = [] ->
  (forall c t, p c = true -> k (String c t) = []) ->
  flat_map k (Re.many p (run ++ x)) = k x.
Proof.
  intros Hrun Hp Hx Hk.
  induction run as [|c run IH]; [now elim Hrun|].
  simpl in Hp. apply andb_true_iff in Hp as [Hc Hp].
  cbn [append Re.many]. rewrite Hc, flat_map_app. cbn [flat_map].
  rewrite app_nil_r.
  destruct run as [|d run].
  - cbn [append]. now rewrite Hx.
  - rewrite IH; [|discriminate|exact Hp].
    simpl in Hp. apply andb_true_iff in Hp as [Hd _].
    cbn [append]. rewrite (Hk d _ Hd). apply app_nil_r.
Qed.

Lemma many_first p run x :
  run <> "" -> all_in p run = true -> Re.many p x = [] ->
  exists more, Re.many p (run ++ x) = x :: more.
Proof.
  intros Hrun Hp Hx.
  induction run as [|c run IH]; [now elim Hrun|].
  simpl in Hp. apply andb_true_iff in Hp as [Hc Hp].
  cbn [append Re.many]. rewrite Hc.
  destruct run as [|d run].
  - cbn [append]. rewrite Hx. now exists [].
  - destruct IH as (more & ->); [discriminate|exact Hp|].
    now exists (more ++ [(String d run ++ x)%string])%list.
Qed.

(** The letters and hyphens of a module name end at the hyphen before
    its version: the greedy run takes that hyphen too and gives it
    back. *)
Lemma letters_then_hyphen {B} (k : string -> list B) l x :
  all_in letter_or_hyphen l = true ->
  Re.many letter_or_hyphen x = [] ->
  k x = [] ->
  (forall c d t, letter_or_hyphen d = true -> k (String c (String d t)) = []) ->
  flat_map k (Re.many letter_or_hyphen (l ++ "-" ++ x))
  = match l with EmptyString => [] | String _ _ => k ("-" ++ x) end.
Proof.
  intros Hl Hx Hk0 Hk.
  induction l as [|c l IH].
  - cbn [append Re.many]. replace (letter_or_hyphen "-") with true by reflexivity.
    rewrite Hx. cbn [app flat_map]. now rewrite Hk0.
  - simpl in Hl. apply andb_true_iff in Hl as [Hc Hl].
    specialize (IH Hl). cbn [append Re.many] in IH |- *.
    rewrite Hc, flat_map_app, IH.
    cbn [flat_map]. rewrite app_nil_r.
    destruct l as [|d l]; [reflexivity|].
    simpl in Hl. apply andb_true_iff in Hl as [Hd Hl].
    destruct l as [|e l].
    + cbn [append]. rewrite (Hk d "-"%char x eq_refl). apply app_nil_r.
    + simpl in Hl. apply andb_true_iff in Hl as [He _].
      cbn [append]. rewrite (Hk d e _ He). apply app_nil_r.
Qed.

Lemma log_name_start_run d y :
  d <> "" -> all_digits d = true ->
  Re.matches log_name_start (d ++ "_microOSU-" ++ y) = [y].
Proof.
  intros Hd Hp. rewrite <- all_digits_all_in in Hp.
  unfold log_name_start. cbn [Re.matches].
  rewrite many_then; [|exact Hd|exact Hp|reflexivity|].
  - change (Re.matches (Re.Lit "_microOSU-") ("_microOSU-" ++ y) = [y]).
    cbn [Re.matches]. now rewrite prefix_app, skip_prefix.
  - intros c t Hc. cbn [Re.matches String.prefix].
    destruct (ascii_dec "_" c) as [<-|_]; [discriminate Hc | reflexivity].
Qed.

Lemma many_digits_stop v tl :
  v <> "" -> all_in digit_or_dot v = true ->
  Re.many letter_or_hyphen (v ++ tl) = [].
Proof.
  destruct v as [|c v]; [now intros []|]. intros _ H.
  simpl in H. apply andb_true_iff in H as [Hc _].
  cbn [append Re.many].
  destruct (letter_or_hyphen c) eqn:E; [|reflexivity].
  apply letter_not_digit in E. congruence.
Qed.

(** Where the letters and the version of a module name are found. *)
Lemma module_start_run tail l v tl :
  l <> "" -> all_in letter_or_hyphen l = true ->
  v <> "" -> all_in digit_or_dot v = true ->
  Re.matches
    (Re.Cat (Re.Many letter_or_hyphen)
       (Re.Cat (Re.Lit "-") (Re.Cat (Re.Many digit_or_dot) tail)))
    (l ++ "-" ++ v ++ tl)
  = flat_map (Re.matches tail) (Re.many digit_or_dot (v ++ tl)).
Proof.
  intros Hl Hpl Hv Hpv.
  change (Re.matches (Re.Cat (Re.Many letter_or_hyphen) ?r) ?s)
    with (flat_map (Re.matches r) (Re.many letter_or_hyphen s)).
  rewrite letters_then_hyphen;
    [|exact Hpl|now apply many_digits_stop| |].
  - destruct l as [|c l]; [now elim Hl|].
    change (Re.matches (Re.Cat (Re.Lit "-") ?r) ("-" ++ ?s))
      with (flat_map (Re.matches r) (Re.matches (Re.Lit "-") ("-" ++ s))).
    cbn [Re.matches]. rewrite prefix_app, skip_prefix.
    cbn [flat_map]. apply app_nil_r.
  - destruct v as [|c v]; [now elim Hv|].
    simpl in Hpv. apply andb_true_iff in Hpv as [Hc _].
    apply digit_or_dot_not_hyphen in Hc.
    cbn [append Re.matches String.prefix].
    destruct (ascii_dec "-" c) as [<-|_]; [now elim Hc | reflexivity].
  - intros c d t Hd. cbn [Re.matches String.prefix flat_map].
    destruct (ascii_dec "-" c) as [_|_]; [|reflexivity].
    cbn [String.length skip flat_map Re.many].
    rewrite (letter_not_digit d Hd). reflexivity.
Qed.

Lemma cuda_tail_refuses c t :
  digit_or_dot c = true -> Re.matches cuda_tail (String c t) = [].
Proof.
  intros H. apply digit_or_dot_not_hyphen in H.
  unfold cuda_tail. cbn [Re.matches String.prefix].
  destruct (ascii_dec "-" c) as [<-|_]; [now elim H | reflexivity].
Qed.

Lemma cuda_module_run l v tl :
  l <> "" -> all_in letter_or_hyphen l = true ->
  v <> "" -> all_in digit_or_dot v = true ->
  Re.many digit_or_dot tl = [] ->
  Re.matches cuda_module (l ++ "-" ++ v ++ tl) = Re.matches cuda_tail tl.
Proof.
  intros Hl Hpl Hv Hpv Htl. unfold cuda_module.
  rewrite module_start_run by assumption.
  apply many_then; try assumption. apply cuda_tail_refuses.
Qed.

Lemma plain_module_run l v tl :
  l <> "" -> all_in letter_or_hyphen l = true ->
  v <> "" -> all_in digit_or_dot v = true ->
  Re.many digit_or_dot tl = [] ->
  exists more,
    Re.matches plain_module (l ++ "-" ++ v ++ tl)
    = ((if String.prefix "-cuda" tl then [skip 5 tl] else []) ++ tl :: more)%list.
Proof.
  intros Hl Hpl Hv Hpv Htl. unfold plain_module.
  rewrite module_start_run by assumption.
  destruct (many_first digit_or_dot v tl Hv Hpv Htl) as (more & ->).
  cbn [flat_map]. eexists.
  change (Re.matches (Re.Opt (Re.Lit "-cuda")) tl)
    with ((if String.prefix "-cuda" tl then [skip 5 tl] else []) ++ [tl])%list.
  rewrite <- app_assoc. reflexivity.
Qed.

End Patterns.

Section ModuleOfName.

Lemma skip_add a b s : skip (a + b) s = skip b (skip a s).
Proof.
  revert s. induction a as [|a IH]; intros s; [now destruct s|].
  destruct s as [|c s]; [now destruct b | apply IH].
Qed.

Lemma many_stops p s : starts_in p s = false -> Re.many p s = [].
Proof. destruct s as [|c s]; simpl; [reflexivity | now intros ->]. Qed.

Lemma cuda_tail_run tl :
  Re.matches cuda_tail tl = if starts_cuda_tail tl then [skip 9 tl] else [].
Proof.
  unfold cuda_tail, starts_cuda_tail. cbn [Re.matches String.length].
  destruct (String.prefix "-7" tl); [|reflexivity].
  cbn [flat_map andb]. rewrite app_nil_r.
  change 9 with (2 + 7). rewrite skip_add.
  destruct (skip 2 tl) as [|x r]; [reflexivity|].
  destruct (not_line_feed x); [|reflexivity].
  cbn [flat_map andb]. rewrite app_nil_r.
  destruct (String.prefix "4-cuda" r); reflexivity.
Qed.



(** The module of a well-formed name: digits, [_microOSU-], letters and
    hyphens, a hyphen, a version, and then anything that does not go on
    with the version. *)
Lemma extract_module_info_run d l v tl :
  d <> "" -> all_digits d = true ->
  l <> "" -> all_in letter_or_hyphen l = true ->
  v <> "" -> all_in digit_or_dot v = true ->
  starts_in digit_or_dot tl = false ->
  extract_module_info (d ++ "_microOSU-" ++ l ++ "-" ++ v ++ tl)
  = Some (l ++ "-" ++ v ++ module_suffix tl).
Proof.
  intros Hd Hpd Hl Hpl Hv Hpv Htl. apply many_stops in Htl.
  unfold extract_module_info, Re.group1, module_suffix.
  rewrite log_name_start_run by assumption.
  cbn [flat_map]. rewrite !app_nil_r.
  rewrite cuda_module_run, cuda_tail_run by assumption.
  destruct (starts_cuda_tail tl).
  - cbn [map]. f_equal.
    pose proof (substring_skip 9 tl) as E.
    remember (substring 0 9 tl) as a. remember (skip 9 tl) as b.
    rewrite E.
    replace (l ++ "-" ++ v ++ a ++ b) with ((l ++ "-" ++ v ++ a) ++ b)
      by now rewrite !append_assoc.
    apply group_text.
  - cbn [map].
    destruct (plain_module_run l v tl Hl Hpl Hv Hpv Htl) as (more & ->).
    destruct (String.prefix "-cuda" tl) eqn:P.
    + cbn [app map]. f_equal.
      apply prefix_skip in P. cbn [String.length] in P.
      remember (skip 5 tl) as b. rewrite P.
      replace (l ++ "-" ++ v ++ "-cuda" ++ b)
        with ((l ++ "-" ++ v ++ "-cuda") ++ b) by now rewrite !append_assoc.
      apply group_text.
    + cbn [app map]. f_equal.
      replace (l ++ "-" ++ v ++ tl) with ((l ++ "-" ++ v) ++ tl)
        by now rewrite !append_assoc.
      rewrite group_text. now rewrite append_empty.
Qed.


End ModuleOfName.


(** A name is read as in [module_info_is_in_name] below, whichever of
    the two patterns of [extract_module_info] has matched. *)
Lemma group1_shape tail file_name module :
  Re.group1 log_name_start
    (Re.Cat (Re.Many letter_or_hyphen)
       (Re.Cat (Re.Lit "-") (Re.Cat (Re.Many digit_or_dot) tail)))
    file_name = Some module ->
  exists d l v mid rest,
    In rest (Re.matches tail mid)
    /\ file_name = d ++ "_microOSU-" ++ l ++ "-" ++ v ++ mid
    /\ module
       = substring 0
           (String.length (l ++ "-" ++ v ++ mid) - String.length rest)
           (l ++ "-" ++ v ++ mid)
    /\ d <> "" /\ all_digits d = true
    /\ l <> "" /\ all_in letter_or_hyphen l = true
    /\ v <> "" /\ all_in digit_or_dot v = true.
Proof.
  intros (s1 & s2 & H1 & H2 & ->)%group1_sound.
  apply log_name_start_sound in H1 as (d & Hd & Hpd & ->).
  apply module_start_sound in H2 as (l & v & mid & Hl & Hpl & Hv & Hpv & -> & H).
  exists d, l, v, mid, s2. repeat split; assumption.
Qed.

(** X17.  [extract_module_info] of plot.py, on a file name of ASCII
    characters: whatever module the function returns stands in the file
    name, right after a non-empty run of digits and [_microOSU-]; and it
    is made of a non-empty run of letters and hyphens, a hyphen, a
    non-empty run of digits and dots, and then nothing, [-cuda], or [-7],
    one character that is no line feed, and [4-cuda]. *)
Theorem module_info_is_in_name file_name module :
  all_in is_ascii file_name = true ->
  extract_module_info file_name = Some module ->
  exists d l v c rest,
    file_name = d ++ "_microOSU-" ++ module ++ rest
    /\ module = l ++ "-" ++ v ++ c
    /\ d <> "" /\ all_digits d = true
    /\ l <> "" /\ all_in letter_or_hyphen l = true
    /\ v <> "" /\ all_in digit_or_dot v = true
    /\ (c = "" \/ c = "-cuda"
        \/ exists x, x <> Py.nl /\ c = "-7" ++ String x "4-cuda").
Proof.
  intros _. unfold extract_module_info.
  destruct (Re.group1 log_name_start cuda_module file_name) as [m|] eqn:E.
  - intros [= <-].
    apply group1_shape in E
      as (d & l & v & mid & rest & H & -> & -> & Hd & Hpd & Hl & Hpl & Hv & Hpv).
    apply cuda_tail_sound in H as (x & Hx & ->).
    exists d, l, v, ("-7" ++ String x "4-cuda"), rest.
    replace (l ++ "-" ++ v ++ "-7" ++ String x ("4-cuda" ++ rest))
      with ((l ++ "-" ++ v ++ "-7" ++ String x "4-cuda") ++ rest)
      by now rewrite !append_assoc.
    rewrite group_text.
    repeat split; try assumption.
    right. right. now exists x.
  - intros E2.
    apply group1_shape in E2
      as (d & l & v & mid & rest & H & -> & -> & Hd & Hpd & Hl & Hpl & Hv & Hpv).
    apply optional_cuda_sound in H as [->| ->].
    + exists d, l, v, "", rest.
      replace (l ++ "-" ++ v ++ rest) with ((l ++ "-" ++ v ++ "") ++ rest)
        by now rewrite !append_assoc.
      rewrite group_text.
      repeat split; try assumption. now left.
    + exists d, l, v, "-cuda", rest.
      replace (l ++ "-" ++ v ++ "-cuda" ++ rest)
        with ((l ++ "-" ++ v ++ "-cuda") ++ rest) by now rewrite !append_assoc.
      rewrite group_text.
      repeat split; try assumption. now right; left.
Qed.

Lemma module_info_is_in_name_witness :
  exists d l v c rest,
    "12_microOSU-openmpi-4.1.5-cuda_g1_g2_77.out"
    = d ++ "_microOSU-" ++ "openmpi-4.1.5-cuda" ++ rest
    /\ "openmpi-4.1.5-cuda" = l ++ "-" ++ v ++ c
    /\ d <> "" /\ all_digits d = true
    /\ l <> "" /\ all_in letter_or_hyphen l = true
    /\ v <> "" /\ all_in digit_or_dot v = true
    /\ (c = "" \/ c = "-cuda"
        \/ exists x, x <> Py.nl /\ c = "-7" ++ String x "4-cuda").
Proof.
  exact (module_info_is_in_name
           "12_microOSU-openmpi-4.1.5-cuda_g1_g2_77.out" "openmpi-4.1.5-cuda"
           eq_refl eq_refl).
Defined.



(** X19.  [extract_module_info] of plot.py: a name made of digits,
    [_microOSU-], letters and hyphens, a hyphen, a version of digits and
    dots, and then ASCII text [tl] that does not go on with a digit or a
    dot, has a module: the letters, the hyphen and the version, followed
    by the nine characters [-7?4-cuda] when [tl] starts with them, by
    [-cuda] when [tl] starts with that, and by nothing otherwise. *)
Theorem module_of_log_name d l v tl :
  d <> "" -> all_digits d = true ->
  l <> "" -> all_in letter_or_hyphen l = true ->
  v <> "" -> all_in digit_or_dot v = true ->
  all_in is_ascii tl = true ->
  starts_in digit_or_dot tl = false ->
  extract_module_info (d ++ "_microOSU-" ++ l ++ "-" ++ v ++ tl)
  = Some (l ++ "-" ++ v ++ module_suffix tl).
Proof. intros Hd Dd Hl Dl Hv Dv _. now apply extract_module_info_run. Qed.

Lemma module_of_log_name_witness :
  extract_module_info
    ("12" ++ "_microOSU-" ++ "open-mpi" ++ "-" ++ "4.1.5" ++ "-7.4-cuda_g1_g2_77.out")
  = Some ("open-mpi" ++ "-" ++ "4.1.5" ++ module_suffix "-7.4-cuda_g1_g2_77.out").
Proof.
  apply (module_of_log_name "12" "open-mpi" "4.1.5" "-7.4-cuda_g1_g2_77.out");
    solve [discriminate | reflexivity].
Defined.




